(** * Order matching engine: order book and matching core

    A shallow embedding of the Go packages [types] (pkg/types/order.go),
    [orderbook] (the per-symbol book) and [matching] (pkg/matching/engine.go),
    together with the part of the HTTP handler that builds and validates an
    order, followed by the properties of the written specification that were
    checked against them.

    Modelling conventions.
    - [float64] prices and quantities are exact integers ([Z]); rounding is
      outside the model.
    - [OrderType], [OrderSide] and [OrderStatus] are Go string types and stay
      strings here, so that a side or a type outside the declared constants
      follows the same [else] branches as in the source.
    - An order is a heap object ([*types.Order]): the book's id map, the price
      levels, the matching loop and the caller all hold the same pointer.  The
      objects live in a store [gmap loc Order]; the book holds locations.
    - A price level is reached only through the slice of its side, so a level
      is a value inside that list.
    - Timestamps, the trade uuid and the mutexes are left out.
    - A dereference of a location that is not allocated is [Panic]; the
      [for] loop of [matchOrder] is run on fuel and reports [OutOfFuel].
    - The methods that reach [heap.Push] take the [Push] method of the slice as
      a parameter.  [priceLevels_Push] is the method of the source; results
      stated for it are results about the code as written.
      [priceLevels_Push_ptr] is the pointer-receiver form, used to show what
      does and what does not depend on that method. *)

From stdpp Require Import base option list strings gmap numbers.
From Stdlib Require Import ZArith Lia.

Local Open Scope Z_scope.

(** ** Package types *)

Definition OrderType := string.
Definition OrderSide := string.
Definition OrderStatus := string.

Definition LimitOrder : OrderType := "LIMIT".
Definition MarketOrder : OrderType := "MARKET".
Definition StopOrder : OrderType := "STOP".

Definition BuyOrder : OrderSide := "BUY".
Definition SellOrder : OrderSide := "SELL".

Definition OrderStatusNew : OrderStatus := "NEW".
Definition OrderStatusPartial : OrderStatus := "PARTIAL".
Definition OrderStatusFilled : OrderStatus := "FILLED".
Definition OrderStatusCancelled : OrderStatus := "CANCELLED".
Definition OrderStatusRejected : OrderStatus := "REJECTED".

Record Order : Type := mkOrder {
  ID : string;
  UserID : string;
  Symbol : string;
  Type_ : OrderType;
  Side : OrderSide;
  Price : Z;
  Quantity : Z;
  FilledQty : Z;
  RemainingQty : Z;
  Status : OrderStatus;
  StopPrice : Z
}.

Record Trade : Type := mkTrade {
  TSymbol : string;
  BuyOrderID : string;
  SellOrderID : string;
  TPrice : Z;
  TQuantity : Z;
  BuyerUserID : string;
  SellerUserID : string
}.

Record OrderBookLevel : Type := mkOrderBookLevel {
  LPrice : Z;
  LQuantity : Z;
  LOrders : nat
}.

Record OrderBookSnapshot : Type := mkSnapshot {
  SSymbol : string;
  Bids : list OrderBookLevel;
  Asks : list OrderBookLevel
}.

(** The values built by the [fmt.Errorf] calls of the two packages. *)
Inductive error : Type :=
  | ErrOrderExists (id : string)        (* "order %s already exists" *)
  | ErrOrderNotFound (id : string)      (* "order %s not found" *)
  | ErrAlreadyCancelled (id : string)   (* "order %s already cancelled" *)
  | ErrInvalidSymbol (symbol : string)  (* "invalid symbol %s" *)
  | ErrMarketNotFilled                  (* "market order could not be fully filled" *)
  | ErrBookNotFound (symbol : string).  (* "order book for symbol %s not found" *)

(** Field assignments through a pointer. *)
Definition with_Status (s : OrderStatus) (o : Order) : Order :=
  mkOrder (ID o) (UserID o) (Symbol o) (Type_ o) (Side o) (Price o) (Quantity o)
          (FilledQty o) (RemainingQty o) s (StopPrice o).

Definition with_FilledQty (f : Z) (o : Order) : Order :=
  mkOrder (ID o) (UserID o) (Symbol o) (Type_ o) (Side o) (Price o) (Quantity o)
          f (RemainingQty o) (Status o) (StopPrice o).

Definition with_RemainingQty (r : Z) (o : Order) : Order :=
  mkOrder (ID o) (UserID o) (Symbol o) (Type_ o) (Side o) (Price o) (Quantity o)
          (FilledQty o) r (Status o) (StopPrice o).

(** ** The store of order objects and the monad of the methods *)

Definition loc := nat.
Abbreviation Mem := (gmap loc Order).

Inductive result (A : Type) : Type :=
  | Ok (a : A)
  | Panic
  | OutOfFuel.
Arguments Ok {A} a.
Arguments Panic {A}.
Arguments OutOfFuel {A}.

Definition M (A : Type) : Type := Mem → result (A * Mem).

#[export] Instance M_ret : MRet M := λ A a m, Ok (a, m).

#[export] Instance M_bind : MBind M := λ A B k c m,
  match c m with
  | Ok (a, m') => k a m'
  | Panic => Panic
  | OutOfFuel => OutOfFuel
  end.

(** Reading the object [p] points to. *)
Definition load (p : loc) : M Order :=
  λ m, match m !! p with
       | Some o => Ok (o, m)
       | None => Panic
       end.

(** Assignment to fields of the object [p] points to; [f] rebuilds it. *)
Definition update (p : loc) (f : Order → Order) : M unit :=
  λ m, match m !! p with
       | Some o => Ok (tt, <[p := f o]> m)
       | None => Panic
       end.

Definition out_of_fuel {A} : M A := λ _, OutOfFuel.

(** ** Package orderbook *)

Record priceLevel : Type := mkLevel {
  price : Z;
  orders : list loc;
  volume : Z
}.

Abbreviation priceLevels := (list priceLevel).

(** [buyPriceLevels.Less] and [sellPriceLevels.Less], on the two elements. *)
Definition buy_Less (a b : priceLevel) : bool := bool_decide (price a > price b).
Definition sell_Less (a b : priceLevel) : bool := bool_decide (price a < price b).

(** [func (pl priceLevels) Push(x interface{}) { pl = append(pl, x) }]

    The receiver is the slice value, not a pointer to it: [append] is assigned
    to the method's own copy of the slice header, and the slice the book holds
    keeps its length and its elements.  The result is the slice as the caller
    sees it after the call. *)
Definition priceLevels_Push (pl : priceLevels) (x : priceLevel) : priceLevels := pl.

(** The same method as it would read with a pointer receiver,
    [( *pl) = append( *pl, x)], the form container/heap documents for [Push].  It
    is not what the source has; it serves to tell apart what follows from the
    value receiver and what does not. *)
Definition priceLevels_Push_ptr (pl : priceLevels) (x : priceLevel) : priceLevels :=
  pl ++ [x].

(** container/heap: [up(h, j)], with [Swap] on the slice.
    [i := (j - 1) / 2] truncates toward zero, so [j = 0] and [j = -1] both
    stop at [i == j]. *)
Fixpoint up_loop (fuel : nat) (less : priceLevel → priceLevel → bool)
    (pl : priceLevels) (j : Z) : priceLevels :=
  match fuel with
  | O => pl
  | S n =>
      let i := (j - 1) `quot` 2 in
      if bool_decide (i = j) then pl
      else match pl !! Z.to_nat j, pl !! Z.to_nat i with
           | Some xj, Some xi =>
               if less xj xi
               then up_loop n less (<[Z.to_nat i := xj]> (<[Z.to_nat j := xi]> pl)) i
               else pl
           | _, _ => pl
           end
  end.

Definition up (less : priceLevel → priceLevel → bool) (pl : priceLevels) (j : Z)
    : priceLevels :=
  up_loop (S (length pl)) less pl j.

Record OrderBook : Type := mkBook {
  symbol : string;
  bids : priceLevels;
  asks : priceLevels;
  ob_orders : gmap string loc
}.

Definition NewOrderBook (sym : string) : OrderBook := mkBook sym [] [] ∅.

(** The side an order belongs to: [if order.Side == types.BuyOrder] picks the
    bids, every other value the asks. *)
Definition is_buy (o : Order) : bool := bool_decide (Side o = BuyOrder).

Definition side_levels (buy : bool) (ob : OrderBook) : priceLevels :=
  if buy then bids ob else asks ob.

Definition set_side_levels (buy : bool) (ls : priceLevels) (ob : OrderBook) : OrderBook :=
  if buy then mkBook (symbol ob) ls (asks ob) (ob_orders ob)
  else mkBook (symbol ob) (bids ob) ls (ob_orders ob).

(** Index of the first level with [l.price == p]. *)
Fixpoint find_level (p : Z) (ls : priceLevels) : option nat :=
  match ls with
  | [] => None
  | l :: ls' => if bool_decide (price l = p) then Some 0%nat
                else S <$> find_level p ls'
  end.

(** Index of the first order of the level with [o.ID == orderID]; every order
    up to it is dereferenced. *)
Fixpoint find_order (orderID : string) (os : list loc) : M (option nat) :=
  match os with
  | [] => mret None
  | q :: os' =>
      o ← load q;
      if bool_decide (ID o = orderID) then mret (Some 0%nat)
      else (r ← find_order orderID os'; mret (S <$> r))
  end.

Section WithPush.

(** The [Push] method of the slice the heap works on. *)
Variable Push : priceLevels → priceLevel → priceLevels.

(** container/heap: [func Push(h Interface, x any) { h.Push(x); up(h, h.Len()-1) }]. *)
Definition heap_Push (less : priceLevel → priceLevel → bool)
    (h : priceLevels) (x : priceLevel) : priceLevels :=
  let h' := Push h x in
  up less h' (Z.of_nat (length h') - 1).

(** [func (ob *OrderBook) AddOrder(order *types.Order) error].

    [heap.Push] is given [levels], a [*priceLevels], which has no [Less]; the
    comparison taken is the one of the side the slice belongs to.  The two
    writes after the [if level == nil] block go to the level object; [Less]
    reads the price only, so a new level is handed to the heap with these
    writes done. *)
Definition AddOrder (ob : OrderBook) (p : loc) : M (OrderBook * option error) :=
  order ← load p;
  match ob_orders ob !! ID order with
  | Some _ => mret (ob, Some (ErrOrderExists (ID order)))
  | None =>
      _ ← update p (λ o, with_FilledQty 0
                           (with_RemainingQty (Quantity o)
                              (with_Status OrderStatusNew o)));
      order ← load p;
      let ob1 := mkBook (symbol ob) (bids ob) (asks ob)
                        (<[ID order := p]> (ob_orders ob)) in
      let buy := is_buy order in
      let levels := side_levels buy ob1 in
      let levels' :=
        match find_level (Price order) levels with
        | Some i =>
            alter (λ l, mkLevel (price l) (orders l ++ [p])
                                (volume l + RemainingQty order)) i levels
        | None =>
            heap_Push (if buy then buy_Less else sell_Less) levels
                      (mkLevel (Price order) [p] (0 + RemainingQty order))
        end in
      mret (set_side_levels buy levels' ob1, None)
  end.

End WithPush.

(** [func (ob *OrderBook) CancelOrder(orderID string) error]. *)
Definition CancelOrder (ob : OrderBook) (orderID : string) : M (OrderBook * option error) :=
  match ob_orders ob !! orderID with
  | None => mret (ob, Some (ErrOrderNotFound orderID))
  | Some q =>
      order ← load q;
      if bool_decide (Status order = OrderStatusCancelled)
      then mret (ob, Some (ErrAlreadyCancelled orderID))
      else
        _ ← update q (with_Status OrderStatusCancelled);
        let buy := is_buy order in
        let levels := side_levels buy ob in
        match find_level (Price order) levels with
        | None => mret (ob, None)
        | Some k =>
            match levels !! k with
            | None => mret (ob, None)
            | Some level =>
                r ← find_order orderID (orders level);
                match r with
                | None => mret (ob, None)
                | Some i =>
                    let level' := mkLevel (price level) (delete i (orders level))
                                          (volume level - RemainingQty order) in
                    mret (set_side_levels buy (<[k := level']> levels) ob, None)
                end
            end
        end
  end.

(** [func (ob *OrderBook) GetOrder(orderID string)]. *)
Definition GetOrder (ob : OrderBook) (orderID : string) : option loc * option error :=
  match ob_orders ob !! orderID with
  | Some q => (Some q, None)
  | None => (None, Some (ErrOrderNotFound orderID))
  end.

Definition best_of (ls : priceLevels) : option loc :=
  match ls with
  | [] => None
  | level :: _ =>
      match orders level with
      | [] => None
      | o :: _ => Some o
      end
  end.

(** [func (ob *OrderBook) GetBestBid(symbol string)];
    [None] for the order is the nil pointer. *)
Definition GetBestBid (ob : OrderBook) (sym : string) : option loc * option error :=
  if bool_decide (sym ≠ symbol ob) then (None, Some (ErrInvalidSymbol sym))
  else (best_of (bids ob), None).

(** [func (ob *OrderBook) GetBestAsk(symbol string)]. *)
Definition GetBestAsk (ob : OrderBook) (sym : string) : option loc * option error :=
  if bool_decide (sym ≠ symbol ob) then (None, Some (ErrInvalidSymbol sym))
  else (best_of (asks ob), None).

(** The two loops of [GetOrderBookSnapshot]: levels without orders are skipped. *)
Fixpoint snapshot_levels (ls : priceLevels) : list OrderBookLevel :=
  match ls with
  | [] => []
  | level :: ls' =>
      if bool_decide (0 < length (orders level))%nat
      then mkOrderBookLevel (price level) (volume level) (length (orders level))
             :: snapshot_levels ls'
      else snapshot_levels ls'
  end.

(** [func (ob *OrderBook) GetOrderBookSnapshot(symbol string)]. *)
Definition GetOrderBookSnapshot (ob : OrderBook) (sym : string)
    : option OrderBookSnapshot * option error :=
  if bool_decide (sym ≠ symbol ob) then (None, Some (ErrInvalidSymbol sym))
  else (Some (mkSnapshot (symbol ob) (snapshot_levels (bids ob))
                         (snapshot_levels (asks ob))), None).

(** ** Package matching *)

Record MatchingEngine : Type := mkEngine {
  orderBooks : gmap string OrderBook
}.

Definition NewMatchingEngine : MatchingEngine := mkEngine ∅.

(** [ob.X = ...] through the book pointer held in the map under [sym]. *)
Definition put_book (sym : string) (ob : OrderBook) (me : MatchingEngine) : MatchingEngine :=
  mkEngine (<[sym := ob]> (orderBooks me)).

(** [func min(a, b float64) float64]. *)
Definition min (a b : Z) : Z := if bool_decide (a < b) then a else b.

(** [func (me *MatchingEngine) updateOrderStatus(order *types.Order)]. *)
Definition updateOrderStatus (p : loc) : M unit :=
  order ← load p;
  if bool_decide (RemainingQty order = 0)
  then update p (with_Status OrderStatusFilled)
  else if bool_decide (FilledQty order > 0)
       then update p (with_Status OrderStatusPartial)
       else mret tt.

(** The [trade] literal of the loop and the branch that fills in the two
    parties. *)
Definition make_trade (order matchingOrder : Order) (tradePrice tradeQty : Z) : Trade :=
  if bool_decide (Side order = BuyOrder)
  then mkTrade (Symbol order) (ID order) (ID matchingOrder) tradePrice tradeQty
               (UserID order) (UserID matchingOrder)
  else mkTrade (Symbol order) (ID matchingOrder) (ID order) tradePrice tradeQty
               (UserID matchingOrder) (UserID order).

(** [order.FilledQty += q; order.RemainingQty -= q].  The two [float64]
    operations are exact here: the sum of the two counters is kept as it is,
    where the source keeps it up to rounding.  The statements below about
    sums of quantities are statements about exact numbers. *)
Definition fill (q : Z) (o : Order) : Order :=
  with_RemainingQty (RemainingQty o - q) (with_FilledQty (FilledQty o + q) o).

(** The query at the head of the loop body: the best ask for a BUY, the best
    bid for every other side. *)
Definition best_opposite (order : Order) (ob : OrderBook) : option loc * option error :=
  if bool_decide (Side order = BuyOrder)
  then GetBestAsk ob (Symbol order)
  else GetBestBid ob (Symbol order).

(** [func (me *MatchingEngine) matchOrder(ob, order) ([]*types.Trade, error)].
    One unit of fuel is one evaluation of the loop condition; [trades] is the
    slice accumulated so far.  The book is returned because [CancelOrder]
    changes it. *)
Fixpoint matchOrder (fuel : nat) (ob : OrderBook) (p : loc) (trades : list Trade)
    : M (OrderBook * list Trade * option error) :=
  match fuel with
  | O => out_of_fuel
  | S n =>
      order ← load p;
      if bool_decide (RemainingQty order > 0) then
        match best_opposite order ob with
        | (_, Some err) => mret (ob, trades, Some err)
        | (None, None) => mret (ob, trades, None)
        | (Some q, None) =>
            matchingOrder ← load q;
            if bool_decide (Type_ order = LimitOrder)
               && bool_decide (Side order = BuyOrder)
               && bool_decide (Price order < Price matchingOrder)
            then mret (ob, trades, None)
            else if bool_decide (Type_ order = LimitOrder)
                    && bool_decide (Side order = SellOrder)
                    && bool_decide (Price order > Price matchingOrder)
            then mret (ob, trades, None)
            else
              let tradeQty := min (RemainingQty order) (RemainingQty matchingOrder) in
              let tradePrice := Price matchingOrder in
              let trade := make_trade order matchingOrder tradePrice tradeQty in
              _ ← update p (fill tradeQty);
              _ ← update q (fill tradeQty);
              _ ← updateOrderStatus p;
              _ ← updateOrderStatus q;
              matchingOrder ← load q;
              if bool_decide (Status matchingOrder = OrderStatusFilled) then
                r ← CancelOrder ob (ID matchingOrder);
                match r with
                | (ob', Some err) => mret (ob', trades, Some err)
                | (ob', None) => matchOrder n ob' p (trades ++ [trade])
                end
              else matchOrder n ob p (trades ++ [trade])
        end
      else mret (ob, trades, None)
  end.

(** [func (me *MatchingEngine) processMarketOrder(ob, order)]; a [nil] slice of
    trades is the empty list. *)
Definition processMarketOrder (fuel : nat) (ob : OrderBook) (p : loc)
    : M (OrderBook * list Trade * option error) :=
  r ← matchOrder fuel ob p [];
  match r with
  | (ob', _, Some err) => mret (ob', [], Some err)
  | (ob', trades, None) =>
      order ← load p;
      if bool_decide (RemainingQty order > 0) then
        _ ← update p (with_Status OrderStatusRejected);
        mret (ob', trades, Some ErrMarketNotFilled)
      else mret (ob', trades, None)
  end.

Section Engine.

Variable Push : priceLevels → priceLevel → priceLevels.

(** [func (me *MatchingEngine) ProcessOrder(order *types.Order)]. *)
Definition ProcessOrder (fuel : nat) (me : MatchingEngine) (p : loc)
    : M (MatchingEngine * list Trade * option error) :=
  order ← load p;
  let sym := Symbol order in
  let '(ob, me) :=
    match orderBooks me !! sym with
    | Some ob => (ob, me)
    | None => (NewOrderBook sym, put_book sym (NewOrderBook sym) me)
    end in
  if bool_decide (Type_ order = MarketOrder) then
    r ← processMarketOrder fuel ob p;
    let '(ob', trades, err) := r in
    mret (put_book sym ob' me, trades, err)
  else
    r ← matchOrder fuel ob p [];
    match r with
    | (ob', _, Some err) => mret (put_book sym ob' me, [], Some err)
    | (ob', trades, None) =>
        order ← load p;
        if bool_decide (RemainingQty order > 0) then
          r ← AddOrder Push ob' p;
          let '(ob'', err) := r in
          mret (put_book sym ob'' me, trades, err)
        else mret (put_book sym ob' me, trades, None)
    end.

End Engine.

(** [func (me *MatchingEngine) CancelOrder(orderID string) error].  The
    [range] over the map visits the books in an order the language leaves
    open; [visit] is that order. *)
Fixpoint MatchingEngine_CancelOrder (visit : list string) (me : MatchingEngine)
    (orderID : string) : M (MatchingEngine * option error) :=
  match visit with
  | [] => mret (me, Some (ErrOrderNotFound orderID))
  | sym :: visit' =>
      match orderBooks me !! sym with
      | None => MatchingEngine_CancelOrder visit' me orderID
      | Some ob =>
          match GetOrder ob orderID with
          | (_, None) =>
              r ← CancelOrder ob orderID;
              let '(ob', err) := r in
              mret (put_book sym ob' me, err)
          | (_, Some _) => MatchingEngine_CancelOrder visit' me orderID
          end
      end
  end.

(** [func (me *MatchingEngine) GetOrderBook(symbol string)]. *)
Definition GetOrderBook (me : MatchingEngine) (sym : string)
    : option OrderBookSnapshot * option error :=
  match orderBooks me !! sym with
  | None => (None, Some (ErrBookNotFound sym))
  | Some ob => GetOrderBookSnapshot ob sym
  end.

(** ** The HTTP handler that feeds the engine *)

Record CreateOrderRequest : Type := mkRequest {
  rUserID : string;
  rSymbol : string;
  rType : OrderType;
  rSide : OrderSide;
  rPrice : Z;
  rQuantity : Z;
  rStopPrice : Z
}.

Inductive response : Type :=
  | StatusBadRequest
  | StatusInternalServerError (err : error)
  | StatusCreated (order : loc) (trades : list Trade).

(** The [binding] tags of [CreateOrderRequest] as [ShouldBindJSON] checks
    them: [required] refuses the zero value, [gt=0] a quantity that is not
    positive. *)
Definition binding_ok (req : CreateOrderRequest) : bool :=
  bool_decide (rUserID req ≠ "") && bool_decide (rSymbol req ≠ "")
  && bool_decide (rType req ≠ "") && bool_decide (rSide req ≠ "")
  && bool_decide (rQuantity req > 0).

(** The [types.Order] literal of [CreateOrder]: the fields it does not name
    keep their zero value. *)
Definition request_order (id : string) (req : CreateOrderRequest) : Order :=
  mkOrder id (rUserID req) (rSymbol req) (rType req) (rSide req) (rPrice req)
          (rQuantity req) 0 0 "" (rStopPrice req).

(** [&types.Order{...}]: the new object is placed at [p]. *)
Definition alloc (p : loc) (o : Order) : M unit := λ m, Ok (tt, <[p := o]> m).

Section Handler.

Variable Push : priceLevels → priceLevel → priceLevels.

(** [func (h *Handler) CreateOrder(c *gin.Context)]; [id] is the uuid drawn
    for the order and [p] the address of the new object. *)
Definition CreateOrder (fuel : nat) (me : MatchingEngine) (req : CreateOrderRequest)
    (id : string) (p : loc) : M (MatchingEngine * response) :=
  if negb (binding_ok req) then mret (me, StatusBadRequest)
  else if bool_decide (rType req = LimitOrder) && bool_decide (rPrice req ≤ 0)
  then mret (me, StatusBadRequest)
  else if bool_decide (rType req = StopOrder) && bool_decide (rStopPrice req ≤ 0)
  then mret (me, StatusBadRequest)
  else
    _ ← alloc p (request_order id req);
    r ← ProcessOrder Push fuel me p;
    match r with
    | (me', _, Some err) => mret (me', StatusInternalServerError err)
    | (me', trades, None) => mret (me', StatusCreated p trades)
    end.

End Handler.

(** ** Sequences of calls *)

Inductive request : Type :=
  | Submit (p : loc)                                         (* ProcessOrder(p) *)
  | Post (req : CreateOrderRequest) (id : string) (p : loc)  (* POST /api/v1/orders *)
  | Cancel (visit : list string) (orderID : string).         (* CancelOrder(orderID) *)

Inductive reply : Type :=
  | Trades (trades : list Trade) (err : option error)
  | Http (r : response)
  | Cancelled (err : option error).

Fixpoint run (Push : priceLevels → priceLevel → priceLevels) (fuel : nat)
    (rs : list request) (me : MatchingEngine) : M (MatchingEngine * list reply) :=
  match rs with
  | [] => mret (me, [])
  | r :: rs' =>
      x ← match r with
          | Submit p =>
              y ← ProcessOrder Push fuel me p;
              let '(me', trades, err) := y in mret (me', Trades trades err)
          | Post req id p =>
              y ← CreateOrder Push fuel me req id p;
              let '(me', resp) := y in mret (me', Http resp)
          | Cancel visit orderID =>
              y ← MatchingEngine_CancelOrder visit me orderID;
              let '(me', err) := y in mret (me', Cancelled err)
          end;
      let '(me', a) := x in
      z ← run Push fuel rs' me';
      let '(me'', out) := z in
      mret (me'', a :: out)
  end.

(** ** Observations and predicates of the statements *)

(** What the caller sees of an order object: filled, remaining, status. *)
Definition order_state (m : Mem) (p : loc) : option (Z * Z * OrderStatus) :=
  (λ o, (FilledQty o, RemainingQty o, Status o)) <$> m !! p.

(** The book of a symbol. *)
Definition book_of (me : MatchingEngine) (sym : string) : option OrderBook :=
  orderBooks me !! sym.

(** The order pointers held by the levels of a book. *)
Definition resting (ob : OrderBook) : list loc :=
  flat_map orders (bids ob ++ asks ob).

(** Sum of the remaining quantities of the orders of a level; [None] when a
    pointer of the level is not allocated. *)
Fixpoint sum_remaining (m : Mem) (os : list loc) : option Z :=
  match os with
  | [] => Some 0
  | q :: os' =>
      match m !! q, sum_remaining m os' with
      | Some o, Some s => Some (RemainingQty o + s)
      | _, _ => None
      end
  end.

(** Invariant I2 for one level. *)
Definition level_consistent (m : Mem) (l : priceLevel) : Prop :=
  sum_remaining m (orders l) = Some (volume l).

(** A side that offers no order: no level, or a first level without orders. *)
Definition no_order (ls : priceLevels) : Prop :=
  ls = [] ∨ ∃ l ls', ls = l :: ls' ∧ orders l = [].

(** The side [matchOrder] queries for an incoming order. *)
Definition opposite_levels (order : Order) (ob : OrderBook) : priceLevels :=
  if bool_decide (Side order = BuyOrder) then asks ob else bids ob.

(** The two [break]s of the price check, as a condition on taker and maker. *)
Definition price_stops (order maker : Order) : Prop :=
  Type_ order = LimitOrder
  ∧ ((Side order = BuyOrder ∧ Price order < Price maker)
     ∨ (Side order = SellOrder ∧ Price order > Price maker)).

(** The order object as the initialisation block of [AddOrder] leaves it. *)
Definition reinitialised (o : Order) : Order :=
  with_FilledQty 0 (with_RemainingQty (Quantity o) (with_Status OrderStatusNew o)).

(** A book without price levels, and an engine all of whose books are so. *)
Definition no_levels (ob : OrderBook) : Prop := bids ob = [] ∧ asks ob = [].

Definition level_free (me : MatchingEngine) : Prop :=
  ∀ sym ob, orderBooks me !! sym = Some ob → no_levels ob.

(** A reply that carries no trade. *)
Definition without_trade (r : reply) : Prop :=
  match r with
  | Trades ts _ => ts = []
  | Http (StatusCreated _ ts) => ts = []
  | _ => True
  end.

(** The engine after the get-or-create step of [ProcessOrder]. *)
Definition ensure_book (sym : string) (me : MatchingEngine) : MatchingEngine :=
  match orderBooks me !! sym with
  | Some _ => me
  | None => put_book sym (NewOrderBook sym) me
  end.

(** ** Data of the scenarios *)

(** An order object as a caller of [ProcessOrder] hands it over when it has
    initialised the counters itself: nothing filled, everything remaining. *)
Definition limit (id : string) (side : OrderSide) (qty pr : Z) : Order :=
  mkOrder id "u" "X" LimitOrder side pr qty 0 qty OrderStatusNew 0.

Definition market (id : string) (side : OrderSide) (qty : Z) : Order :=
  mkOrder id "u" "X" MarketOrder side 0 qty 0 qty OrderStatusNew 0.


(** The same submissions as request bodies of the handler. *)
Definition limit_req (side : OrderSide) (qty pr : Z) : CreateOrderRequest :=
  mkRequest "u" "X" LimitOrder side pr qty 0.

Definition market_req (side : OrderSide) (qty : Z) : CreateOrderRequest :=
  mkRequest "u" "X" MarketOrder side 0 qty 0.

(** Addresses of the order objects. *)
Definition p1 : loc := 1%nat.
Definition p2 : loc := 2%nat.
Definition p3 : loc := 3%nat.

(** S1: BUY LIMIT 100 @ 10, then SELL LIMIT 60 @ 10. *)
Definition S1_store : Mem :=
  {[ p1 := limit "b" BuyOrder 100 10; p2 := limit "s" SellOrder 60 10 ]}.

Definition S1_trade : Trade := mkTrade "X" "b" "s" 10 60 "u" "u".

(** The book and the engine once the buy of S1 rests in a bid level, as a
    [Push] that stores the level leaves them. *)
Definition S1_book : OrderBook :=
  mkBook "X" [mkLevel 10 [p1] 100] [] {[ "b" := p1 ]}.

Definition S1_engine : MatchingEngine := mkEngine {[ "X" := S1_book ]}.

(** S1 with the sides exchanged: SELL LIMIT 60 @ 10 rests, BUY LIMIT 100 @ 10
    is the taker and keeps a residual. *)
Definition S1r_store : Mem :=
  {[ p1 := limit "s" SellOrder 60 10; p2 := limit "b" BuyOrder 100 10 ]}.

(** S2: SELL LIMIT 50 @ 11, SELL LIMIT 50 @ 12, BUY LIMIT 80 @ 12. *)
Definition S2_store : Mem :=
  {[ p1 := limit "A" SellOrder 50 11; p2 := limit "B" SellOrder 50 12;
     p3 := limit "C" BuyOrder 80 12 ]}.

(** S3: SELL LIMIT 10 @ 5, BUY MARKET 25. *)
Definition S3_store : Mem :=
  {[ p1 := limit "s" SellOrder 10 5; p2 := market "b" BuyOrder 25 ]}.

(** S3 with a second ask: SELL LIMIT 10 @ 5, SELL LIMIT 10 @ 6, BUY MARKET 25. *)
Definition S3_two_asks_store : Mem :=
  {[ p1 := limit "s" SellOrder 10 5; p2 := limit "t" SellOrder 10 6;
     p3 := market "b" BuyOrder 25 ]}.

(** S4: SELL LIMIT 10 @ 7 twice (A, then B), BUY LIMIT 10 @ 7. *)
Definition S4_store : Mem :=
  {[ p1 := limit "A" SellOrder 10 7; p2 := limit "B" SellOrder 10 7;
     p3 := limit "C" BuyOrder 10 7 ]}.

(** The book of S4 once A rests in its ask level. *)
Definition S4_book_A : OrderBook :=
  mkBook "X" [] [mkLevel 7 [p1] 10] {[ "A" := p1 ]}.

(** One BUY LIMIT 100 @ 10, to be cancelled. *)
Definition cancel_store : Mem := {[ p1 := limit "b" BuyOrder 100 10 ]}.

(** The buy of S1 as [matchOrder] leaves an order after a fill of 60. *)
Definition partly_filled_store : Mem :=
  {[ p1 := with_Status OrderStatusPartial (fill 60 (limit "b" BuyOrder 100 10)) ]}.

(** The book of S1 with its buy resting, and a second buy object that reuses
    the id "b". *)
Definition duplicate_store : Mem :=
  {[ p1 := limit "b" BuyOrder 100 10; p2 := limit "b" BuyOrder 5 9 ]}.

(** A book whose best ask level was emptied while a worse level still holds
    an order (the asks of S2 after its first sell is gone). *)
Definition emptied_book : OrderBook :=
  mkBook "X" [] [mkLevel 11 [] 50; mkLevel 12 [p2] 50] {[ "A" := p1; "B" := p2 ]}.






(** The book and the engine as the code as written leaves them once the buy
    "b" of S1 was submitted: the order is in the id map and there is no
    level. *)
Definition registered_book : OrderBook := mkBook "X" [] [] {[ "b" := p1 ]}.

Definition registered_engine : MatchingEngine := mkEngine {[ "X" := registered_book ]}.

(** Second objects that reuse the id "b": a MARKET buy, and a LIMIT buy with
    nothing remaining. *)
Definition duplicate_market_store : Mem :=
  {[ p1 := limit "b" BuyOrder 100 10; p2 := market "b" BuyOrder 5 ]}.

Definition duplicate_spent_store : Mem :=
  {[ p1 := limit "b" BuyOrder 100 10;
     p2 := with_RemainingQty 0 (limit "b" BuyOrder 5 9) ]}.




(** ** Package orderbook: the queries over the id map *)

(** The loop of [GetOrdersByUser].  The [range] over [ob.orders] yields the
    keys in an order the language leaves open; [visit] is that order.  Each
    order met is dereferenced for its [UserID]. *)
Fixpoint orders_of_user (idmap : gmap string loc) (userID : string)
    (visit : list string) : M (list loc) :=
  match visit with
  | [] => mret []
  | k :: visit' =>
      match idmap !! k with
      | None => orders_of_user idmap userID visit'
      | Some q =>
          order ← load q;
          rest ← orders_of_user idmap userID visit';
          mret (if bool_decide (UserID order = userID) then q :: rest else rest)
      end
  end.

(** [func (ob *OrderBook) GetOrdersByUser(userID string)]. *)
Definition GetOrdersByUser (visit : list string) (ob : OrderBook) (userID : string)
    : M (list loc * option error) :=
  os ← orders_of_user (ob_orders ob) userID visit;
  mret (os, None).

(** [func (ob *OrderBook) GetOrdersBySymbol(symbol string)]. *)
Definition GetOrdersBySymbol (visit : list string) (ob : OrderBook) (sym : string)
    : option (list loc) * option error :=
  if bool_decide (sym ≠ symbol ob) then (None, Some (ErrInvalidSymbol sym))
  else (Some (omap (λ k, ob_orders ob !! k) visit), None).

(** ** The other methods of the HTTP handler *)

Inductive cancel_response : Type :=
  | CancelBadRequest
  | CancelInternalServerError (err : error)
  | CancelOK.

(** [func (h *Handler) CancelOrder(c *gin.Context)]; [orderID] is the path
    parameter. *)
Definition Handler_CancelOrder (visit : list string) (me : MatchingEngine)
    (orderID : string) : M (MatchingEngine * cancel_response) :=
  if bool_decide (orderID = "") then mret (me, CancelBadRequest)
  else
    r ← MatchingEngine_CancelOrder visit me orderID;
    match r with
    | (me', Some err) => mret (me', CancelInternalServerError err)
    | (me', None) => mret (me', CancelOK)
    end.

(** The answers of the two book endpoints: 400, 500 with the error, 200 with
    the snapshot pointer as body ([None] is the nil pointer), 200 with the
    symbol of the path and the two lists of levels, and the crash of a nil
    dereference. *)
Inductive book_response : Type :=
  | BookBadRequest
  | BookInternalServerError (err : error)
  | BookOK (snapshot : option OrderBookSnapshot)
  | BookDepth (sym : string) (bids asks : list OrderBookLevel)
  | BookCrash.

(** [func (h *Handler) GetOrderBook(c *gin.Context)]: the snapshot is the
    body of the answer. *)
Definition Handler_GetOrderBook (me : MatchingEngine) (sym : string) : book_response :=
  if bool_decide (sym = "") then BookBadRequest
  else match GetOrderBook me sym with
       | (_, Some err) => BookInternalServerError err
       | (snapshot, None) => BookOK snapshot
       end.

Definition depthLevels : nat := 10.

(** [bids = bids[:depthLevels]] under [len(bids) > depthLevels]. *)
Definition top_levels (ls : list OrderBookLevel) : list OrderBookLevel :=
  if bool_decide (depthLevels < length ls)%nat then take depthLevels ls else ls.

(** [func (h *Handler) GetOrderBookDepth(c *gin.Context)]: the answer names
    the symbol of the path; [snapshot.Bids] on a nil snapshot is the crash. *)
Definition Handler_GetOrderBookDepth (me : MatchingEngine) (sym : string) : book_response :=
  if bool_decide (sym = "") then BookBadRequest
  else match GetOrderBook me sym with
       | (_, Some err) => BookInternalServerError err
       | (Some snapshot, None) =>
           BookDepth sym (top_levels (Bids snapshot)) (top_levels (Asks snapshot))
       | (None, None) => BookCrash
       end.

(** ** Package auth: roles *)

Record Claims : Type := mkClaims {
  cUserID : string;
  cRole : string
}.

Definition RoleAdmin : string := "admin".
Definition RoleTrader : string := "trader".
Definition RoleAnalyst : string := "analyst".

(** [func (c *Claims) HasRole(role string) bool]. *)
Definition HasRole (c : Claims) (role : string) : bool := bool_decide (cRole c = role).

(** [func (c *Claims) HasAnyRole(roles ...string) bool]. *)
Fixpoint HasAnyRole (c : Claims) (roles : list string) : bool :=
  match roles with
  | [] => false
  | role :: roles' => if bool_decide (cRole c = role) then true else HasAnyRole c roles'
  end.

Definition IsAdmin (c : Claims) : bool := bool_decide (cRole c = RoleAdmin).
Definition IsTrader (c : Claims) : bool := bool_decide (cRole c = RoleTrader).
Definition IsAnalyst (c : Claims) : bool := bool_decide (cRole c = RoleAnalyst).

(** ** Package api: the middleware *)

(** What a key of the gin context can hold, as far as the middleware tells
    values apart: a pointer to claims ([None] is the nil pointer), or a value
    of another type. *)
Inductive ctx_value : Type :=
  | VClaims (c : option Claims)
  | VOther (s : string).

(** The part of [gin.Context] the middleware reads and writes. *)
Record Context : Type := mkContext {
  Authorization : string;
  Keys : gmap string ctx_value
}.

(** What a middleware does with a request: it answers with a status and
    aborts the chain, hands the context to the next handler, or crashes on a
    nil dereference. *)
Inductive outcome : Type :=
  | Abort (status : nat)
  | Next (c : Context)
  | Crash.

Definition StatusUnauthorized : nat := 401.
Definition StatusForbidden : nat := 403.
Definition StatusInternalError : nat := 500.

(** [func isValidToken(token string) bool]. *)
Definition isValidToken (token : string) : bool := bool_decide (token ≠ "").

(** [func AuthMiddleware(logger *zap.Logger) gin.HandlerFunc]. *)
Definition AuthMiddleware (c : Context) : outcome :=
  let token := Authorization c in
  if bool_decide (token = "") then Abort StatusUnauthorized
  else if negb (isValidToken token) then Abort StatusUnauthorized
  else Next (mkContext (Authorization c) (<["user_id" := VOther "test_user"]> (Keys c))).

(** [func RequireRole(role string) gin.HandlerFunc]. *)
Definition RequireRole (role : string) (c : Context) : outcome :=
  match Keys c !! "claims" with
  | None => Abort StatusUnauthorized
  | Some (VOther _) => Abort StatusInternalError
  | Some (VClaims None) => Crash
  | Some (VClaims (Some userClaims)) =>
      if negb (HasRole userClaims role) then Abort StatusForbidden else Next c
  end.

(** [func RequireAnyRole(roles ...string) gin.HandlerFunc]; the loop of
    [HasAnyRole] reads the role of nil claims only when there is a role to
    compare it with. *)
Definition RequireAnyRole (roles : list string) (c : Context) : outcome :=
  match Keys c !! "claims" with
  | None => Abort StatusUnauthorized
  | Some (VOther _) => Abort StatusInternalError
  | Some (VClaims None) =>
      match roles with
      | [] => Abort StatusForbidden
      | _ :: _ => Crash
      end
  | Some (VClaims (Some userClaims)) =>
      if negb (HasAnyRole userClaims roles) then Abort StatusForbidden else Next c
  end.

Definition RequireAdmin : Context → outcome := RequireRole RoleAdmin.
Definition RequireTrader : Context → outcome := RequireRole RoleTrader.
Definition RequireAnalyst : Context → outcome := RequireRole RoleAnalyst.
Definition RequireTraderOrAdmin : Context → outcome :=
  RequireAnyRole [RoleTrader; RoleAdmin].
Definition RequireAnalystOrAdmin : Context → outcome :=
  RequireAnyRole [RoleAnalyst; RoleAdmin].

(** The handlers a route lists, run in order until one aborts. *)
Fixpoint chain (hs : list (Context → outcome)) (c : Context) : outcome :=
  match hs with
  | [] => Next c
  | h :: hs' =>
      match h c with
      | Abort status => Abort status
      | Next c' => chain hs' c'
      | Crash => Crash
      end
  end.

(** ** Package services: the candle of a list of trades *)

Record OHLCV : Type := mkOHLCV {
  OSymbol : string;
  OOpen : Z;
  OHigh : Z;
  OLow : Z;
  OClose : Z;
  OVolume : Z
}.

(** The body of the loop of [CalculateOHLCV]; [math.Max] and [math.Min] on
    exact numbers. *)
Definition ohlcv_step (o : OHLCV) (trade : Trade) : OHLCV :=
  mkOHLCV (OSymbol o) (OOpen o) (Z.max (OHigh o) (TPrice trade))
          (Z.min (OLow o) (TPrice trade)) (OClose o) (OVolume o + TQuantity trade).

(** [func (s *AnalyticsService) CalculateOHLCV(trades []*types.Trade) *OHLCV];
    [None] is the nil pointer. *)
Definition CalculateOHLCV (trades : list Trade) : option OHLCV :=
  match trades with
  | [] => None
  | first :: _ =>
      Some (foldl ohlcv_step
              (mkOHLCV (TSymbol first) (TPrice first) (TPrice first) (TPrice first)
                       (TPrice (List.last trades first)) 0)
              trades)
  end.

(** ** Further observations and predicates *)

(** What no method but [AddOrder] changes of an order object: its identity,
    its terms, and the sum of what is filled and what remains. *)
Definition conserved (o o' : Order) : Prop :=
  ID o' = ID o ∧ UserID o' = UserID o ∧ Symbol o' = Symbol o
  ∧ Type_ o' = Type_ o ∧ Side o' = Side o ∧ Price o' = Price o
  ∧ Quantity o' = Quantity o ∧ StopPrice o' = StopPrice o
  ∧ FilledQty o' + RemainingQty o' = FilledQty o + RemainingQty o.

Definition store_conserved (m m' : Mem) : Prop :=
  ∀ r o, m !! r = Some o → ∃ o', m' !! r = Some o' ∧ conserved o o'.

(** The terms of an order, which no method changes. *)
Definition same_terms (o o' : Order) : Prop :=
  ID o' = ID o ∧ UserID o' = UserID o ∧ Symbol o' = Symbol o
  ∧ Type_ o' = Type_ o ∧ Side o' = Side o ∧ Price o' = Price o
  ∧ Quantity o' = Quantity o ∧ StopPrice o' = StopPrice o.

(** Filled and remaining add up to the quantity. *)
Definition balanced (o : Order) : Prop := FilledQty o + RemainingQty o = Quantity o.

(** Every object of the store is still there, with its terms, and balanced if
    it was. *)
Definition store_kept (m m' : Mem) : Prop :=
  ∀ r o, m !! r = Some o →
         ∃ o', m' !! r = Some o' ∧ same_terms o o' ∧ (balanced o → balanced o').

(** A trade as the taker [order] must see it: on its symbol, with the taker
    on its own side, and, for a LIMIT taker, at a price within its limit. *)
Definition trade_of_taker (order : Order) (t : Trade) : Prop :=
  TSymbol t = Symbol order
  ∧ (Side order = BuyOrder →
     BuyOrderID t = ID order ∧ BuyerUserID t = UserID order
     ∧ (Type_ order = LimitOrder → TPrice t ≤ Price order))
  ∧ (Side order ≠ BuyOrder →
     SellOrderID t = ID order ∧ SellerUserID t = UserID order
     ∧ (Type_ order = LimitOrder → Side order = SellOrder → Price order ≤ TPrice t)).

(** The quantity a list of trades moves. *)
Definition traded (ts : list Trade) : Z := foldr (λ t s, TQuantity t + s) 0 ts.

(** Every book is stored under its own symbol. *)
Definition well_keyed (me : MatchingEngine) : Prop :=
  ∀ sym ob, orderBooks me !! sym = Some ob → symbol ob = sym.

(** The error a reply carries, if any. *)
Definition reply_error (r : reply) : option error :=
  match r with
  | Trades _ err => err
  | Http (StatusInternalServerError err) => Some err
  | Http _ => None
  | Cancelled err => err
  end.

(** [visit] yields every key of the map once, as a [range] does. *)
Definition ranges_over {A} (visit : list string) (mp : gmap string A) : Prop :=
  NoDup visit ∧ ∀ k, k ∈ visit ↔ is_Some (mp !! k).

(** Invariant I2 for every level of a book. *)
Definition book_consistent (m : Mem) (ob : OrderBook) : Prop :=
  ∀ l, l ∈ bids ob ++ asks ob → level_consistent m l.

(** Every order a level holds is the order the id map holds under its id. *)
Definition registered (m : Mem) (ob : OrderBook) : Prop :=
  ∀ l r o, l ∈ bids ob ++ asks ob → r ∈ orders l → m !! r = Some o →
           ob_orders ob !! ID o = Some r.

(** The number of orders a snapshot side reports. *)
Definition reported_orders (ls : list OrderBookLevel) : nat :=
  foldr (λ l n, (LOrders l + n)%nat) 0%nat ls.

(** The four writes of one turn of the matching loop, on taker [p] and maker
    [q]. *)
Definition settle (p q : loc) (tradeQty : Z) : M unit :=
  _ ← update p (fill tradeQty);
  _ ← update q (fill tradeQty);
  _ ← updateOrderStatus p;
  updateOrderStatus q.

(** The book [ProcessOrder] works on: the one of the symbol, or a new one. *)
Definition book_for (sym : string) (me : MatchingEngine) : OrderBook :=
  default (NewOrderBook sym) (orderBooks me !! sym).

(** The errors [CancelOrder] of a book can return. *)
Definition cancel_error (err : error) : Prop :=
  ∃ id, err = ErrOrderNotFound id ∨ err = ErrAlreadyCancelled id.

(** An error that blames the symbol. *)
Definition symbol_error (err : error) : Prop :=
  ∃ s, err = ErrInvalidSymbol s ∨ err = ErrBookNotFound s.

(** Every object of the store is still there with its two counters. *)
Definition quantities_kept (m m' : Mem) : Prop :=
  ∀ r o, m !! r = Some o →
         ∃ o', m' !! r = Some o' ∧ FilledQty o' = FilledQty o
               ∧ RemainingQty o' = RemainingQty o.

(** A side after orders were taken out of it: the same levels at the same
    places and prices, each holding a part of its orders, in their order. *)
Definition levels_shrunk (ls ls' : priceLevels) : Prop :=
  Forall2 (λ l l', price l' = price l ∧ sublist (orders l') (orders l)) ls ls'.

Definition book_shrunk (ob ob' : OrderBook) : Prop :=
  levels_shrunk (bids ob) (bids ob') ∧ levels_shrunk (asks ob) (asks ob').

(** ** Data of the further properties *)

(** A book holding the sell of S3, one ask of 10 at price 5, and its engine. *)
Definition ask5_book : OrderBook :=
  mkBook "X" [] [mkLevel 5 [p1] 10] {[ "s" := p1 ]}.

Definition ask5_engine : MatchingEngine := mkEngine {[ "X" := ask5_book ]}.


(** What a [Push] may do to the slice: every level of the result is the
    pushed level or a level of the slice. *)
Definition Push_sound (Push : priceLevels → priceLevel → priceLevels) : Prop :=
  ∀ pl x l, l ∈ Push pl x → l = x ∨ l ∈ pl.

(** The status [updateOrderStatus] leaves an order with. *)
Definition settled (o : Order) : Order :=
  if bool_decide (RemainingQty o = 0) then with_Status OrderStatusFilled o
  else if bool_decide (FilledQty o > 0) then with_Status OrderStatusPartial o
  else o.

(** A side whose levels have distinct prices and hold allocated orders of
    that side at the price of their level. *)
Definition placed (m : Mem) (buy : bool) (ls : priceLevels) : Prop :=
  NoDup (price <$> ls)
  ∧ ∀ l r, l ∈ ls → r ∈ orders l →
           ∃ o, m !! r = Some o ∧ is_buy o = buy ∧ Price o = price l.

(** A book as admissions build it: every resting order is registered, and
    rests on its side in the one level of its price. *)
Definition book_wf (m : Mem) (ob : OrderBook) : Prop :=
  registered m ob ∧ placed m true (bids ob) ∧ placed m false (asks ob).

(** A trade made with the maker [mk] for a taker of side [side]: at the
    price of the maker, and with the maker as the other party. *)
Definition trade_with_maker (side : OrderSide) (mk : Order) (t : Trade) : Prop :=
  TPrice t = Price mk
  ∧ (side = BuyOrder → SellOrderID t = ID mk ∧ SellerUserID t = UserID mk)
  ∧ (side ≠ BuyOrder → BuyOrderID t = ID mk ∧ BuyerUserID t = UserID mk).

(** The orders of the first level of a side. *)
Definition first_level_orders (ls : priceLevels) : list loc :=
  match ls with
  | [] => []
  | l :: _ => orders l
  end.

(** Every order an id map of the engine holds is allocated. *)
Definition ids_allocated (me : MatchingEngine) (m : Mem) : Prop :=
  ∀ sym ob id q, orderBooks me !! sym = Some ob → ob_orders ob !! id = Some q →
                 is_Some (m !! q).

(** No object of the store is lost. *)
Definition store_grows (m m' : Mem) : Prop :=
  ∀ r, is_Some (m !! r) → is_Some (m' !! r).

(** The orders a sequence of requests submits by pointer. *)
Definition submitted (rs : list request) : list loc :=
  flat_map (λ r, match r with Submit p => [p] | _ => [] end) rs.

(** ** Tactics *)

(** Evaluation of a run on concrete data: the goals are closed one after the
    other, each fixing the states the next ones mention. *)
Ltac evaluate :=
  repeat match goal with
         | |- ∃ _, _ => eexists
         | |- _ ∧ _ => split
         end;
  [> (vm_compute; reflexivity) ..].

(** * Properties *)

(** ** The monad *)

Lemma bind_ok {A B} (c : M A) (k : A → M B) (m m1 : Mem) (a : A) :
  c m = Ok (a, m1) → (c ≫= k) m = k a m1.
Proof. intros H. unfold mbind, M_bind. rewrite H. reflexivity. Qed.

Lemma bind_inv {A B} (c : M A) (k : A → M B) (m : Mem) (r : B * Mem) :
  (c ≫= k) m = Ok r → ∃ a m1, c m = Ok (a, m1) ∧ k a m1 = Ok r.
Proof.
  unfold mbind, M_bind. destruct (c m) as [[a m1]| |]; try discriminate.
  intros H. exists a, m1. split; [reflexivity | exact H].
Qed.

Lemma mret_inv {A} (a : A) (m : Mem) (r : A * Mem) :
  @mret M _ A a m = Ok r → r = (a, m).
Proof. unfold mret, M_ret. intros H. injection H as <-. reflexivity. Qed.

Lemma load_ok (p : loc) (m : Mem) (o : Order) :
  m !! p = Some o → load p m = Ok (o, m).
Proof. intros H. unfold load. rewrite H. reflexivity. Qed.

Lemma load_inv (p : loc) (m m1 : Mem) (o : Order) :
  load p m = Ok (o, m1) → m !! p = Some o ∧ m1 = m.
Proof.
  unfold load. destruct (m !! p) as [o'|]; [|discriminate].
  intros H. injection H as -> ->. split; reflexivity.
Qed.

Lemma update_ok (p : loc) (f : Order → Order) (m : Mem) (o : Order) :
  m !! p = Some o → update p f m = Ok (tt, <[p := f o]> m).
Proof. intros H. unfold update. rewrite H. reflexivity. Qed.

Lemma update_inv (p : loc) (f : Order → Order) (m m1 : Mem) (u : unit) :
  update p f m = Ok (u, m1) → ∃ o, m !! p = Some o ∧ m1 = <[p := f o]> m.
Proof.
  unfold update. destruct (m !! p) as [o|]; [|discriminate].
  intros H. injection H as _ <-. exists o. split; reflexivity.
Qed.

(** One step of inversion on a run that is known to return. *)
Ltac step H :=
  lazymatch type of H with
  | (_ ≫= _) _ = Ok _ =>
      let a := fresh "a" in let m := fresh "m" in let E := fresh "E" in
      apply bind_inv in H as (a & m & E & H)
  | (if ?b then _ else _) _ = Ok _ => destruct b eqn:?
  | (match ?x with _ => _ end) _ = Ok _ => destruct x eqn:?
  | mret _ _ = Ok _ => apply mret_inv in H
  | out_of_fuel _ = Ok _ => discriminate H
  end.

(** ** The best order of a side and the end of the loop *)

Lemma best_of_None (ls : priceLevels) : best_of ls = None ↔ no_order ls.
Proof.
  unfold no_order. destruct ls as [|l ls]; simpl.
  - split; [intros _; left; reflexivity | reflexivity].
  - destruct (orders l) as [|o os] eqn:E.
    + split; [intros _; right; exists l, ls; split; [reflexivity | exact E] | reflexivity].
    + split; [discriminate|].
      intros [H | (l' & ls' & H & H')]; [discriminate|].
      injection H as <- <-. rewrite E in H'. discriminate.
Qed.

Lemma best_opposite_None (order : Order) (ob : OrderBook) :
  Symbol order = symbol ob → no_order (opposite_levels order ob) →
  best_opposite order ob = (None, None).
Proof.
  intros Hs Hn. unfold best_opposite, opposite_levels, GetBestAsk, GetBestBid in *.
  rewrite (bool_decide_eq_false_2 (Symbol order ≠ symbol ob)) by (intros H; exact (H Hs)).
  destruct (bool_decide (Side order = BuyOrder));
    apply best_of_None in Hn; rewrite Hn; reflexivity.
Qed.

(** One evaluation of the loop condition and the query that follows it. *)
Lemma matchOrder_no_counterparty (fuel : nat) (ob : OrderBook) (p : loc)
    (trades : list Trade) (m : Mem) (order : Order) :
  m !! p = Some order → best_opposite order ob = (None, None) →
  matchOrder (S fuel) ob p trades m = Ok (ob, trades, None, m).
Proof.
  intros Hp Hb. cbn [matchOrder].
  rewrite (bind_ok _ _ _ _ _ (load_ok _ _ _ Hp)).
  destruct (bool_decide (RemainingQty order > 0)); [|reflexivity].
  rewrite Hb. reflexivity.
Qed.

Lemma GetBestBid_error (ob : OrderBook) (s : string) :
  snd (GetBestBid ob s) ≠ None ↔ s ≠ symbol ob.
Proof.
  unfold GetBestBid. case_bool_decide as E; simpl.
  - split; [intros _; exact E | discriminate].
  - split; [congruence | intros E'; destruct (E' E)].
Qed.

Lemma GetBestAsk_error (ob : OrderBook) (s : string) :
  snd (GetBestAsk ob s) ≠ None ↔ s ≠ symbol ob.
Proof.
  unfold GetBestAsk. case_bool_decide as E; simpl.
  - split; [intros _; exact E | discriminate].
  - split; [congruence | intros E'; destruct (E' E)].
Qed.

(** C10.  For the book's own symbol, [GetBestBid] and [GetBestAsk] return no
    order and no error exactly when the side offers none (no level, or a first
    level without orders); they return an error exactly when the symbol is not
    the book's; and [matchOrder], given that answer for the side it queries,
    returns at once with the trades gathered so far, no error, and the book
    and the store untouched. *)
Theorem no_counterparty (ob : OrderBook) (sym : string) (Hsym : sym = symbol ob) :
  (GetBestBid ob sym = (None, None) ↔ no_order (bids ob))
  ∧ (GetBestAsk ob sym = (None, None) ↔ no_order (asks ob))
  ∧ (∀ s, snd (GetBestBid ob s) ≠ None ↔ s ≠ symbol ob)
  ∧ (∀ s, snd (GetBestAsk ob s) ≠ None ↔ s ≠ symbol ob)
  ∧ (∀ fuel p trades m order,
       m !! p = Some order → Symbol order = sym →
       no_order (opposite_levels order ob) →
       matchOrder (S fuel) ob p trades m = Ok (ob, trades, None, m)).
Proof.
  assert (Hb : bool_decide (sym ≠ symbol ob) = false)
    by (apply bool_decide_eq_false_2; intros H; exact (H Hsym)).
  split; [|split; [|split; [|split]]].
  - unfold GetBestBid. rewrite Hb. rewrite <- best_of_None.
    split; intros H; congruence.
  - unfold GetBestAsk. rewrite Hb. rewrite <- best_of_None.
    split; intros H; congruence.
  - apply GetBestBid_error.
  - apply GetBestAsk_error.
  - intros fuel p trades m order Hp Hs Hn.
    apply (matchOrder_no_counterparty fuel ob p trades m order Hp).
    apply best_opposite_None; [congruence | exact Hn].
Qed.

Lemma no_counterparty_witness :
  GetBestAsk emptied_book "X" = (None, None)
  ∧ GetBestBid emptied_book "X" = (None, None)
  ∧ snd (GetBestAsk emptied_book "Y") ≠ None
  ∧ matchOrder 1 emptied_book p3 [] S2_store = Ok (emptied_book, [], None, S2_store).
Proof.
  destruct (no_counterparty emptied_book "X" eq_refl) as (Hbid & Hask & _ & Herr & Hloop).
  split; [|split; [|split]].
  - apply Hask. right. exists (mkLevel 11 [] 50), [mkLevel 12 [p2] 50].
    split; reflexivity.
  - apply Hbid. left. reflexivity.
  - apply Herr. discriminate.
  - apply (Hloop 0%nat p3 [] S2_store (limit "C" BuyOrder 80 12)).
    + reflexivity.
    + reflexivity.
    + right. exists (mkLevel 11 [] 50), [mkLevel 12 [p2] 50]. split; reflexivity.
Defined.

(** ** Validation *)

Lemma put_book_same (sym : string) (ob : OrderBook) (me : MatchingEngine) :
  orderBooks me !! sym = Some ob → put_book sym ob me = me.
Proof.
  intros H. destruct me as [books]. unfold put_book. simpl in *.
  f_equal. apply insert_id. exact H.
Qed.

Lemma AddOrder_duplicate (Push : priceLevels → priceLevel → priceLevels)
    (ob : OrderBook) (p : loc) (m : Mem) (order : Order) :
  m !! p = Some order → is_Some (ob_orders ob !! ID order) →
  AddOrder Push ob p m = Ok (ob, Some (ErrOrderExists (ID order)), m).
Proof.
  intros Hp [q Hq]. unfold AddOrder.
  rewrite (bind_ok _ _ _ _ _ (load_ok _ _ _ Hp)). rewrite Hq. reflexivity.
Qed.

Lemma CreateOrder_rejects (Push : priceLevels → priceLevel → priceLevels)
    (fuel : nat) (me : MatchingEngine) (req : CreateOrderRequest)
    (id : string) (p : loc) (m : Mem) :
  rQuantity req ≤ 0 ∨ (rType req = LimitOrder ∧ rPrice req ≤ 0) →
  CreateOrder Push fuel me req id p m = Ok (me, StatusBadRequest, m).
Proof.
  intros H. unfold CreateOrder.
  destruct (binding_ok req) eqn:Hb; simpl; [|reflexivity].
  destruct H as [Hq | [Ht Hp]].
  - unfold binding_ok in Hb.
    rewrite (bool_decide_eq_false_2 (rQuantity req > 0)) in Hb by lia.
    rewrite andb_false_r in Hb. discriminate.
  - rewrite (bool_decide_eq_true_2 _ Ht), (bool_decide_eq_true_2 _ Hp).
    reflexivity.
Qed.

(** C6 does not hold as stated: [ProcessOrder] checks neither the quantity
    nor the price.  A LIMIT buy of 10 at price -1 on an empty engine is
    accepted without error and entered in the id map of its book. *)
Lemma nonpositive_price_is_accepted :
  ∃ me m ob,
    ProcessOrder priceLevels_Push 8 NewMatchingEngine p1
                 {[ p1 := limit "b" BuyOrder 10 (-1) ]}
      = Ok (me, [], None, m)
    ∧ book_of me "X" = Some ob
    ∧ ob_orders ob !! "b" = Some p1
    ∧ order_state m p1 = Some (0, 10, OrderStatusNew).
Proof. evaluate. Qed.

(** The duplicate check comes after matching.  On a book that holds a level
    (built here by a [Push] that stores it; the source builds none), a buy
    that reuses the id of the resting sell trades with it, and only then is
    refused: the trade is returned together with the error and the maker's
    counters have changed. *)
Lemma duplicate_id_trades_before_refusal :
  ∃ me m,
    run priceLevels_Push_ptr 8 [Submit p1; Submit p2] NewMatchingEngine
        {[ p1 := limit "s" SellOrder 60 10; p2 := limit "s" BuyOrder 100 10 ]}
      = Ok (me, [Trades [] None;
                 Trades [mkTrade "X" "s" "s" 10 60 "u" "u"] (Some (ErrOrderExists "s"))], m)
    ∧ order_state m p1 = Some (60, 0, OrderStatusCancelled)
    ∧ order_state m p2 = Some (60, 40, OrderStatusPartial).
Proof. evaluate. Qed.

(** ** The price condition of the matching loop *)




Lemma updateOrderStatus_filled (p : loc) (m : Mem) (o : Order) :
  m !! p = Some o → RemainingQty o = 0 →
  updateOrderStatus p m = Ok (tt, <[p := with_Status OrderStatusFilled o]> m).
Proof.
  intros Hp Hr. unfold updateOrderStatus.
  rewrite (bind_ok _ _ _ _ _ (load_ok _ _ _ Hp)).
  rewrite (bool_decide_eq_true_2 _ Hr). apply update_ok. exact Hp.
Qed.

Lemma updateOrderStatus_partial (p : loc) (m : Mem) (o : Order) :
  m !! p = Some o → RemainingQty o ≠ 0 → FilledQty o > 0 →
  updateOrderStatus p m = Ok (tt, <[p := with_Status OrderStatusPartial o]> m).
Proof.
  intros Hp Hr Hf. unfold updateOrderStatus.
  rewrite (bind_ok _ _ _ _ _ (load_ok _ _ _ Hp)).
  rewrite (bool_decide_eq_false_2 _ Hr), (bool_decide_eq_true_2 _ Hf).
  apply update_ok. exact Hp.
Qed.

(** A taker smaller than the maker: one trade, and the loop ends at the next
    evaluation of its condition. *)
Lemma matchOrder_partial_fill (fuel : nat) (ob : OrderBook) (p q : loc)
    (trades : list Trade) (m : Mem) (order maker : Order) :
  m !! p = Some order → m !! q = Some maker → p ≠ q →
  best_opposite order ob = (Some q, None) → ¬ price_stops order maker →
  0 < RemainingQty order < RemainingQty maker → 0 ≤ FilledQty maker →
  ∃ m',
    matchOrder (S (S fuel)) ob p trades m
    = Ok (ob, trades ++ [make_trade order maker (Price maker) (RemainingQty order)],
          None, m')
    ∧ RemainingQty <$> m' !! q = Some (RemainingQty maker - RemainingQty order)
    ∧ order_state m' p
      = Some (FilledQty order + RemainingQty order, 0, OrderStatusFilled).
Proof.
  intros Hp Hq Hpq Hb Hn [Hr0 Hr] Hf.
  set (t := RemainingQty order) in *.
  set (o1 := with_Status OrderStatusFilled (fill t order)).
  set (k1 := with_Status OrderStatusPartial (fill t maker)).
  exists (<[q := k1]> (<[p := o1]> (<[q := fill t maker]> (<[p := fill t order]> m)))).
  assert (E1 : bool_decide (Type_ order = LimitOrder)
               && bool_decide (Side order = BuyOrder)
               && bool_decide (Price order < Price maker) = false).
  { apply not_true_is_false. intros E.
    apply andb_prop in E as [E E3]. apply andb_prop in E as [E1 E2].
    apply bool_decide_eq_true_1 in E1, E2, E3.
    apply Hn. split; [exact E1 | left; split; assumption]. }
  assert (E2 : bool_decide (Type_ order = LimitOrder)
               && bool_decide (Side order = SellOrder)
               && bool_decide (Price order > Price maker) = false).
  { apply not_true_is_false. intros E.
    apply andb_prop in E as [E E5]. apply andb_prop in E as [E3 E4].
    apply bool_decide_eq_true_1 in E3, E4, E5.
    apply Hn. split; [exact E3 | right; split; assumption]. }
  assert (Hmin : min (RemainingQty order) (RemainingQty maker) = t).
  { unfold min. rewrite bool_decide_eq_true_2 by (unfold t; lia). reflexivity. }
  split; [|split].
  - cbn [matchOrder].
    rewrite (bind_ok _ _ _ _ _ (load_ok _ _ _ Hp)).
    rewrite (bool_decide_eq_true_2 (RemainingQty order > 0)) by (unfold t in Hr0; lia).
    rewrite Hb.
    rewrite (bind_ok _ _ _ _ _ (load_ok _ _ _ Hq)).
    rewrite E1, E2, Hmin.
    rewrite (bind_ok _ _ _ _ _ (update_ok p (fill t) m order Hp)).
    rewrite (bind_ok _ _ _ _ _ (update_ok q (fill t) _ maker
               ltac:(rewrite lookup_insert_ne by exact Hpq; exact Hq))).
    rewrite (bind_ok _ _ _ _ _ (updateOrderStatus_filled p _ (fill t order)
               ltac:(rewrite lookup_insert_ne by (intros E; exact (Hpq (eq_sym E)));
                     apply lookup_insert_eq)
               ltac:(simpl; unfold t; lia))).
    rewrite (bind_ok _ _ _ _ _ (updateOrderStatus_partial q _ (fill t maker)
               ltac:(rewrite lookup_insert_ne by exact Hpq; apply lookup_insert_eq)
               ltac:(simpl; unfold t in *; lia)
               ltac:(simpl; unfold t in *; lia))).
    fold o1. fold k1.
    rewrite (bind_ok _ _ _ _ _ (load_ok q _ k1 ltac:(apply lookup_insert_eq))).
    rewrite bool_decide_eq_false_2 by (simpl; discriminate).
    rewrite (bind_ok _ _ _ _ _ (load_ok p _ o1
               ltac:(rewrite lookup_insert_ne by (intros E; exact (Hpq (eq_sym E)));
                     apply lookup_insert_eq))).
    rewrite bool_decide_eq_false_2 by (simpl; unfold t; lia).
    reflexivity.
  - rewrite lookup_insert_eq. simpl. reflexivity.
  - unfold order_state.
    rewrite lookup_insert_ne by (intros E; exact (Hpq (eq_sym E))).
    rewrite lookup_insert_eq. simpl. f_equal. f_equal. f_equal. unfold t. lia.
Qed.


(** ** The id map *)

Lemma CancelOrder_keeps_id_map (ob : OrderBook) (orderID : string) (m : Mem)
    (ob' : OrderBook) (e : option error) (m' : Mem) :
  CancelOrder ob orderID m = Ok (ob', e, m') → ob_orders ob' = ob_orders ob.
Proof.
  intros H. unfold CancelOrder in H.
  repeat (step H).
  all: injection H as -> -> ->; try reflexivity.
  all: unfold set_side_levels; destruct (is_buy _); reflexivity.
Qed.

Lemma matchOrder_keeps_id_map (fuel : nat) :
  ∀ ob p acc m ob' tr e m',
    matchOrder fuel ob p acc m = Ok (ob', tr, e, m') → ob_orders ob' = ob_orders ob.
Proof.
  induction fuel as [|n IH]; intros ob p acc m ob' tr e m' H.
  - discriminate H.
  - cbn [matchOrder] in H.
    repeat (step H).
    all: try (injection H as -> -> -> ->; try reflexivity).
    all: try (apply IH in H; rewrite H).
    all: try reflexivity.
    all: match goal with
         | E : CancelOrder _ _ _ = Ok _ |- _ => apply CancelOrder_keeps_id_map in E; exact E
         end.
Qed.

Lemma AddOrder_inv (Push : priceLevels → priceLevel → priceLevels)
    (ob : OrderBook) (p : loc) (m : Mem) (ob' : OrderBook) (m' : Mem) :
  AddOrder Push ob p m = Ok (ob', None, m') →
  ∃ o, m !! p = Some o ∧ ob_orders ob !! ID o = None
       ∧ m' = <[p := reinitialised o]> m
       ∧ ob_orders ob' = <[ID o := p]> (ob_orders ob).
Proof.
  intros H. unfold AddOrder in H.
  step H. apply load_inv in E as [Hp ->].
  step H; [apply mret_inv in H; discriminate|].
  step H. apply update_inv in E as (o & Ho & ->).
  step H. apply load_inv in E as [Hp' ->].
  apply mret_inv in H. injection H as -> ->.
  rewrite Hp in Ho. injection Ho as <-.
  rewrite lookup_insert_eq in Hp'. injection Hp' as <-.
  exists a. split; [exact Hp|]. split; [assumption|]. split; [reflexivity|].
  unfold set_side_levels. destruct (is_buy _); reflexivity.
Qed.

Lemma find_order_found (orderID : string) (pre post : list loc) (q : loc)
    (m : Mem) (o : Order) :
  m !! q = Some o → ID o = orderID →
  (∀ r, r ∈ pre → ∃ o', m !! r = Some o' ∧ ID o' ≠ orderID) →
  find_order orderID (pre ++ q :: post) m = Ok (Some (length pre), m).
Proof.
  intros Hq Hid. induction pre as [|r pre IH]; intros Hpre; simpl.
  - rewrite (bind_ok _ _ _ _ _ (load_ok _ _ _ Hq)).
    rewrite (bool_decide_eq_true_2 _ Hid). reflexivity.
  - destruct (Hpre r) as (o' & Hr & Hne); [left|].
    rewrite (bind_ok _ _ _ _ _ (load_ok _ _ _ Hr)).
    rewrite (bool_decide_eq_false_2 _ Hne).
    rewrite (bind_ok _ _ _ _ _ (IH ltac:(intros r' Hr'; apply Hpre; right; exact Hr'))).
    reflexivity.
Qed.

Lemma CancelOrder_removes (ob : OrderBook) (orderID : string) (m : Mem)
    (q : loc) (o : Order) (k : nat) (level : priceLevel) (pre post : list loc) :
  ob_orders ob !! orderID = Some q → m !! q = Some o → ID o = orderID →
  Status o ≠ OrderStatusCancelled →
  find_level (Price o) (side_levels (is_buy o) ob) = Some k →
  side_levels (is_buy o) ob !! k = Some level →
  orders level = pre ++ q :: post →
  (∀ r, r ∈ pre → ∃ o', m !! r = Some o' ∧ ID o' ≠ orderID) →
  CancelOrder ob orderID m
  = Ok (set_side_levels (is_buy o)
          (<[k := mkLevel (price level) (pre ++ post) (volume level - RemainingQty o)]>
             (side_levels (is_buy o) ob)) ob,
        None, <[q := with_Status OrderStatusCancelled o]> m).
Proof.
  intros Hq Ho Hid Hs Hk Hl Hos Hpre. unfold CancelOrder. rewrite Hq.
  rewrite (bind_ok _ _ _ _ _ (load_ok _ _ _ Ho)).
  rewrite (bool_decide_eq_false_2 _ Hs).
  rewrite (bind_ok _ _ _ _ _ (update_ok _ _ _ _ Ho)).
  rewrite Hk, Hl, Hos.
  rewrite (bind_ok _ _ _ _ _
             (find_order_found orderID pre post q _ (with_Status OrderStatusCancelled o)
                ltac:(apply lookup_insert_eq) Hid
                ltac:(intros r Hr; destruct (Hpre r Hr) as (o' & Hr' & Hne);
                      exists o'; split; [|exact Hne];
                      rewrite lookup_insert_ne; [exact Hr'|];
                      intros ->; rewrite Ho in Hr'; injection Hr' as <-;
                      exact (Hne Hid)))).
  rewrite delete_middle. reflexivity.
Qed.

Lemma CancelOrder_again (ob : OrderBook) (orderID : string) (m : Mem)
    (q : loc) (o : Order) :
  ob_orders ob !! orderID = Some q → m !! q = Some o →
  Status o = OrderStatusCancelled →
  CancelOrder ob orderID m = Ok (ob, Some (ErrAlreadyCancelled orderID), m).
Proof.
  intros Hq Ho Hs. unfold CancelOrder. rewrite Hq.
  rewrite (bind_ok _ _ _ _ _ (load_ok _ _ _ Ho)).
  rewrite (bool_decide_eq_true_2 _ Hs). reflexivity.
Qed.

(** * The scenarios of the specification *)

(** ** Scenario S1: simple cross *)

(** C2 (scenario S1: BUY LIMIT 100 @ 10, then SELL LIMIT 60 @ 10, on an empty
    engine).  The specification expects one trade (10, 60), the buy PARTIAL with 40
    remaining, the sell FILLED and the snapshot bids [{10, 40, 1}].  The code
    gives that outcome in none of the three ways it can be driven:
    - as written, [AddOrder] never links the bid level into the book (the
      value-receiver [Push]), so the sell finds no counterparty: no trade, both
      orders NEW and unfilled, empty snapshot;
    - through the handler, whose order literal leaves [RemainingQty] at zero,
      the matching loop is not entered and nothing is added either;
    - with a [Push] that stores the level, the trade and the two statuses are
      as specified, but the level volume stays 100: the snapshot shows
      [{10, 100, 1}]. *)
Theorem S1_simple_cross :
  (∃ me m,
      run priceLevels_Push 8 [Submit p1; Submit p2] NewMatchingEngine S1_store
        = Ok (me, [Trades [] None; Trades [] None], m)
      ∧ order_state m p1 = Some (0, 100, OrderStatusNew)
      ∧ order_state m p2 = Some (0, 60, OrderStatusNew)
      ∧ GetOrderBook me "X" = (Some (mkSnapshot "X" [] []), None))
  ∧ (∃ me m,
      run priceLevels_Push 8
          [Post (limit_req BuyOrder 100 10) "b" p1;
           Post (limit_req SellOrder 60 10) "s" p2] NewMatchingEngine ∅
        = Ok (me, [Http (StatusCreated p1 []); Http (StatusCreated p2 [])], m)
      ∧ order_state m p1 = Some (0, 0, "")
      ∧ order_state m p2 = Some (0, 0, "")
      ∧ GetOrderBook me "X" = (Some (mkSnapshot "X" [] []), None))
  ∧ (∃ me m,
      run priceLevels_Push_ptr 8 [Submit p1; Submit p2] NewMatchingEngine S1_store
        = Ok (me, [Trades [] None; Trades [S1_trade] None], m)
      ∧ order_state m p1 = Some (60, 40, OrderStatusPartial)
      ∧ order_state m p2 = Some (60, 0, OrderStatusFilled)
      ∧ GetOrderBook me "X"
        = (Some (mkSnapshot "X" [mkOrderBookLevel 10 100 1] []), None)).
Proof. evaluate. Qed.

(** The engine with the buy of S1 resting is what a [Push] that stores the
    level builds from the submission of the buy; the source builds no such
    book. *)
Lemma S1_engine_reached :
  run priceLevels_Push_ptr 8 [Submit p1] NewMatchingEngine S1_store
  = Ok (S1_engine, [Trades [] None], S1_store).
Proof. vm_compute. reflexivity. Qed.

(** What the matching loop does to a level that holds an order.
    [matchOrder] changes the remaining quantity of the maker and never the
    volume of its level: on a partial fill nothing is subtracted, on a full
    fill [CancelOrder] subtracts a remaining quantity that is already zero.
    On the book holding the buy of S1 in a consistent level (volume 100), the
    sell of 60 leaves volume 100 over a remaining quantity of 40.  The call
    does not reach [AddOrder], so this holds for every [Push]; the book itself
    is one the code as written never builds. *)
Lemma S1_volume_not_reduced (Push : priceLevels → priceLevel → priceLevels) :
  level_consistent S1_store (mkLevel 10 [p1] 100)
  ∧ ∃ me m ob,
      ProcessOrder Push 8 S1_engine p2 S1_store = Ok (me, [S1_trade], None, m)
      ∧ book_of me "X" = Some ob
      ∧ bids ob = [mkLevel 10 [p1] 100]
      ∧ asks ob = []
      ∧ sum_remaining m [p1] = Some 40.
Proof. evaluate. Qed.

(** ** Scenario S2: two ask levels *)

(** C4 (a maker filled to zero is FILLED and stays so).  In S2 the first sell
    is expected to end FILLED and removed.
    - With a [Push] that stores the level: the buy trades 50 @ 11 with the
      first sell; [updateOrderStatus] marks the sell FILLED and the removal
      that follows goes through [CancelOrder], which overwrites the status:
      the sell ends (50, 0, CANCELLED).  Its level stays at the head of the
      asks with no order, so the buy gets no second trade.
    - As written, the sell never entered a level: no trade, and it ends
      (0, 50, NEW). *)
Theorem filled_maker_ends_cancelled :
  (∃ me m ob,
      run priceLevels_Push_ptr 8 [Submit p1; Submit p2; Submit p3]
          NewMatchingEngine S2_store
        = Ok (me, [Trades [] None; Trades [] None;
                   Trades [mkTrade "X" "C" "A" 11 50 "u" "u"] None], m)
      ∧ order_state m p1 = Some (50, 0, OrderStatusCancelled)
      ∧ book_of me "X" = Some ob
      ∧ asks ob = [mkLevel 11 [] 50; mkLevel 12 [p2] 50])
  ∧ (∃ me m,
      run priceLevels_Push 8 [Submit p1; Submit p2; Submit p3]
          NewMatchingEngine S2_store
        = Ok (me, [Trades [] None; Trades [] None; Trades [] None], m)
      ∧ order_state m p1 = Some (0, 50, OrderStatusNew)).
Proof. evaluate. Qed.

(** ** Scenario S4: two orders at one price *)

(** C5 (FIFO within a price; scenario S4).  The specification expects one trade
    against A and the ask level {7, 10, 1} holding B.
    - As written, neither sell enters a level and the buy finds nothing: no
      trade, empty snapshot.
    - Through the handler no order takes part in matching at all.
    - With a [Push] that stores the level, A (the earlier order) is the one
      matched and B is left alone in the level, but the level shows volume 20:
      the snapshot is [{7, 20, 1}]. *)
Theorem S4_fifo_within_price :
  (∃ me m,
      run priceLevels_Push 8 [Submit p1; Submit p2; Submit p3]
          NewMatchingEngine S4_store
        = Ok (me, [Trades [] None; Trades [] None; Trades [] None], m)
      ∧ GetOrderBook me "X" = (Some (mkSnapshot "X" [] []), None))
  ∧ (∃ me m,
      run priceLevels_Push 8
          [Post (limit_req SellOrder 10 7) "A" p1;
           Post (limit_req SellOrder 10 7) "B" p2;
           Post (limit_req BuyOrder 10 7) "C" p3] NewMatchingEngine ∅
        = Ok (me, [Http (StatusCreated p1 []); Http (StatusCreated p2 []);
                   Http (StatusCreated p3 [])], m)
      ∧ GetOrderBook me "X" = (Some (mkSnapshot "X" [] []), None))
  ∧ (∃ me m ob,
      run priceLevels_Push_ptr 8 [Submit p1; Submit p2; Submit p3]
          NewMatchingEngine S4_store
        = Ok (me, [Trades [] None; Trades [] None;
                   Trades [mkTrade "X" "C" "A" 7 10 "u" "u"] None], m)
      ∧ book_of me "X" = Some ob
      ∧ asks ob = [mkLevel 7 [p2] 20]
      ∧ order_state m p2 = Some (0, 10, OrderStatusNew)
      ∧ GetOrderBook me "X"
        = (Some (mkSnapshot "X" [] [mkOrderBookLevel 7 20 1]), None)).
Proof. evaluate. Qed.

(** ** Scenario S3: market order, insufficient liquidity *)

(** C7 (scenario S3: SELL LIMIT 10 @ 5, then BUY MARKET 25).  The specification
    expects the trade (5, 10) to be returned and the buy to end
    (10, 15, REJECTED).
    - As written, the sell never enters an ask level, so the market order
      finds no counterparty: no trade is returned and the buy ends
      (0, 25, REJECTED); the sell stays NEW and unfilled.
    - Through the handler the market order arrives with zero remaining: the
      loop is not entered, the remainder test fails, and the answer is 201
      with no trade and the status left empty.
    - With a [Push] that stores the level, the market order still does not
      execute the liquidity there is: against asks of 10 @ 5 and 10 @ 6 it
      trades 10 @ 5 only, because the emptied level stays at the head of the
      asks and [GetBestAsk] answers with no order; it is REJECTED with 15
      remaining while 10 @ 6 rest untouched. *)
Theorem S3_market_without_liquidity :
  (∃ me m,
      run priceLevels_Push 8 [Submit p1; Submit p2] NewMatchingEngine S3_store
        = Ok (me, [Trades [] None; Trades [] (Some ErrMarketNotFilled)], m)
      ∧ order_state m p2 = Some (0, 25, OrderStatusRejected)
      ∧ order_state m p1 = Some (0, 10, OrderStatusNew)
      ∧ GetOrderBook me "X" = (Some (mkSnapshot "X" [] []), None))
  ∧ (∃ me m,
      run priceLevels_Push 8
          [Post (limit_req SellOrder 10 5) "s" p1;
           Post (market_req BuyOrder 25) "b" p2] NewMatchingEngine ∅
        = Ok (me, [Http (StatusCreated p1 []); Http (StatusCreated p2 [])], m)
      ∧ order_state m p2 = Some (0, 0, ""))
  ∧ (∃ me m ob,
      run priceLevels_Push_ptr 8 [Submit p1; Submit p2; Submit p3]
          NewMatchingEngine S3_two_asks_store
        = Ok (me, [Trades [] None; Trades [] None;
                   Trades [mkTrade "X" "b" "s" 5 10 "u" "u"]
                          (Some ErrMarketNotFilled)], m)
      ∧ order_state m p3 = Some (10, 15, OrderStatusRejected)
      ∧ order_state m p2 = Some (0, 10, OrderStatusNew)
      ∧ book_of me "X" = Some ob
      ∧ asks ob = [mkLevel 5 [] 10; mkLevel 6 [p2] 10]).
Proof. evaluate. Qed.

(** With a [Push] that stores the level, the run of S3 itself (one ask only)
    is as the specification describes it: one trade (5, 10), returned together
    with the error, the buy at (10, 15, REJECTED), no ask in the snapshot. *)
Lemma S3_with_stored_levels :
  ∃ me m,
    run priceLevels_Push_ptr 8 [Submit p1; Submit p2] NewMatchingEngine S3_store
      = Ok (me, [Trades [] None;
                 Trades [mkTrade "X" "b" "s" 5 10 "u" "u"] (Some ErrMarketNotFilled)], m)
    ∧ order_state m p2 = Some (10, 15, OrderStatusRejected)
    ∧ GetOrderBook me "X" = (Some (mkSnapshot "X" [] []), None).
Proof. evaluate. Qed.


(** * Further properties of the code *)

(** ** The code as written: no level is ever stored *)

Lemma best_opposite_no_levels (order : Order) (ob : OrderBook) :
  no_levels ob → fst (best_opposite order ob) = None.
Proof.
  intros [Hb Ha]. unfold best_opposite, GetBestAsk, GetBestBid.
  rewrite Hb, Ha. repeat case_bool_decide; reflexivity.
Qed.

Lemma matchOrder_no_levels (fuel : nat) (ob : OrderBook) (p : loc)
    (acc : list Trade) (m : Mem) (r : OrderBook * list Trade * option error * Mem) :
  no_levels ob → matchOrder fuel ob p acc m = Ok r → ∃ e, r = (ob, acc, e, m).
Proof.
  intros Hn H. destruct fuel as [|n]; [discriminate H|].
  cbn [matchOrder] in H. step H. apply load_inv in E as [Hp ->].
  pose proof (best_opposite_no_levels a ob Hn) as Hb.
  destruct (best_opposite a ob) as [[q|] [e|]]; simpl in Hb; try discriminate.
  - step H; apply mret_inv in H; eauto.
  - step H; apply mret_inv in H; eauto.
Qed.

Lemma AddOrder_no_levels (ob : OrderBook) (p : loc) (m : Mem)
    (r : OrderBook * option error * Mem) :
  no_levels ob → AddOrder priceLevels_Push ob p m = Ok r → no_levels r.1.1.
Proof.
  intros [Hb Ha] H. unfold AddOrder in H.
  step H. step H.
  - apply mret_inv in H. subst r. split; assumption.
  - step H. step H. apply mret_inv in H. subst r. simpl.
    unfold side_levels, set_side_levels. simpl.
    destruct (is_buy a1); simpl; rewrite ?Hb, ?Ha; split; reflexivity || assumption.
Qed.

Lemma CancelOrder_no_levels (ob : OrderBook) (orderID : string) (m : Mem)
    (r : OrderBook * option error * Mem) :
  no_levels ob → CancelOrder ob orderID m = Ok r → r.1.1 = ob.
Proof.
  intros [Hb Ha] H. unfold CancelOrder in H.
  step H; [|apply mret_inv in H; subst r; reflexivity].
  step H. step H; [apply mret_inv in H; subst r; reflexivity|].
  step H.
  assert (Hl : side_levels (is_buy a) ob = []).
  { unfold side_levels. destruct (is_buy a); assumption. }
  rewrite Hl in H. simpl in H. apply mret_inv in H. subst r. reflexivity.
Qed.

Lemma put_book_level_free (sym : string) (ob : OrderBook) (me : MatchingEngine) :
  level_free me → no_levels ob → level_free (put_book sym ob me).
Proof.
  intros Hme Hob s ob'. unfold put_book. simpl.
  rewrite lookup_insert. case_decide as Hs.
  - intros Heq. injection Heq as <-. exact Hob.
  - apply Hme.
Qed.

Lemma NewOrderBook_no_levels (sym : string) : no_levels (NewOrderBook sym).
Proof. split; reflexivity. Qed.

Lemma ProcessOrder_level_free (fuel : nat) (me : MatchingEngine) (p : loc) (m : Mem)
    (me' : MatchingEngine) (tr : list Trade) (e : option error) (m' : Mem) :
  level_free me → ProcessOrder priceLevels_Push fuel me p m = Ok (me', tr, e, m') →
  level_free me' ∧ tr = [].
Proof.
  intros Hme H. unfold ProcessOrder in H.
  step H. apply load_inv in E as [Hp ->].
  set (sym := Symbol a) in *.
  assert (Hx : ∃ ob me1, (match orderBooks me !! sym with
                          | Some ob => (ob, me)
                          | None => (NewOrderBook sym, put_book sym (NewOrderBook sym) me)
                          end) = (ob, me1) ∧ no_levels ob ∧ level_free me1).
  { destruct (orderBooks me !! sym) as [ob|] eqn:E.
    - exists ob, me. split; [reflexivity|]. split; [exact (Hme _ _ E) | exact Hme].
    - exists (NewOrderBook sym), (put_book sym (NewOrderBook sym) me).
      split; [reflexivity|]. split; [apply NewOrderBook_no_levels|].
      apply put_book_level_free; [exact Hme | apply NewOrderBook_no_levels]. }
  destruct Hx as (ob & me1 & Hx & Hob & Hme1). rewrite Hx in H. clear Hx.
  step H.
  - (* market *)
    step H. unfold processMarketOrder in E. step E.
    apply (matchOrder_no_levels _ _ _ _ _ _ Hob) in E0 as [e0 Heq].
    injection Heq as -> ->.
    destruct e0 as [err|].
    + apply mret_inv in E. injection E as -> ->. apply mret_inv in H.
      injection H as -> -> -> ->. split; [|reflexivity].
      apply put_book_level_free; assumption.
    + step E. step E.
      * step E. apply mret_inv in E. injection E as -> ->. apply mret_inv in H.
        injection H as -> -> -> ->. split; [|reflexivity].
        apply put_book_level_free; assumption.
      * apply mret_inv in E. injection E as -> ->. apply mret_inv in H.
        injection H as -> -> -> ->. split; [|reflexivity].
        apply put_book_level_free; assumption.
  - step H. apply (matchOrder_no_levels _ _ _ _ _ _ Hob) in E as [e0 Heq].
    injection Heq as -> ->.
    destruct e0 as [err|].
    + apply mret_inv in H. injection H as -> -> -> ->. split; [|reflexivity].
      apply put_book_level_free; assumption.
    + step H. step H.
      * step H. pose proof (AddOrder_no_levels _ _ _ _ Hob E0) as Hob'.
        destruct a1 as [ob'' err]. apply mret_inv in H.
        injection H as -> -> -> ->. split; [|reflexivity].
        apply put_book_level_free; assumption.
      * apply mret_inv in H. injection H as -> -> -> ->. split; [|reflexivity].
        apply put_book_level_free; assumption.
Qed.

Lemma MatchingEngine_CancelOrder_level_free (visit : list string) :
  ∀ me orderID m me' e m',
    level_free me → MatchingEngine_CancelOrder visit me orderID m = Ok (me', e, m') →
    level_free me'.
Proof.
  induction visit as [|sym visit IH]; intros me orderID m me' e m' Hme H.
  - apply mret_inv in H. injection H as -> -> ->. exact Hme.
  - cbn [MatchingEngine_CancelOrder] in H.
    destruct (orderBooks me !! sym) as [ob|] eqn:Eob; [|exact (IH _ _ _ _ _ _ Hme H)].
    destruct (GetOrder ob orderID) as [q [err|]]; [exact (IH _ _ _ _ _ _ Hme H)|].
    step H. pose proof (CancelOrder_no_levels _ _ _ _ (Hme _ _ Eob) E) as Hob.
    destruct a as [ob' err]. simpl in Hob. subst ob'.
    apply mret_inv in H. injection H as -> -> ->.
    apply put_book_level_free; [exact Hme | exact (Hme _ _ Eob)].
Qed.

Lemma CreateOrder_level_free (fuel : nat) (me : MatchingEngine)
    (req : CreateOrderRequest) (id : string) (p : loc) (m : Mem)
    (me' : MatchingEngine) (resp : response) (m' : Mem) :
  level_free me → CreateOrder priceLevels_Push fuel me req id p m = Ok (me', resp, m') →
  level_free me' ∧ without_trade (Http resp).
Proof.
  intros Hme H. unfold CreateOrder in H.
  repeat (step H).
  all: try (injection H as -> -> ->; split; [exact Hme | exact I]).
  all: destruct (ProcessOrder_level_free _ _ _ _ _ _ _ _ Hme E0) as [Hme' ->].
  all: injection H as -> -> ->; split; [exact Hme' | try exact I; reflexivity].
Qed.

Lemma run_level_free (fuel : nat) (rs : list request) :
  ∀ me m me' replies m',
    level_free me → run priceLevels_Push fuel rs me m = Ok (me', replies, m') →
    level_free me' ∧ Forall without_trade replies.
Proof.
  induction rs as [|r rs IH]; intros me m me' replies m' Hme H.
  - apply mret_inv in H. injection H as -> -> ->. split; [exact Hme | constructor].
  - cbn [run] in H. step H. destruct a as [me1 a].
    step H. destruct a0 as [me2 out]. apply mret_inv in H. injection H as -> -> ->.
    assert (Hstep : level_free me1 ∧ without_trade a).
    { destruct r as [p | req id p | visit orderID].
      - step E. destruct a0 as [[me3 tr] e]. apply mret_inv in E.
        injection E as -> -> ->.
        destruct (ProcessOrder_level_free _ _ _ _ _ _ _ _ Hme E1) as [Hme' ->].
        split; [exact Hme' | reflexivity].
      - step E. destruct a0 as [me3 resp]. apply mret_inv in E.
        injection E as -> -> ->.
        exact (CreateOrder_level_free _ _ _ _ _ _ _ _ _ Hme E1).
      - step E. destruct a0 as [me3 e]. apply mret_inv in E.
        injection E as -> -> ->. split; [|exact I].
        exact (MatchingEngine_CancelOrder_level_free _ _ _ _ _ _ _ Hme E1). }
    destruct Hstep as [Hme1 Ha].
    destruct (IH _ _ _ _ _ Hme1 E0) as [Hme2 Hout].
    split; [exact Hme2 | constructor; assumption].
Qed.

(** With the [Push] of the source, whatever is submitted, posted or cancelled
    from the empty engine on, no book ever holds a price level and no reply
    ever carries a trade. *)
Theorem as_written_nothing_rests_or_trades (fuel : nat) (rs : list request)
    (m : Mem) (me : MatchingEngine) (replies : list reply) (m' : Mem) :
  run priceLevels_Push fuel rs NewMatchingEngine m = Ok (me, replies, m') →
  level_free me ∧ Forall without_trade replies.
Proof.
  apply run_level_free. intros sym ob H. unfold NewMatchingEngine in H.
  simpl in H. rewrite lookup_empty in H. discriminate.
Qed.

Lemma as_written_nothing_rests_or_trades_witness :
  ∃ me replies m,
    run priceLevels_Push 8 [Submit p1; Submit p2; Submit p3; Cancel ["X"] "B"]
        NewMatchingEngine S2_store = Ok (me, replies, m)
    ∧ level_free me ∧ Forall without_trade replies.
Proof.
  eexists _, _, _. split; [vm_compute; reflexivity|].
  eapply (as_written_nothing_rests_or_trades 8
            [Submit p1; Submit p2; Submit p3; Cancel ["X"] "B"] S2_store).
  vm_compute. reflexivity.
Defined.





(** ** Fills and the initialisation of [AddOrder] *)

(** A partial fill never touches the book.  When the taker's remainder is
    smaller than the maker's and the price check does not stop the loop,
    [matchOrder] returns the one trade with the book as it was (every level
    keeps its volume), while the maker's remaining quantity has gone down by
    the traded quantity and the taker is FILLED. *)
Theorem partial_fill_leaves_book (fuel : nat) (ob : OrderBook) (p q : loc)
    (trades : list Trade) (m : Mem) (order maker : Order) :
  m !! p = Some order → m !! q = Some maker → p ≠ q →
  best_opposite order ob = (Some q, None) → ¬ price_stops order maker →
  0 < RemainingQty order < RemainingQty maker → 0 ≤ FilledQty maker →
  ∃ m',
    matchOrder (S (S fuel)) ob p trades m
    = Ok (ob, trades ++ [make_trade order maker (Price maker) (RemainingQty order)],
          None, m')
    ∧ RemainingQty <$> m' !! q = Some (RemainingQty maker - RemainingQty order)
    ∧ order_state m' p
      = Some (FilledQty order + RemainingQty order, 0, OrderStatusFilled).
Proof. apply matchOrder_partial_fill. Qed.

Lemma matchOrder_nothing_remaining (fuel : nat) (ob : OrderBook) (p : loc)
    (trades : list Trade) (m : Mem) (order : Order) :
  m !! p = Some order → RemainingQty order ≤ 0 →
  matchOrder (S fuel) ob p trades m = Ok (ob, trades, None, m).
Proof.
  intros Hp Hr. cbn [matchOrder].
  rewrite (bind_ok _ _ _ _ _ (load_ok _ _ _ Hp)).
  rewrite bool_decide_eq_false_2 by lia. reflexivity.
Qed.

Lemma processMarketOrder_nothing_remaining (fuel : nat) (ob : OrderBook) (p : loc)
    (m : Mem) (order : Order) :
  m !! p = Some order → RemainingQty order ≤ 0 →
  processMarketOrder (S fuel) ob p m = Ok (ob, [], None, m).
Proof.
  intros Hp Hr. unfold processMarketOrder.
  rewrite (bind_ok _ _ _ _ _ (matchOrder_nothing_remaining fuel ob p [] m order Hp Hr)).
  rewrite (bind_ok _ _ _ _ _ (load_ok _ _ _ Hp)).
  rewrite bool_decide_eq_false_2 by lia. reflexivity.
Qed.

Lemma ProcessOrder_nothing_remaining (Push : priceLevels → priceLevel → priceLevels)
    (fuel : nat) (me : MatchingEngine) (p : loc) (m : Mem) (order : Order) :
  m !! p = Some order → RemainingQty order ≤ 0 →
  ProcessOrder Push (S fuel) me p m = Ok (ensure_book (Symbol order) me, [], None, m).
Proof.
  intros Hp Hr. unfold ProcessOrder, ensure_book.
  rewrite (bind_ok _ _ _ _ _ (load_ok _ _ _ Hp)).
  assert (Hput : ∀ ob me1, orderBooks me1 !! Symbol order = Some ob →
                 put_book (Symbol order) ob me1 = me1)
    by (intros; apply put_book_same; assumption).
  assert (Hnew : orderBooks (put_book (Symbol order) (NewOrderBook (Symbol order)) me)
                 !! Symbol order = Some (NewOrderBook (Symbol order)))
    by (unfold put_book; simpl; apply lookup_insert_eq).
  destruct (orderBooks me !! Symbol order) as [ob|] eqn:Eob.
  - destruct (bool_decide (Type_ order = MarketOrder)).
    + rewrite (bind_ok _ _ _ _ _
                 (processMarketOrder_nothing_remaining fuel ob p m order Hp Hr)).
      unfold mret, M_ret. rewrite (Hput _ _ Eob). reflexivity.
    + rewrite (bind_ok _ _ _ _ _ (matchOrder_nothing_remaining fuel ob p [] m order Hp Hr)).
      rewrite (bind_ok _ _ _ _ _ (load_ok _ _ _ Hp)).
      rewrite bool_decide_eq_false_2 by lia.
      unfold mret, M_ret. rewrite (Hput _ _ Eob). reflexivity.
  - destruct (bool_decide (Type_ order = MarketOrder)).
    + rewrite (bind_ok _ _ _ _ _
                 (processMarketOrder_nothing_remaining fuel _ p m order Hp Hr)).
      unfold mret, M_ret. rewrite (Hput _ _ Hnew). reflexivity.
    + rewrite (bind_ok _ _ _ _ _ (matchOrder_nothing_remaining fuel _ p [] m order Hp Hr)).
      rewrite (bind_ok _ _ _ _ _ (load_ok _ _ _ Hp)).
      rewrite bool_decide_eq_false_2 by lia.
      unfold mret, M_ret. rewrite (Hput _ _ Hnew). reflexivity.
Qed.

(** What an accepted request does.  The order literal of [CreateOrder] leaves
    [RemainingQty] at zero, so [ProcessOrder] neither enters the matching loop
    nor adds the order: the answer is 201 with no trade, the order object
    exists as the literal built it, and the engine differs at most by an empty
    book for the symbol.  This holds for every [Push]. *)
Theorem CreateOrder_accepted (Push : priceLevels → priceLevel → priceLevels)
    (fuel : nat) (me : MatchingEngine) (req : CreateOrderRequest)
    (id : string) (p : loc) (m : Mem) :
  binding_ok req = true →
  ¬ (rType req = LimitOrder ∧ rPrice req ≤ 0) →
  ¬ (rType req = StopOrder ∧ rStopPrice req ≤ 0) →
  CreateOrder Push (S fuel) me req id p m
  = Ok (ensure_book (rSymbol req) me, StatusCreated p [],
        <[p := request_order id req]> m).
Proof.
  intros Hb H1 H2. unfold CreateOrder. rewrite Hb. simpl.
  assert (E1 : bool_decide (rType req = LimitOrder) && bool_decide (rPrice req ≤ 0) = false).
  { apply not_true_is_false. intros E. apply andb_prop in E as [Ea Eb].
    apply bool_decide_eq_true_1 in Ea, Eb. apply H1. split; assumption. }
  assert (E2 : bool_decide (rType req = StopOrder) && bool_decide (rStopPrice req ≤ 0) = false).
  { apply not_true_is_false. intros E. apply andb_prop in E as [Ea Eb].
    apply bool_decide_eq_true_1 in Ea, Eb. apply H2. split; assumption. }
  rewrite E1, E2.
  assert (Ha : alloc p (request_order id req) m = Ok (tt, <[p := request_order id req]> m))
    by reflexivity.
  rewrite (bind_ok _ _ _ _ _ Ha).
  rewrite (bind_ok _ _ _ _ _
             (ProcessOrder_nothing_remaining Push fuel me p _ (request_order id req)
                ltac:(apply lookup_insert_eq) ltac:(simpl; lia))).
  reflexivity.
Qed.

Lemma partial_fill_leaves_book_witness :
  ∃ m',
    matchOrder 2 S1_book p2 [] S1_store
    = Ok (S1_book,
          [] ++ [make_trade (limit "s" SellOrder 60 10) (limit "b" BuyOrder 100 10)
                            (Price (limit "b" BuyOrder 100 10))
                            (RemainingQty (limit "s" SellOrder 60 10))],
          None, m')
    ∧ RemainingQty <$> m' !! p1
      = Some (RemainingQty (limit "b" BuyOrder 100 10)
              - RemainingQty (limit "s" SellOrder 60 10))
    ∧ order_state m' p2
      = Some (FilledQty (limit "s" SellOrder 60 10)
              + RemainingQty (limit "s" SellOrder 60 10), 0, OrderStatusFilled).
Proof.
  apply (partial_fill_leaves_book 0 S1_book p2 p1 [] S1_store
           (limit "s" SellOrder 60 10) (limit "b" BuyOrder 100 10)).
  - reflexivity.
  - reflexivity.
  - discriminate.
  - reflexivity.
  - intros [_ [[Hs _] | [_ Hp]]]; [discriminate Hs | simpl in Hp; lia].
  - simpl. lia.
  - simpl. lia.
Defined.

(** After [AddOrder] has admitted an order, the order is NEW with nothing
    filled and its whole quantity remaining, whatever its counters were when
    it was handed over. *)
Theorem AddOrder_reinitialises (Push : priceLevels → priceLevel → priceLevels)
    (ob : OrderBook) (p : loc) (m : Mem) (ob' : OrderBook) (m' : Mem) :
  AddOrder Push ob p m = Ok (ob', None, m') →
  ∃ o, m !! p = Some o ∧ order_state m' p = Some (0, Quantity o, OrderStatusNew).
Proof.
  intros H. destruct (AddOrder_inv Push ob p m ob' m' H) as (o & Hp & _ & -> & _).
  exists o. split; [exact Hp|].
  unfold order_state. rewrite lookup_insert_eq. reflexivity.
Qed.

Lemma AddOrder_reinitialises_witness :
  ∃ o, partly_filled_store !! p1 = Some o
       ∧ order_state cancel_store p1 = Some (0, Quantity o, OrderStatusNew).
Proof.
  apply (AddOrder_reinitialises priceLevels_Push (NewOrderBook "X") p1
           partly_filled_store (mkBook "X" [] [] {[ "b" := p1 ]})).
  vm_compute. reflexivity.
Defined.

Lemma CreateOrder_accepted_witness :
  CreateOrder priceLevels_Push_ptr 1 S1_engine (limit_req SellOrder 60 10) "s" p2 S1_store
  = Ok (ensure_book (rSymbol (limit_req SellOrder 60 10)) S1_engine,
        StatusCreated p2 [],
        <[p2 := request_order "s" (limit_req SellOrder 60 10)]> S1_store).
Proof.
  apply (CreateOrder_accepted priceLevels_Push_ptr 0 S1_engine
           (limit_req SellOrder 60 10) "s" p2 S1_store).
  - reflexivity.
  - intros [_ Hp]. simpl in Hp. lia.
  - intros [Ht _]. discriminate Ht.
Defined.

(** ** Admission order within a level *)

Lemma alter_at {A} (f : A → A) (l : list A) (k : nat) (x : A) :
  l !! k = Some x → alter f k l = <[k := f x]> l.
Proof.
  revert k. induction l as [|y l IH]; intros [|k] H; simpl in *; try discriminate.
  - injection H as ->. reflexivity.
  - f_equal. apply IH. exact H.
Qed.

Lemma best_of_head (ls : priceLevels) : best_of ls = head (first_level_orders ls).
Proof. destruct ls as [|l ls]; [reflexivity|]. simpl. destruct (orders l); reflexivity. Qed.

Lemma GetBestBid_head (ob : OrderBook) :
  GetBestBid ob (symbol ob) = (head (first_level_orders (bids ob)), None).
Proof.
  unfold GetBestBid. rewrite bool_decide_eq_false_2 by (intros H; exact (H eq_refl)).
  rewrite best_of_head. reflexivity.
Qed.

Lemma GetBestAsk_head (ob : OrderBook) :
  GetBestAsk ob (symbol ob) = (head (first_level_orders (asks ob)), None).
Proof.
  unfold GetBestAsk. rewrite bool_decide_eq_false_2 by (intros H; exact (H eq_refl)).
  rewrite best_of_head. reflexivity.
Qed.

(** The order a side offers once [p] was appended to its level [k]. *)
Lemma best_of_appended (ls : priceLevels) (k : nat) (level : priceLevel) (p : loc) (v : Z) :
  ls !! k = Some level →
  best_of (<[k := mkLevel (price level) (orders level ++ [p]) v]> ls)
  = match k, orders level with
    | O, [] => Some p
    | _, _ => best_of ls
    end.
Proof.
  intros Hl. destruct ls as [|l ls]; [discriminate Hl|].
  destruct k as [|k]; simpl in *.
  - injection Hl as ->. destruct (orders level); reflexivity.
  - destruct (orders level); reflexivity.
Qed.

Lemma side_levels_set (buy : bool) (ls : priceLevels) (ob : OrderBook) :
  side_levels buy (set_side_levels buy ls ob) = ls.
Proof. unfold side_levels, set_side_levels. destruct buy; reflexivity. Qed.

(** Admission to an existing level is at the tail.  When the side of the order
    already has a level at its price, [AddOrder] re-initialises the order,
    enters it in the id map, appends it behind the orders of that level and
    adds its quantity to the volume; [Push] is not called.  [GetBestBid] and
    [GetBestAsk], asked for the symbol of the book, return the first order of
    the first level of their side, and no order when there is no level or the
    first level holds none.  So after the admission the side offers the order
    it offered before; the new order is the one offered only when it was
    appended to the first level of its side and that level held no order. *)
Theorem AddOrder_appends (Push : priceLevels → priceLevel → priceLevels)
    (ob : OrderBook) (p : loc) (m : Mem) (o : Order) (k : nat) (level : priceLevel) :
  m !! p = Some o → ob_orders ob !! ID o = None →
  find_level (Price o) (side_levels (is_buy o) ob) = Some k →
  side_levels (is_buy o) ob !! k = Some level →
  ∃ ob',
    ob' = set_side_levels (is_buy o)
            (<[k := mkLevel (price level) (orders level ++ [p])
                            (volume level + Quantity o)]>
               (side_levels (is_buy o) ob))
            (mkBook (symbol ob) (bids ob) (asks ob) (<[ID o := p]> (ob_orders ob)))
    ∧ AddOrder Push ob p m = Ok (ob', None, <[p := reinitialised o]> m)
    ∧ (∀ b, GetBestBid b (symbol b) = (head (first_level_orders (bids b)), None)
            ∧ GetBestAsk b (symbol b) = (head (first_level_orders (asks b)), None))
    ∧ best_of (side_levels (is_buy o) ob')
      = match k, orders level with
        | O, [] => Some p
        | _, _ => best_of (side_levels (is_buy o) ob)
        end.
Proof.
  intros Hp Hid Hk Hl. eexists. split; [reflexivity|].
  split; [|split; [intros b; split; [apply GetBestBid_head | apply GetBestAsk_head]|]].
  - unfold AddOrder.
    rewrite (bind_ok _ _ _ _ _ (load_ok _ _ _ Hp)). rewrite Hid.
    rewrite (bind_ok _ _ _ _ _ (update_ok _ _ _ _ Hp)).
    rewrite (bind_ok _ _ _ _ _ (load_ok p _ (reinitialised o) ltac:(apply lookup_insert_eq))).
    change (is_buy (reinitialised o)) with (is_buy o).
    change (Price (reinitialised o)) with (Price o).
    change (ID (reinitialised o)) with (ID o).
    change (RemainingQty (reinitialised o)) with (Quantity o).
    assert (Hside : side_levels (is_buy o)
                      (mkBook (symbol ob) (bids ob) (asks ob) (<[ID o := p]> (ob_orders ob)))
                    = side_levels (is_buy o) ob)
      by (unfold side_levels; destruct (is_buy o); reflexivity).
    rewrite Hside, Hk. rewrite (alter_at _ _ _ _ Hl). reflexivity.
  - rewrite side_levels_set. apply best_of_appended. exact Hl.
Qed.

Lemma AddOrder_appends_witness :
  ∃ ob',
    ob' = mkBook "X" [] [mkLevel 7 [p1; p2] 20] {[ "A" := p1; "B" := p2 ]}
    ∧ AddOrder priceLevels_Push S4_book_A p2 S4_store = Ok (ob', None, S4_store)
    ∧ GetBestBid ob' "X" = (None, None)
    ∧ GetBestAsk ob' "X" = (Some p1, None)
    ∧ best_of (asks ob') = best_of (asks S4_book_A).
Proof.
  destruct (AddOrder_appends priceLevels_Push S4_book_A p2 S4_store
              (limit "B" SellOrder 10 7) 0%nat (mkLevel 7 [p1] 10)
              eq_refl eq_refl eq_refl eq_refl)
    as (ob' & -> & Hadd & Hget & Hbest).
  eexists. split; [reflexivity|].
  split; [exact Hadd|]. split; [exact (proj1 (Hget _))|].
  split; [exact (proj2 (Hget _)) | exact Hbest].
Defined.

(** ** What the calls conserve of an order object *)

Lemma conserved_refl (o : Order) : conserved o o.
Proof. repeat split. Qed.

Lemma conserved_trans (o1 o2 o3 : Order) :
  conserved o1 o2 → conserved o2 o3 → conserved o1 o3.
Proof.
  unfold conserved. intros (?&?&?&?&?&?&?&?&?) (?&?&?&?&?&?&?&?&?).
  repeat split; congruence.
Qed.

Lemma store_conserved_refl (m : Mem) : store_conserved m m.
Proof. intros r o H. exists o. split; [exact H | apply conserved_refl]. Qed.

Lemma store_conserved_trans (m1 m2 m3 : Mem) :
  store_conserved m1 m2 → store_conserved m2 m3 → store_conserved m1 m3.
Proof.
  intros H12 H23 r o H. destruct (H12 r o H) as (o2 & H2 & C2).
  destruct (H23 r o2 H2) as (o3 & H3 & C3).
  exists o3. split; [exact H3 | exact (conserved_trans _ _ _ C2 C3)].
Qed.

Lemma update_conserved (p : loc) (f : Order → Order) (m m' : Mem) (u : unit) :
  (∀ o, conserved o (f o)) → update p f m = Ok (u, m') → store_conserved m m'.
Proof.
  intros Hf H. apply update_inv in H as (o & Ho & ->). intros r o' Hr.
  destruct (decide (r = p)) as [->|Hne].
  - rewrite Ho in Hr. injection Hr as <-. exists (f o).
    split; [apply lookup_insert_eq | apply Hf].
  - exists o'. split; [rewrite lookup_insert_ne by congruence; exact Hr | apply conserved_refl].
Qed.

Lemma with_Status_conserved (s : OrderStatus) (o : Order) : conserved o (with_Status s o).
Proof. repeat split. Qed.

Lemma fill_conserved (q : Z) (o : Order) : conserved o (fill q o).
Proof. repeat split. simpl. lia. Qed.

Lemma updateOrderStatus_conserved (p : loc) (m m' : Mem) (u : unit) :
  updateOrderStatus p m = Ok (u, m') → store_conserved m m'.
Proof.
  intros H. unfold updateOrderStatus in H. step H. apply load_inv in E as [_ ->].
  step H; [|step H].
  - exact (update_conserved _ _ _ _ _ (with_Status_conserved _) H).
  - exact (update_conserved _ _ _ _ _ (with_Status_conserved _) H).
  - step H. injection H as _ ->. apply store_conserved_refl.
Qed.

Lemma find_order_store (orderID : string) (os : list loc) :
  ∀ m r m', find_order orderID os m = Ok (r, m') → m' = m.
Proof.
  induction os as [|q os IH]; intros m r m' H; simpl in H.
  - step H. injection H as _ ->. reflexivity.
  - step H. apply load_inv in E as [_ ->]. step H.
    + step H. injection H as _ ->. reflexivity.
    + step H. apply IH in E. step H. injection H as _ ->. exact E.
Qed.

(** The calls met along a run, each turned into what it does to the store. *)
Ltac conserve :=
  repeat match goal with
         | E : load _ _ = Ok _ |- _ => apply load_inv in E as [? ->]
         | E : find_order _ _ _ = Ok _ |- _ => apply find_order_store in E; subst
         | E : update _ (fill _) _ = Ok _ |- _ =>
             apply (update_conserved _ _ _ _ _ (fill_conserved _)) in E
         | E : update _ (with_Status _) _ = Ok _ |- _ =>
             apply (update_conserved _ _ _ _ _ (with_Status_conserved _)) in E
         | E : updateOrderStatus _ _ = Ok _ |- _ => apply updateOrderStatus_conserved in E
         end.

Lemma CancelOrder_conserved (ob : OrderBook) (orderID : string) (m : Mem)
    (ob' : OrderBook) (e : option error) (m' : Mem) :
  CancelOrder ob orderID m = Ok (ob', e, m') → store_conserved m m'.
Proof.
  intros H. unfold CancelOrder in H.
  repeat (step H). all: injection H as _ _ ->. all: conserve.
  all: eauto using store_conserved_refl.
Qed.

Lemma matchOrder_store_conserved (fuel : nat) :
  ∀ ob p acc m ob' tr e m',
    matchOrder fuel ob p acc m = Ok (ob', tr, e, m') → store_conserved m m'.
Proof.
  induction fuel as [|n IH]; intros ob p acc m ob' tr e m' H.
  - discriminate H.
  - cbn [matchOrder] in H.
    repeat (step H).
    all: try (injection H as _ _ _ ->).
    all: try (apply IH in H).
    all: repeat match goal with
                | E : CancelOrder _ _ _ = Ok _ |- _ => apply CancelOrder_conserved in E
                end.
    all: conserve.
    all: eauto 10 using store_conserved_refl, store_conserved_trans.
Qed.

Lemma processMarketOrder_conserved (fuel : nat) (ob : OrderBook) (p : loc) (m : Mem)
    (ob' : OrderBook) (tr : list Trade) (e : option error) (m' : Mem) :
  processMarketOrder fuel ob p m = Ok (ob', tr, e, m') → store_conserved m m'.
Proof.
  intros H. unfold processMarketOrder in H. step H.
  destruct a as [[ob1 tr1] e1]. apply matchOrder_store_conserved in E.
  repeat (step H). all: injection H as _ _ _ ->. all: conserve.
  all: eauto using store_conserved_trans.
Qed.

Lemma conserved_kept (o o' : Order) :
  conserved o o' → same_terms o o' ∧ (balanced o → balanced o').
Proof.
  unfold conserved, same_terms, balanced. intros (?&?&?&?&?&?&?&?&?).
  split; [repeat split; assumption | intros Hb; congruence].
Qed.

Lemma store_conserved_kept (m m' : Mem) : store_conserved m m' → store_kept m m'.
Proof.
  intros H r o Hr. destruct (H r o Hr) as (o' & Hr' & Hc).
  exists o'. split; [exact Hr' | exact (conserved_kept _ _ Hc)].
Qed.

Lemma store_kept_refl (m : Mem) : store_kept m m.
Proof. apply store_conserved_kept, store_conserved_refl. Qed.

Lemma store_kept_trans (m1 m2 m3 : Mem) :
  store_kept m1 m2 → store_kept m2 m3 → store_kept m1 m3.
Proof.
  intros H12 H23 r o H. destruct (H12 r o H) as (o2 & H2 & T2 & B2).
  destruct (H23 r o2 H2) as (o3 & H3 & T3 & B3).
  exists o3. split; [exact H3|]. split; [|tauto].
  unfold same_terms in *. destruct T2 as (?&?&?&?&?&?&?&?), T3 as (?&?&?&?&?&?&?&?).
  repeat split; congruence.
Qed.

Lemma AddOrder_kept (Push : priceLevels → priceLevel → priceLevels)
    (ob : OrderBook) (p : loc) (m : Mem) (ob' : OrderBook) (e : option error) (m' : Mem) :
  AddOrder Push ob p m = Ok (ob', e, m') → store_kept m m'.
Proof.
  intros H. unfold AddOrder in H.
  step H. apply load_inv in E as [Hp ->].
  step H; [step H; injection H as _ _ ->; apply store_kept_refl|].
  step H. apply update_inv in E as (o & Ho & ->).
  step H. apply load_inv in E as [_ ->]. step H. injection H as _ _ ->.
  intros r o' Hr. destruct (decide (r = p)) as [->|Hne].
  - rewrite Ho in Hr. injection Hr as <-. eexists. split; [apply lookup_insert_eq|].
    split; [repeat split | intros _; unfold balanced; simpl; lia].
  - exists o'. split; [rewrite lookup_insert_ne by congruence; exact Hr|].
    split; [repeat split | tauto].
Qed.

(** What [ProcessOrder] is made of. *)
Lemma ProcessOrder_inv (Push : priceLevels → priceLevel → priceLevels)
    (fuel : nat) (me : MatchingEngine) (p : loc) (m : Mem)
    (me' : MatchingEngine) (tr : list Trade) (e : option error) (m' : Mem) :
  ProcessOrder Push fuel me p m = Ok (me', tr, e, m') →
  ∃ o ob',
    m !! p = Some o
    ∧ me' = put_book (Symbol o) ob' (ensure_book (Symbol o) me)
    ∧ ((Type_ o = MarketOrder
        ∧ processMarketOrder fuel (book_for (Symbol o) me) p m = Ok (ob', tr, e, m'))
       ∨ (Type_ o ≠ MarketOrder
          ∧ ∃ ob1 tr1 e1 m1,
              matchOrder fuel (book_for (Symbol o) me) p [] m = Ok (ob1, tr1, e1, m1)
              ∧ ((∃ err, e1 = Some err ∧ e = Some err ∧ tr = [] ∧ ob' = ob1 ∧ m' = m1)
                 ∨ (e1 = None ∧ tr = tr1
                    ∧ ∃ o1, m1 !! p = Some o1
                      ∧ ((RemainingQty o1 > 0 ∧ AddOrder Push ob1 p m1 = Ok (ob', e, m'))
                         ∨ (¬ RemainingQty o1 > 0 ∧ ob' = ob1 ∧ e = None ∧ m' = m1)))))).
Proof.
  intros H. unfold ProcessOrder in H.
  step H. apply load_inv in E as [Hp ->]. exists a.
  assert (Hx : (match orderBooks me !! Symbol a with
                | Some ob => (ob, me)
                | None => (NewOrderBook (Symbol a),
                           put_book (Symbol a) (NewOrderBook (Symbol a)) me)
                end) = (book_for (Symbol a) me, ensure_book (Symbol a) me)).
  { unfold book_for, ensure_book. destruct (orderBooks me !! Symbol a); reflexivity. }
  rewrite Hx in H. clear Hx.
  step H.
  - step H. destruct a0 as [[ob' tr'] e']. step H. injection H as -> -> -> ->.
    exists ob'. split; [exact Hp|]. split; [reflexivity|]. left.
    apply bool_decide_eq_true_1 in Heqb. split; [exact Heqb | exact E].
  - apply bool_decide_eq_false_1 in Heqb.
    step H. destruct a0 as [[ob1 tr1] [err|]].
    + step H. injection H as -> -> -> ->. exists ob1.
      split; [exact Hp|]. split; [reflexivity|]. right. split; [exact Heqb|].
      exists ob1, tr1, (Some err), m0. split; [exact E|]. left. exists err. tauto.
    + step H. apply load_inv in E0 as [Hp1 ->]. step H.
      * step H. destruct a1 as [ob2 e2]. step H. injection H as -> -> -> ->.
        exists ob2. split; [exact Hp|]. split; [reflexivity|]. right. split; [exact Heqb|].
        exists ob1, tr1, None, m0. split; [exact E|]. right.
        split; [reflexivity|]. split; [reflexivity|]. exists a0. split; [exact Hp1|].
        left. apply bool_decide_eq_true_1 in Heqb0. split; [exact Heqb0 | exact E0].
      * step H. injection H as -> -> -> ->.
        exists ob1. split; [exact Hp|]. split; [reflexivity|]. right. split; [exact Heqb|].
        exists ob1, tr1, None, m0. split; [exact E|]. right.
        split; [reflexivity|]. split; [reflexivity|]. exists a0. split; [exact Hp1|].
        right. apply bool_decide_eq_false_1 in Heqb0. tauto.
Qed.

Lemma ProcessOrder_kept (Push : priceLevels → priceLevel → priceLevels)
    (fuel : nat) (me : MatchingEngine) (p : loc) (m : Mem)
    (me' : MatchingEngine) (tr : list Trade) (e : option error) (m' : Mem) :
  ProcessOrder Push fuel me p m = Ok (me', tr, e, m') → store_kept m m'.
Proof.
  intros H. apply ProcessOrder_inv in H as (o & ob' & Hp & _ & [[_ H] | [_ H]]).
  - apply store_conserved_kept. exact (processMarketOrder_conserved _ _ _ _ _ _ _ _ H).
  - destruct H as (ob1 & tr1 & e1 & m1 & H & Hrest).
    apply matchOrder_store_conserved, store_conserved_kept in H.
    destruct Hrest as [(err & _ & _ & _ & _ & ->) | (_ & _ & o1 & _ & [[_ Ha] | (_ & _ & _ & ->)])].
    + exact H.
    + apply AddOrder_kept in Ha. exact (store_kept_trans _ _ _ H Ha).
    + exact H.
Qed.

Lemma MatchingEngine_CancelOrder_conserved (visit : list string) :
  ∀ me orderID m me' e m',
    MatchingEngine_CancelOrder visit me orderID m = Ok (me', e, m') →
    store_conserved m m'.
Proof.
  induction visit as [|sym visit IH]; intros me orderID m me' e m' H.
  - apply mret_inv in H. injection H as _ _ ->. apply store_conserved_refl.
  - cbn [MatchingEngine_CancelOrder] in H.
    destruct (orderBooks me !! sym) as [ob|]; [|exact (IH _ _ _ _ _ _ H)].
    destruct (GetOrder ob orderID) as [q [err|]]; [exact (IH _ _ _ _ _ _ H)|].
    step H. destruct a as [ob' err]. apply CancelOrder_conserved in E.
    step H. injection H as _ _ ->. exact E.
Qed.

(** ** One turn of the matching loop *)

Lemma price_stops_dec (order maker : Order) :
  price_stops order maker
  ↔ (bool_decide (Type_ order = LimitOrder) && bool_decide (Side order = BuyOrder)
     && bool_decide (Price order < Price maker) = true)
    ∨ (bool_decide (Type_ order = LimitOrder) && bool_decide (Side order = SellOrder)
       && bool_decide (Price order > Price maker) = true).
Proof.
  unfold price_stops. rewrite !andb_true_iff, !bool_decide_eq_true. tauto.
Qed.

(** A run of the loop that returns has stopped at once, leaving book, trades
    and store as they were, or has made one trade and gone on. *)
Lemma matchOrder_inv (n : nat) (ob : OrderBook) (p : loc) (acc : list Trade) (m : Mem)
    (ob' : OrderBook) (tr : list Trade) (e : option error) (m' : Mem) :
  matchOrder (S n) ob p acc m = Ok (ob', tr, e, m') →
  ∃ o, m !! p = Some o
    ∧ ((ob' = ob ∧ tr = acc ∧ m' = m
        ∧ (e = None
           ∨ ∃ x err, RemainingQty o > 0 ∧ best_opposite o ob = (x, Some err)
                      ∧ e = Some err))
       ∨ (RemainingQty o > 0
          ∧ ∃ q mk m1 mk1,
              best_opposite o ob = (Some q, None) ∧ m !! q = Some mk
              ∧ ¬ price_stops o mk
              ∧ settle p q (min (RemainingQty o) (RemainingQty mk)) m = Ok (tt, m1)
              ∧ m1 !! q = Some mk1
              ∧ ((Status mk1 = OrderStatusFilled
                  ∧ ∃ ob1 ec m2,
                      CancelOrder ob (ID mk1) m1 = Ok (ob1, ec, m2)
                      ∧ ((∃ err, ec = Some err ∧ ob' = ob1 ∧ tr = acc
                                 ∧ e = Some err ∧ m' = m2)
                         ∨ (ec = None
                            ∧ matchOrder n ob1 p
                                (acc ++ [make_trade o mk (Price mk)
                                           (min (RemainingQty o) (RemainingQty mk))]) m2
                              = Ok (ob', tr, e, m'))))
                 ∨ (Status mk1 ≠ OrderStatusFilled
                    ∧ matchOrder n ob p
                        (acc ++ [make_trade o mk (Price mk)
                                   (min (RemainingQty o) (RemainingQty mk))]) m1
                      = Ok (ob', tr, e, m'))))).
Proof.
  intros H. cbn [matchOrder] in H.
  step H. apply load_inv in E as [Hp ->]. exists a. split; [exact Hp|].
  step H; [|step H; injection H as -> -> -> ->; left; tauto].
  apply bool_decide_eq_true_1 in Heqb.
  destruct (best_opposite a ob) as [[q|] [err|]] eqn:Hbest.
  - step H. injection H as -> -> -> ->. left. repeat split. right. eauto.
  - step H. apply load_inv in E as [Hq ->].
    step H; [step H; injection H as -> -> -> ->; left; tauto|].
    step H; [step H; injection H as -> -> -> ->; left; tauto|].
    assert (Hns : ¬ price_stops a a0).
    { rewrite price_stops_dec. intros [Hs | Hs]; congruence. }
    right. split; [exact Heqb|].
    step H. step H. step H. step H. step H. apply load_inv in E3 as [Hq1 ->].
    destruct a1, a2, a3, a4.
    assert (Hsettle : settle p q (min (RemainingQty a) (RemainingQty a0)) m = Ok (tt, m3)).
    { unfold settle. rewrite (bind_ok _ _ _ _ _ E). rewrite (bind_ok _ _ _ _ _ E0).
      rewrite (bind_ok _ _ _ _ _ E1). exact E2. }
    exists q, a0, m3, a5. split; [reflexivity|]. split; [exact Hq|].
    split; [exact Hns|]. split; [exact Hsettle|]. split; [exact Hq1|].
    step H.
    + apply bool_decide_eq_true_1 in Heqb2. left. split; [exact Heqb2|].
      step H. destruct a1 as [ob1 [err|]].
      * step H. injection H as -> -> -> ->. exists ob1, (Some err), m4.
        split; [exact E3|]. left. exists err. tauto.
      * exists ob1, None, m4. split; [exact E3|]. right. split; [reflexivity | exact H].
    + apply bool_decide_eq_false_1 in Heqb2. right. split; [exact Heqb2 | exact H].
  - step H. injection H as -> -> -> ->. left. repeat split. right. eauto.
  - step H. injection H as -> -> -> ->. left. tauto.
Qed.

Lemma settle_conserved (p q : loc) (tradeQty : Z) (m m' : Mem) (u : unit) :
  settle p q tradeQty m = Ok (u, m') → store_conserved m m'.
Proof.
  intros H. unfold settle in H. repeat (step H). conserve.
  eauto 10 using store_conserved_trans.
Qed.

(** ** The trades of a taker *)

Lemma trade_of_taker_conserved (o o' : Order) (t : Trade) :
  conserved o o' → trade_of_taker o' t → trade_of_taker o t.
Proof.
  unfold conserved, trade_of_taker.
  intros (Hid & Hu & Hs & Ht & Hsd & Hp & _) H.
  rewrite Hid, Hu, Hs, Ht, Hsd, Hp in H. exact H.
Qed.

Lemma make_trade_of_taker (o mk : Order) (q : Z) :
  ¬ price_stops o mk → trade_of_taker o (make_trade o mk (Price mk) q).
Proof.
  intros Hns. unfold trade_of_taker, make_trade. case_bool_decide as Hs; simpl.
  - split; [reflexivity|]. split; [|tauto]. intros _.
    split; [reflexivity|]. split; [reflexivity|]. intros Hl.
    destruct (decide (Price mk ≤ Price o)) as [|Hgt]; [assumption|].
    exfalso. apply Hns. split; [exact Hl|]. left. split; [exact Hs | lia].
  - split; [reflexivity|]. split; [tauto|]. intros _.
    split; [reflexivity|]. split; [reflexivity|]. intros Hl Hsell.
    destruct (decide (Price o ≤ Price mk)) as [|Hgt]; [assumption|].
    exfalso. apply Hns. split; [exact Hl|]. right. split; [exact Hsell | lia].
Qed.

Lemma matchOrder_trades_of_taker (fuel : nat) :
  ∀ ob p acc m ob' tr e m' o,
    matchOrder fuel ob p acc m = Ok (ob', tr, e, m') → m !! p = Some o →
    ∃ new, tr = acc ++ new ∧ Forall (trade_of_taker o) new.
Proof.
  induction fuel as [|n IH]; intros ob p acc m ob' tr e m' o H Hp; [discriminate H|].
  apply matchOrder_inv in H as (o0 & Hp0 & H).
  rewrite Hp in Hp0. injection Hp0 as <-.
  destruct H as [(-> & -> & -> & _) | (_ & q & mk & m1 & mk1 & _ & _ & Hns & Hset & _ & H)].
  { exists []. split; [symmetry; apply app_nil_r | constructor]. }
  pose proof (settle_conserved _ _ _ _ _ _ Hset) as Hc1.
  assert (Hgo : ∀ ob1 m2, store_conserved m1 m2 →
            matchOrder n ob1 p
              (acc ++ [make_trade o mk (Price mk) (min (RemainingQty o) (RemainingQty mk))])
              m2 = Ok (ob', tr, e, m') →
            ∃ new, tr = acc ++ new ∧ Forall (trade_of_taker o) new).
  { intros ob1 m2 Hc2 Hrec.
    destruct (store_conserved_trans _ _ _ Hc1 Hc2 p o Hp) as (o2 & Hp2 & Hco).
    destruct (IH _ _ _ _ _ _ _ _ _ Hrec Hp2) as (new & Htr & Hall).
    exists (make_trade o mk (Price mk) (min (RemainingQty o) (RemainingQty mk)) :: new).
    split; [rewrite Htr, <- app_assoc; reflexivity|].
    constructor; [apply make_trade_of_taker; exact Hns|].
    eapply Forall_impl; [|exact Hall]. intros t. apply trade_of_taker_conserved. exact Hco. }
  destruct H as [(_ & ob1 & ec & m2 & Hcan & [(err & _ & -> & -> & _) | (_ & Hrec)]) | (_ & Hrec)].
  - exists []. split; [symmetry; apply app_nil_r | constructor].
  - exact (Hgo _ _ (CancelOrder_conserved _ _ _ _ _ _ Hcan) Hrec).
  - exact (Hgo _ _ (store_conserved_refl _) Hrec).
Qed.

Lemma processMarketOrder_inv (fuel : nat) (ob : OrderBook) (p : loc) (m : Mem)
    (ob' : OrderBook) (tr : list Trade) (e : option error) (m' : Mem) :
  processMarketOrder fuel ob p m = Ok (ob', tr, e, m') →
  ∃ tr1 e1 m1,
    matchOrder fuel ob p [] m = Ok (ob', tr1, e1, m1)
    ∧ ((∃ err, e1 = Some err ∧ e = Some err ∧ tr = [] ∧ m' = m1)
       ∨ (e1 = None ∧ tr = tr1
          ∧ ∃ o1, m1 !! p = Some o1
            ∧ ((RemainingQty o1 > 0 ∧ e = Some ErrMarketNotFilled
                ∧ m' = <[p := with_Status OrderStatusRejected o1]> m1)
               ∨ (¬ RemainingQty o1 > 0 ∧ e = None ∧ m' = m1)))).
Proof.
  intros H. unfold processMarketOrder in H. step H. destruct a as [[ob1 tr1] [err|]].
  - step H. injection H as -> -> -> ->. exists tr1, (Some err), m0.
    split; [exact E|]. left. exists err. tauto.
  - step H. apply load_inv in E0 as [Hp1 ->]. step H.
    + step H. apply update_inv in E0 as (o1 & Ho1 & ->).
      rewrite Hp1 in Ho1. injection Ho1 as <-.
      step H. injection H as -> -> -> ->. exists tr1, None, m0.
      split; [exact E|]. right. split; [reflexivity|]. split; [reflexivity|].
      exists a. split; [exact Hp1|]. left. apply bool_decide_eq_true_1 in Heqb. tauto.
    + step H. injection H as -> -> -> ->. exists tr1, None, m0.
      split; [exact E|]. right. split; [reflexivity|]. split; [reflexivity|].
      exists a. split; [exact Hp1|]. right. apply bool_decide_eq_false_1 in Heqb. tauto.
Qed.

Lemma ProcessOrder_trades_of_taker (Push : priceLevels → priceLevel → priceLevels)
    (fuel : nat) (me : MatchingEngine) (p : loc) (m : Mem) (o : Order)
    (me' : MatchingEngine) (tr : list Trade) (e : option error) (m' : Mem) :
  m !! p = Some o → ProcessOrder Push fuel me p m = Ok (me', tr, e, m') →
  Forall (trade_of_taker o) tr.
Proof.
  intros Hp H. apply ProcessOrder_inv in H as (o0 & ob' & Hp0 & _ & H).
  rewrite Hp in Hp0. injection Hp0 as <-.
  destruct H as [[_ H] | [_ H]].
  - apply processMarketOrder_inv in H as (tr1 & e1 & m1 & H & Hrest).
    destruct (matchOrder_trades_of_taker _ _ _ _ _ _ _ _ _ _ H Hp) as (new & -> & Hall).
    destruct Hrest as [(err & _ & _ & -> & _) | (_ & -> & _)]; [constructor | exact Hall].
  - destruct H as (ob1 & tr1 & e1 & m1 & H & Hrest).
    destruct (matchOrder_trades_of_taker _ _ _ _ _ _ _ _ _ _ H Hp) as (new & -> & Hall).
    destruct Hrest as [(err & _ & _ & -> & _) | (_ & -> & _)]; [constructor | exact Hall].
Qed.

(** ** The symbol of a book and the keys of the engine *)

Lemma set_side_levels_symbol (buy : bool) (ls : priceLevels) (ob : OrderBook) :
  symbol (set_side_levels buy ls ob) = symbol ob.
Proof. destruct buy; reflexivity. Qed.

Lemma CancelOrder_symbol (ob : OrderBook) (orderID : string) (m : Mem)
    (ob' : OrderBook) (e : option error) (m' : Mem) :
  CancelOrder ob orderID m = Ok (ob', e, m') → symbol ob' = symbol ob.
Proof.
  intros H. unfold CancelOrder in H. repeat (step H).
  all: injection H as -> _ _; try reflexivity.
  apply set_side_levels_symbol.
Qed.

Lemma CancelOrder_errors (ob : OrderBook) (orderID : string) (m : Mem)
    (ob' : OrderBook) (err : error) (m' : Mem) :
  CancelOrder ob orderID m = Ok (ob', Some err, m') →
  ob' = ob ∧ m' = m
  ∧ (err = ErrOrderNotFound orderID ∨ err = ErrAlreadyCancelled orderID).
Proof.
  intros H. unfold CancelOrder in H. repeat (step H).
  all: try discriminate H.
  all: injection H as -> <- ->.
  - apply load_inv in E as [_ ->]. tauto.
  - tauto.
Qed.

Lemma AddOrder_symbol (Push : priceLevels → priceLevel → priceLevels)
    (ob : OrderBook) (p : loc) (m : Mem) (ob' : OrderBook) (e : option error) (m' : Mem) :
  AddOrder Push ob p m = Ok (ob', e, m') → symbol ob' = symbol ob.
Proof.
  intros H. unfold AddOrder in H. repeat (step H).
  all: injection H as -> _ _; try reflexivity.
  rewrite set_side_levels_symbol. reflexivity.
Qed.

Lemma AddOrder_errors (Push : priceLevels → priceLevel → priceLevels)
    (ob : OrderBook) (p : loc) (m : Mem) (ob' : OrderBook) (err : error) (m' : Mem) :
  AddOrder Push ob p m = Ok (ob', Some err, m') →
  ∃ o, m !! p = Some o ∧ err = ErrOrderExists (ID o) ∧ ob' = ob ∧ m' = m.
Proof.
  intros H. unfold AddOrder in H.
  step H. apply load_inv in E as [Hp ->]. exists a.
  step H.
  - step H. injection H as -> <- ->. tauto.
  - repeat (step H). discriminate H.
Qed.

Lemma best_opposite_errors (o : Order) (ob : OrderBook) (x : option loc) (err : error) :
  best_opposite o ob = (x, Some err) →
  err = ErrInvalidSymbol (Symbol o) ∧ Symbol o ≠ symbol ob.
Proof.
  unfold best_opposite, GetBestAsk, GetBestBid.
  repeat case_bool_decide; intros [= <- <-] || intros [=]; tauto.
Qed.

Lemma matchOrder_symbol (fuel : nat) :
  ∀ ob p acc m ob' tr e m',
    matchOrder fuel ob p acc m = Ok (ob', tr, e, m') → symbol ob' = symbol ob.
Proof.
  induction fuel as [|n IH]; intros ob p acc m ob' tr e m' H; [discriminate H|].
  apply matchOrder_inv in H as (o & _ & H).
  destruct H as [(-> & _) | (_ & q & mk & m1 & mk1 & _ & _ & _ & _ & _ & H)];
    [reflexivity|].
  destruct H as [(_ & ob1 & ec & m2 & Hcan & [(err & _ & -> & _) | (_ & Hrec)]) | (_ & Hrec)].
  - exact (CancelOrder_symbol _ _ _ _ _ _ Hcan).
  - rewrite (IH _ _ _ _ _ _ _ _ Hrec). exact (CancelOrder_symbol _ _ _ _ _ _ Hcan).
  - exact (IH _ _ _ _ _ _ _ _ Hrec).
Qed.

Lemma matchOrder_errors (fuel : nat) :
  ∀ ob p acc m ob' tr err m' o,
    matchOrder fuel ob p acc m = Ok (ob', tr, Some err, m') →
    m !! p = Some o → Symbol o = symbol ob → cancel_error err.
Proof.
  induction fuel as [|n IH]; intros ob p acc m ob' tr err m' o H Hp Hsym;
    [discriminate H|].
  apply matchOrder_inv in H as (o0 & Hp0 & H).
  rewrite Hp in Hp0. injection Hp0 as <-.
  destruct H as [(_ & _ & _ & [He | (x & err' & _ & Hb & _)])
                | (_ & q & mk & m1 & mk1 & _ & _ & _ & Hset & _ & H)].
  { discriminate He. }
  { apply best_opposite_errors in Hb as [_ Hb]. contradiction. }
  pose proof (settle_conserved _ _ _ _ _ _ Hset) as Hc1.
  assert (Hgo : ∀ ob1 m2, store_conserved m1 m2 → symbol ob1 = symbol ob →
            ∀ acc', matchOrder n ob1 p acc' m2 = Ok (ob', tr, Some err, m') →
            cancel_error err).
  { intros ob1 m2 Hc2 Hs1 acc' Hrec.
    destruct (store_conserved_trans _ _ _ Hc1 Hc2 p o Hp) as (o2 & Hp2 & Hco).
    apply (IH _ _ _ _ _ _ _ _ _ Hrec Hp2).
    destruct Hco as (_ & _ & -> & _). congruence. }
  destruct H as [(_ & ob1 & ec & m2 & Hcan & [(err' & -> & _ & _ & He & _) | (_ & Hrec)])
                | (_ & Hrec)].
  - injection He as ->. apply CancelOrder_errors in Hcan as (_ & _ & Hcan).
    exists (ID mk1). exact Hcan.
  - exact (Hgo _ _ (CancelOrder_conserved _ _ _ _ _ _ Hcan)
             (CancelOrder_symbol _ _ _ _ _ _ Hcan) _ Hrec).
  - exact (Hgo _ _ (store_conserved_refl _) eq_refl _ Hrec).
Qed.

Lemma well_keyed_empty : well_keyed NewMatchingEngine.
Proof. intros sym ob H. unfold NewMatchingEngine in H. simpl in H.
  rewrite lookup_empty in H. discriminate. Qed.

Lemma put_book_well_keyed (sym : string) (ob : OrderBook) (me : MatchingEngine) :
  well_keyed me → symbol ob = sym → well_keyed (put_book sym ob me).
Proof.
  intros Hme Hob sym' ob' H. unfold put_book in H. simpl in H.
  destruct (decide (sym' = sym)) as [->|Hne].
  - rewrite lookup_insert_eq in H. injection H as <-. exact Hob.
  - rewrite lookup_insert_ne in H by congruence. exact (Hme _ _ H).
Qed.

Lemma book_for_symbol (sym : string) (me : MatchingEngine) :
  well_keyed me → symbol (book_for sym me) = sym.
Proof.
  intros Hme. unfold book_for. destruct (orderBooks me !! sym) as [ob|] eqn:E; simpl.
  - exact (Hme _ _ E).
  - reflexivity.
Qed.

Lemma ensure_book_well_keyed (sym : string) (me : MatchingEngine) :
  well_keyed me → well_keyed (ensure_book sym me).
Proof.
  intros Hme. unfold ensure_book. destruct (orderBooks me !! sym); [exact Hme|].
  apply put_book_well_keyed; [exact Hme | reflexivity].
Qed.

(** [ProcessOrder] on an engine whose books are stored under their symbols:
    the books stay so, and the error, if any, is the refusal of a MARKET
    order, a duplicate id, or an error of the removal of a filled maker. *)
Lemma ProcessOrder_well_keyed (Push : priceLevels → priceLevel → priceLevels)
    (fuel : nat) (me : MatchingEngine) (p : loc) (m : Mem) (o : Order)
    (me' : MatchingEngine) (tr : list Trade) (e : option error) (m' : Mem) :
  well_keyed me → m !! p = Some o →
  ProcessOrder Push fuel me p m = Ok (me', tr, e, m') →
  well_keyed me'
  ∧ ∀ err, e = Some err →
      (Type_ o = MarketOrder ∧ err = ErrMarketNotFilled)
      ∨ (Type_ o ≠ MarketOrder ∧ err = ErrOrderExists (ID o))
      ∨ cancel_error err.
Proof.
  intros Hme Hp H. apply ProcessOrder_inv in H as (o0 & ob' & Hp0 & -> & H).
  rewrite Hp in Hp0. injection Hp0 as <-.
  pose proof (book_for_symbol (Symbol o) me Hme) as Hsym.
  destruct H as [[Ht H] | [Ht H]].
  - apply processMarketOrder_inv in H as (tr1 & e1 & m1 & H & Hrest).
    split.
    + apply put_book_well_keyed; [apply ensure_book_well_keyed; exact Hme|].
      rewrite (matchOrder_symbol _ _ _ _ _ _ _ _ _ H). exact Hsym.
    + intros err ->.
      destruct Hrest as [(err' & -> & [= ->] & _) | (_ & _ & o1 & _ & [(_ & [= ->] & _) | (_ & [=] & _)])].
      * right. right. exact (matchOrder_errors _ _ _ _ _ _ _ _ _ _ H Hp (eq_sym Hsym)).
      * left. tauto.
  - destruct H as (ob1 & tr1 & e1 & m1 & H & Hrest).
    pose proof (matchOrder_symbol _ _ _ _ _ _ _ _ _ H) as Hs1.
    destruct Hrest as [(err' & -> & -> & _ & -> & _) | (-> & _ & o1 & Hp1 & [[_ Ha] | (_ & -> & -> & _)])].
    + split.
      * apply put_book_well_keyed; [apply ensure_book_well_keyed; exact Hme | congruence].
      * intros err [= <-]. right. right.
        exact (matchOrder_errors _ _ _ _ _ _ _ _ _ _ H Hp (eq_sym Hsym)).
    + split.
      * apply put_book_well_keyed; [apply ensure_book_well_keyed; exact Hme|].
        rewrite (AddOrder_symbol _ _ _ _ _ _ _ Ha). congruence.
      * intros err ->. apply AddOrder_errors in Ha as (o1' & Hp1' & -> & _).
        rewrite Hp1 in Hp1'. injection Hp1' as <-.
        destruct (matchOrder_store_conserved _ _ _ _ _ _ _ _ _ H p o Hp)
          as (o1' & Hp1' & Hco).
        rewrite Hp1 in Hp1'. injection Hp1' as <-.
        destruct Hco as (-> & _). right. left. tauto.
    + split.
      * apply put_book_well_keyed; [apply ensure_book_well_keyed; exact Hme | congruence].
      * intros err [=].
Qed.

Lemma MatchingEngine_CancelOrder_well_keyed (visit : list string) :
  ∀ me orderID m me' e m',
    well_keyed me → MatchingEngine_CancelOrder visit me orderID m = Ok (me', e, m') →
    well_keyed me' ∧ ∀ err, e = Some err → cancel_error err.
Proof.
  induction visit as [|sym visit IH]; intros me orderID m me' e m' Hme H.
  - apply mret_inv in H. injection H as -> -> ->. split; [exact Hme|].
    intros err [= <-]. exists orderID. tauto.
  - cbn [MatchingEngine_CancelOrder] in H.
    destruct (orderBooks me !! sym) as [ob|] eqn:Eob; [|exact (IH _ _ _ _ _ _ Hme H)].
    destruct (GetOrder ob orderID) as [q [err|]]; [exact (IH _ _ _ _ _ _ Hme H)|].
    step H. destruct a as [ob' err]. step H. injection H as -> -> ->. split.
    + apply put_book_well_keyed; [exact Hme|].
      rewrite (CancelOrder_symbol _ _ _ _ _ _ E). exact (Hme _ _ Eob).
    + intros err' ->. apply CancelOrder_errors in E as (_ & _ & E).
      exists orderID. exact E.
Qed.

Lemma cancel_error_not_symbol (err : error) : cancel_error err → ¬ symbol_error err.
Proof. intros [id [-> | ->]] [s [H | H]]; discriminate H. Qed.

Lemma CreateOrder_well_keyed (Push : priceLevels → priceLevel → priceLevels)
    (fuel : nat) (me : MatchingEngine) (req : CreateOrderRequest) (id : string)
    (p : loc) (m : Mem) (me' : MatchingEngine) (resp : response) (m' : Mem) :
  well_keyed me → CreateOrder Push fuel me req id p m = Ok (me', resp, m') →
  well_keyed me' ∧ ∀ err, reply_error (Http resp) = Some err → ¬ symbol_error err.
Proof.
  intros Hme H. unfold CreateOrder in H.
  repeat (step H).
  all: try (injection H as -> -> ->; split; [exact Hme | intros err [=]]).
  all: injection H as -> -> ->.
  all: destruct (ProcessOrder_inv _ _ _ _ _ _ _ _ _ E0) as (o' & _ & Hp & _).
  all: destruct (ProcessOrder_well_keyed _ _ _ _ _ _ _ _ _ _ Hme Hp E0) as [Hme' He].
  all: split; [exact Hme'|]; intros err' [= <-].
  destruct (He _ eq_refl) as [[_ ->] | [[_ ->] | Hc]].
  - intros [s [Hs | Hs]]; discriminate Hs.
  - intros [s [Hs | Hs]]; discriminate Hs.
  - exact (cancel_error_not_symbol _ Hc).
Qed.

Lemma run_well_keyed (Push : priceLevels → priceLevel → priceLevels) (fuel : nat)
    (rs : list request) :
  ∀ me m me' replies m',
    well_keyed me → run Push fuel rs me m = Ok (me', replies, m') →
    well_keyed me'
    ∧ Forall (λ r, ∀ err, reply_error r = Some err → ¬ symbol_error err) replies.
Proof.
  induction rs as [|r rs IH]; intros me m me' replies m' Hme H.
  - apply mret_inv in H. injection H as -> -> ->. split; [exact Hme | constructor].
  - cbn [run] in H. step H. destruct a as [me1 a].
    step H. destruct a0 as [me2 out]. apply mret_inv in H. injection H as -> -> ->.
    assert (Hstep : well_keyed me1
                    ∧ ∀ err, reply_error a = Some err → ¬ symbol_error err).
    { destruct r as [p | req id p | visit orderID].
      - step E. destruct a0 as [[me3 tr] e]. apply mret_inv in E.
        injection E as -> -> ->.
        destruct (ProcessOrder_inv _ _ _ _ _ _ _ _ _ E1) as (o & _ & Hp & _).
        destruct (ProcessOrder_well_keyed _ _ _ _ _ _ _ _ _ _ Hme Hp E1) as [Hme' He].
        split; [exact Hme'|]. simpl. intros err ->.
        destruct (He _ eq_refl) as [[_ ->] | [[_ ->] | Hc]].
        + intros [s [Hs | Hs]]; discriminate Hs.
        + intros [s [Hs | Hs]]; discriminate Hs.
        + exact (cancel_error_not_symbol _ Hc).
      - step E. destruct a0 as [me3 resp]. apply mret_inv in E.
        injection E as -> -> ->.
        exact (CreateOrder_well_keyed _ _ _ _ _ _ _ _ _ _ Hme E1).
      - step E. destruct a0 as [me3 e]. apply mret_inv in E.
        injection E as -> -> ->.
        destruct (MatchingEngine_CancelOrder_well_keyed _ _ _ _ _ _ _ Hme E1) as [Hme' He].
        split; [exact Hme'|]. simpl. intros err ->.
        exact (cancel_error_not_symbol _ (He _ eq_refl)). }
    destruct Hstep as [Hme1 Ha].
    destruct (IH _ _ _ _ _ Hme1 E0) as [Hme2 Hout].
    split; [exact Hme2 | constructor; assumption].
Qed.

Lemma GetOrderBook_well_keyed (me : MatchingEngine) (sym : string) :
  well_keyed me →
  (orderBooks me !! sym = None
   ∧ GetOrderBook me sym = (None, Some (ErrBookNotFound sym)))
  ∨ (∃ ob, orderBooks me !! sym = Some ob
     ∧ GetOrderBook me sym
       = (Some (mkSnapshot sym (snapshot_levels (bids ob)) (snapshot_levels (asks ob))),
          None)).
Proof.
  intros Hme. unfold GetOrderBook. destruct (orderBooks me !! sym) as [ob|] eqn:E.
  - right. exists ob. split; [reflexivity|]. unfold GetOrderBookSnapshot.
    rewrite (Hme _ _ E). rewrite bool_decide_eq_false_2 by (intros Hne; apply Hne; reflexivity).
    reflexivity.
  - left. split; reflexivity.
Qed.

(** the symbol check of the books is never failed through the engine. *)
Theorem books_are_keyed_by_their_symbol (Push : priceLevels → priceLevel → priceLevels)
    (fuel : nat) (rs : list request) (m : Mem)
    (me : MatchingEngine) (replies : list reply) (m' : Mem) :
  run Push fuel rs NewMatchingEngine m = Ok (me, replies, m') →
  well_keyed me
  ∧ Forall (λ r, ∀ err, reply_error r = Some err → ¬ symbol_error err) replies
  ∧ ∀ sym,
      (book_of me sym = None ∧ GetOrderBook me sym = (None, Some (ErrBookNotFound sym)))
      ∨ (∃ ob, book_of me sym = Some ob
         ∧ GetOrderBook me sym
           = (Some (mkSnapshot sym (snapshot_levels (bids ob))
                               (snapshot_levels (asks ob))), None)).
Proof.
  intros H. destruct (run_well_keyed _ _ _ _ _ _ _ _ well_keyed_empty H) as [Hme Hr].
  split; [exact Hme|]. split; [exact Hr|].
  intros sym. exact (GetOrderBook_well_keyed me sym Hme).
Qed.

Lemma books_are_keyed_by_their_symbol_witness :
  ∃ me replies m',
    run priceLevels_Push_ptr 8 [Submit p1; Submit p2; Submit p3; Cancel ["X"] "B"]
        NewMatchingEngine S2_store = Ok (me, replies, m')
    ∧ well_keyed me
    ∧ Forall (λ r, ∀ err, reply_error r = Some err → ¬ symbol_error err) replies
    ∧ ∀ sym,
        (book_of me sym = None ∧ GetOrderBook me sym = (None, Some (ErrBookNotFound sym)))
        ∨ (∃ ob, book_of me sym = Some ob
           ∧ GetOrderBook me sym
             = (Some (mkSnapshot sym (snapshot_levels (bids ob))
                                 (snapshot_levels (asks ob))), None)).
Proof.
  eexists _, _, _. split; [vm_compute; reflexivity|].
  eapply (books_are_keyed_by_their_symbol priceLevels_Push_ptr 8
            [Submit p1; Submit p2; Submit p3; Cancel ["X"] "B"] S2_store).
  vm_compute. reflexivity.
Defined.

(** ** Levels are never removed *)

Lemma levels_shrunk_refl (ls : priceLevels) : levels_shrunk ls ls.
Proof. apply Forall2_same_length_lookup_2; [reflexivity|].
  intros i l l' H H'. rewrite H in H'. injection H' as <-. split; reflexivity. Qed.

Lemma levels_shrunk_trans (l1 l2 l3 : priceLevels) :
  levels_shrunk l1 l2 → levels_shrunk l2 l3 → levels_shrunk l1 l3.
Proof.
  unfold levels_shrunk. intros H12. revert l3.
  induction H12 as [|a b l1 l2 [Hp Hs] _ IH]; intros l3 H23.
  - inversion H23. constructor.
  - inversion H23 as [|b' c l2' l3' [Hp' Hs'] Ht]; subst. constructor.
    + split; [congruence | etransitivity; eassumption].
    + apply IH. exact Ht.
Qed.

Lemma book_shrunk_refl (ob : OrderBook) : book_shrunk ob ob.
Proof. split; apply levels_shrunk_refl. Qed.

Lemma book_shrunk_trans (o1 o2 o3 : OrderBook) :
  book_shrunk o1 o2 → book_shrunk o2 o3 → book_shrunk o1 o3.
Proof. intros [? ?] [? ?]. split; eapply levels_shrunk_trans; eassumption. Qed.

Lemma levels_shrunk_insert (ls : priceLevels) (k : nat) (l l' : priceLevel) :
  ls !! k = Some l → price l' = price l → sublist (orders l') (orders l) →
  levels_shrunk ls (<[k := l']> ls).
Proof.
  revert k. induction ls as [|x ls IH]; intros [|k] H Hp Hs; simpl in *; try discriminate.
  - injection H as ->. constructor; [tauto | apply levels_shrunk_refl].
  - constructor; [split; reflexivity | exact (IH _ H Hp Hs)].
Qed.

Lemma set_side_levels_shrunk (buy : bool) (ls : priceLevels) (ob : OrderBook) :
  levels_shrunk (side_levels buy ob) ls → book_shrunk ob (set_side_levels buy ls ob).
Proof.
  destruct buy; simpl; intros H; split; simpl;
    first [exact H | apply levels_shrunk_refl].
Qed.

Lemma CancelOrder_shrunk (ob : OrderBook) (orderID : string) (m : Mem)
    (ob' : OrderBook) (e : option error) (m' : Mem) :
  CancelOrder ob orderID m = Ok (ob', e, m') → book_shrunk ob ob'.
Proof.
  intros H. unfold CancelOrder in H. repeat (step H).
  all: injection H as -> _ _; try apply book_shrunk_refl.
  apply set_side_levels_shrunk.
  eapply levels_shrunk_insert; [eassumption | reflexivity|]. simpl.
  apply sublist_delete.
Qed.

Lemma matchOrder_shrunk (fuel : nat) :
  ∀ ob p acc m ob' tr e m',
    matchOrder fuel ob p acc m = Ok (ob', tr, e, m') → book_shrunk ob ob'.
Proof.
  induction fuel as [|n IH]; intros ob p acc m ob' tr e m' H; [discriminate H|].
  apply matchOrder_inv in H as (o & _ & H).
  destruct H as [(-> & _) | (_ & q & mk & m1 & mk1 & _ & _ & _ & _ & _ & H)];
    [apply book_shrunk_refl|].
  destruct H as [(_ & ob1 & ec & m2 & Hcan & [(err & _ & -> & _) | (_ & Hrec)]) | (_ & Hrec)].
  - exact (CancelOrder_shrunk _ _ _ _ _ _ Hcan).
  - exact (book_shrunk_trans _ _ _ (CancelOrder_shrunk _ _ _ _ _ _ Hcan)
             (IH _ _ _ _ _ _ _ _ Hrec)).
  - exact (IH _ _ _ _ _ _ _ _ Hrec).
Qed.

Lemma levels_shrunk_facts (ls ls' : priceLevels) :
  levels_shrunk ls ls' →
  price <$> ls' = price <$> ls
  ∧ sublist (flat_map orders ls') (flat_map orders ls).
Proof.
  induction 1 as [|l l' ls ls' [Hp Hs] _ [IHp IHs]].
  - split; reflexivity.
  - split; [rewrite !fmap_cons, Hp, IHp; reflexivity|].
    simpl. apply sublist_app; assumption.
Qed.

Lemma book_shrunk_facts (ob ob' : OrderBook) :
  book_shrunk ob ob' →
  price <$> bids ob' = price <$> bids ob
  ∧ price <$> asks ob' = price <$> asks ob
  ∧ sublist (resting ob') (resting ob).
Proof.
  intros [Hb Ha]. apply levels_shrunk_facts in Hb as [Hb1 Hb2].
  apply levels_shrunk_facts in Ha as [Ha1 Ha2].
  split; [exact Hb1|]. split; [exact Ha1|].
  unfold resting. rewrite !flat_map_app. apply sublist_app; assumption.
Qed.

(** ** The counters of the taker *)

Lemma quantities_kept_refl (m : Mem) : quantities_kept m m.
Proof. intros r o H. exists o. tauto. Qed.

Lemma quantities_kept_trans (m1 m2 m3 : Mem) :
  quantities_kept m1 m2 → quantities_kept m2 m3 → quantities_kept m1 m3.
Proof.
  intros H12 H23 r o H. destruct (H12 r o H) as (o2 & H2 & F2 & R2).
  destruct (H23 r o2 H2) as (o3 & H3 & F3 & R3).
  exists o3. split; [exact H3|]. split; congruence.
Qed.

Lemma update_status_quantities (p : loc) (s : OrderStatus) (m m' : Mem) (u : unit) :
  update p (with_Status s) m = Ok (u, m') → quantities_kept m m'.
Proof.
  intros H. apply update_inv in H as (o & Ho & ->). intros r o' Hr.
  destruct (decide (r = p)) as [->|Hne].
  - rewrite Ho in Hr. injection Hr as <-. eexists.
    split; [apply lookup_insert_eq|]. split; reflexivity.
  - exists o'. rewrite lookup_insert_ne by congruence. tauto.
Qed.

Lemma updateOrderStatus_quantities (p : loc) (m m' : Mem) (u : unit) :
  updateOrderStatus p m = Ok (u, m') → quantities_kept m m'.
Proof.
  intros H. unfold updateOrderStatus in H. step H. apply load_inv in E as [_ ->].
  step H; [|step H].
  - exact (update_status_quantities _ _ _ _ _ H).
  - exact (update_status_quantities _ _ _ _ _ H).
  - step H. injection H as _ ->. apply quantities_kept_refl.
Qed.

Lemma CancelOrder_quantities (ob : OrderBook) (orderID : string) (m : Mem)
    (ob' : OrderBook) (e : option error) (m' : Mem) :
  CancelOrder ob orderID m = Ok (ob', e, m') → quantities_kept m m'.
Proof.
  intros H. unfold CancelOrder in H.
  repeat (step H). all: injection H as _ _ ->.
  all: repeat match goal with
              | E : load _ _ = Ok _ |- _ => apply load_inv in E as [? ->]
              | E : find_order _ _ _ = Ok _ |- _ => apply find_order_store in E; subst
              | E : update _ (with_Status _) _ = Ok _ |- _ =>
                  apply update_status_quantities in E
              end.
  all: eauto using quantities_kept_refl.
Qed.

(** The counters of the taker after the writes of one turn, when the maker is
    another object. *)
Lemma settle_taker (p q : loc) (tradeQty : Z) (m m' : Mem) (u : unit) (o : Order) :
  settle p q tradeQty m = Ok (u, m') → m !! p = Some o → p ≠ q →
  ∃ o', m' !! p = Some o' ∧ FilledQty o' = FilledQty o + tradeQty
        ∧ RemainingQty o' = RemainingQty o - tradeQty.
Proof.
  intros H Hp Hne. unfold settle in H.
  step H. apply update_inv in E as (o0 & Ho0 & ->).
  rewrite Hp in Ho0. injection Ho0 as <-.
  step H. apply update_inv in E as (mk & Hmk & ->).
  step H. apply updateOrderStatus_quantities in E.
  apply updateOrderStatus_quantities in H.
  destruct (quantities_kept_trans _ _ _ E H p (fill tradeQty o)) as (o' & Hp' & F & R).
  { rewrite lookup_insert_ne by congruence. apply lookup_insert_eq. }
  exists o'. split; [exact Hp'|]. split; [rewrite F | rewrite R]; reflexivity.
Qed.

Lemma best_of_resting (ls : priceLevels) (q : loc) :
  best_of ls = Some q → q ∈ flat_map orders ls.
Proof.
  destruct ls as [|l ls]; [discriminate|]. simpl.
  destruct (orders l) as [|x os] eqn:E; [discriminate|]. intros [= ->].
  apply elem_of_app. left. left.
Qed.

Lemma best_opposite_resting (o : Order) (ob : OrderBook) (q : loc) (e : option error) :
  best_opposite o ob = (Some q, e) → q ∈ resting ob.
Proof.
  unfold best_opposite, GetBestAsk, GetBestBid, resting. rewrite flat_map_app.
  repeat case_bool_decide; intros [= Hq]; try discriminate.
  - apply elem_of_app. right. apply best_of_resting. exact Hq.
  - apply elem_of_app. left. apply best_of_resting. exact Hq.
Qed.

Lemma traded_app (ts ts' : list Trade) : traded (ts ++ ts') = traded ts + traded ts'.
Proof. unfold traded. induction ts as [|t ts IH]; simpl; [reflexivity | lia]. Qed.

Lemma matchOrder_taker_counters (fuel : nat) :
  ∀ ob p acc m ob' tr m' o,
    matchOrder fuel ob p acc m = Ok (ob', tr, None, m') →
    m !! p = Some o → p ∉ resting ob →
    ∃ new o', tr = acc ++ new ∧ m' !! p = Some o'
              ∧ FilledQty o' = FilledQty o + traded new
              ∧ RemainingQty o' = RemainingQty o - traded new.
Proof.
  induction fuel as [|n IH]; intros ob p acc m ob' tr m' o H Hp Hrest; [discriminate H|].
  apply matchOrder_inv in H as (o0 & Hp0 & H).
  rewrite Hp in Hp0. injection Hp0 as <-.
  destruct H as [(-> & -> & -> & _) | (_ & q & mk & m1 & mk1 & Hb & _ & _ & Hset & _ & H)].
  { exists [], o. split; [symmetry; apply app_nil_r|]. split; [exact Hp|].
    unfold traded. simpl. lia. }
  assert (Hne : p ≠ q).
  { intros ->. apply Hrest. exact (best_opposite_resting _ _ _ _ Hb). }
  destruct (settle_taker _ _ _ _ _ _ _ Hset Hp Hne) as (o1 & Hp1 & F1 & R1).
  set (t := make_trade o mk (Price mk) (min (RemainingQty o) (RemainingQty mk))) in *.
  assert (Ht : TQuantity t = min (RemainingQty o) (RemainingQty mk)).
  { unfold t, make_trade. case_bool_decide; reflexivity. }
  assert (Hgo : ∀ ob1 m2, quantities_kept m1 m2 → book_shrunk ob ob1 →
            matchOrder n ob1 p (acc ++ [t]) m2 = Ok (ob', tr, None, m') →
            ∃ new o', tr = acc ++ new ∧ m' !! p = Some o'
                      ∧ FilledQty o' = FilledQty o + traded new
                      ∧ RemainingQty o' = RemainingQty o - traded new).
  { intros ob1 m2 Hk Hsh Hrec.
    destruct (Hk p o1 Hp1) as (o2 & Hp2 & F2 & R2).
    assert (Hrest1 : p ∉ resting ob1).
    { intros Hin. apply Hrest. apply book_shrunk_facts in Hsh as (_ & _ & Hsub).
      exact (elem_of_sublist _ _ _ Hin Hsub). }
    destruct (IH _ _ _ _ _ _ _ _ Hrec Hp2 Hrest1) as (new & o' & Htr & Hp' & F' & R').
    exists (t :: new), o'. split; [rewrite Htr, <- app_assoc; reflexivity|].
    split; [exact Hp'|]. change (traded (t :: new)) with (TQuantity t + traded new).
    rewrite F', R', F2, R2, F1, R1, Ht. split; lia. }
  destruct H as [(_ & ob1 & ec & m2 & Hcan & [(err & _ & _ & _ & He & _) | (_ & Hrec)])
                | (_ & Hrec)].
  - discriminate He.
  - exact (Hgo _ _ (CancelOrder_quantities _ _ _ _ _ _ Hcan)
             (CancelOrder_shrunk _ _ _ _ _ _ Hcan) Hrec).
  - exact (Hgo _ _ (quantities_kept_refl _) (book_shrunk_refl _) Hrec).
Qed.

(** ** Cancelling through the engine and the handler *)

Lemma MatchingEngine_CancelOrder_unknown (visit : list string) (me : MatchingEngine)
    (orderID : string) (m : Mem) :
  (∀ sym ob, sym ∈ visit → orderBooks me !! sym = Some ob →
             ob_orders ob !! orderID = None) →
  MatchingEngine_CancelOrder visit me orderID m
  = Ok (me, Some (ErrOrderNotFound orderID), m).
Proof.
  induction visit as [|sym visit IH]; intros Hno; [reflexivity|].
  cbn [MatchingEngine_CancelOrder].
  destruct (orderBooks me !! sym) as [ob|] eqn:Eob.
  - unfold GetOrder. rewrite (Hno sym ob ltac:(left) Eob).
    apply IH. intros s o Hs. apply Hno. right. exact Hs.
  - apply IH. intros s o Hs. apply Hno. right. exact Hs.
Qed.

(** A cancel that succeeds was done by the first visited book that holds the
    id. *)
Lemma MatchingEngine_CancelOrder_inv (visit : list string) :
  ∀ me orderID m me' m',
    MatchingEngine_CancelOrder visit me orderID m = Ok (me', None, m') →
    ∃ pre sym post ob q ob',
      visit = pre ++ sym :: post
      ∧ (∀ s o, s ∈ pre → orderBooks me !! s = Some o → ob_orders o !! orderID = None)
      ∧ orderBooks me !! sym = Some ob ∧ ob_orders ob !! orderID = Some q
      ∧ CancelOrder ob orderID m = Ok (ob', None, m')
      ∧ me' = put_book sym ob' me.
Proof.
  induction visit as [|sym visit IH]; intros me orderID m me' m' H.
  - apply mret_inv in H. discriminate H.
  - cbn [MatchingEngine_CancelOrder] in H.
    assert (Hnext : (∀ o, orderBooks me !! sym = Some o → ob_orders o !! orderID = None) →
              MatchingEngine_CancelOrder visit me orderID m = Ok (me', None, m') →
              ∃ pre sym0 post ob q ob',
                sym :: visit = pre ++ sym0 :: post
                ∧ (∀ s o, s ∈ pre → orderBooks me !! s = Some o →
                          ob_orders o !! orderID = None)
                ∧ orderBooks me !! sym0 = Some ob ∧ ob_orders ob !! orderID = Some q
                ∧ CancelOrder ob orderID m = Ok (ob', None, m')
                ∧ me' = put_book sym0 ob' me).
    { intros Hsym Hrec.
      destruct (IH _ _ _ _ _ Hrec) as (pre & s0 & post & ob & q & ob' & -> & Hpre & Hrest).
      exists (sym :: pre), s0, post, ob, q, ob'. split; [reflexivity|].
      split; [|exact Hrest]. intros s o Hs Ho.
      apply elem_of_cons in Hs as [-> | Hs]; [exact (Hsym _ Ho) | exact (Hpre _ _ Hs Ho)]. }
    destruct (orderBooks me !! sym) as [ob|] eqn:Eob; [|apply Hnext; [discriminate | exact H]].
    unfold GetOrder in H. destruct (ob_orders ob !! orderID) as [q|] eqn:Eq.
    + step H. destruct a as [ob' e]. step H. injection H as -> -> ->.
      exists [], sym, visit, ob, q, ob'. split; [reflexivity|].
      split; [intros s o Hs; inversion Hs|]. tauto.
    + apply Hnext; [|exact H]. intros o [= <-]. exact Eq.
Qed.

Lemma CancelOrder_done (ob : OrderBook) (orderID : string) (m : Mem)
    (ob' : OrderBook) (m' : Mem) :
  CancelOrder ob orderID m = Ok (ob', None, m') →
  ∃ q o, ob_orders ob !! orderID = Some q ∧ m !! q = Some o
         ∧ Status o ≠ OrderStatusCancelled
         ∧ m' = <[q := with_Status OrderStatusCancelled o]> m.
Proof.
  intros H. unfold CancelOrder in H.
  step H; [|step H; discriminate H].
  step H. apply load_inv in E as [Hq ->].
  step H; [step H; discriminate H|]. apply bool_decide_eq_false_1 in Heqb.
  step H. apply update_inv in E as (o & Ho & ->).
  rewrite Hq in Ho. injection Ho as <-.
  exists l, a. split; [reflexivity|]. split; [exact Hq|]. split; [exact Heqb|].
  repeat (step H).
  all: try match goal with
           | F : find_order _ _ _ = Ok _ |- _ => apply find_order_store in F; subst
           end.
  all: injection H as _ ->; reflexivity.
Qed.

Lemma MatchingEngine_CancelOrder_twice (visit : list string) (me : MatchingEngine)
    (orderID : string) (m : Mem) (me' : MatchingEngine) (m' : Mem) :
  MatchingEngine_CancelOrder visit me orderID m = Ok (me', None, m') →
  MatchingEngine_CancelOrder visit me' orderID m'
  = Ok (me', Some (ErrAlreadyCancelled orderID), m').
Proof.
  intros H.
  apply MatchingEngine_CancelOrder_inv in H
    as (pre & sym & post & ob & q & ob' & -> & Hpre & Hob & Hq & Hcan & ->).
  pose proof (CancelOrder_keeps_id_map _ _ _ _ _ _ Hcan) as Hmap.
  destruct (CancelOrder_done _ _ _ _ _ Hcan) as (q' & o & Hq' & Ho & _ & ->).
  rewrite Hq in Hq'. injection Hq' as <-.
  induction pre as [|s pre IH].
  - cbn [app MatchingEngine_CancelOrder]. unfold put_book at 1. simpl.
    rewrite lookup_insert_eq. unfold GetOrder. rewrite Hmap, Hq.
    rewrite (bind_ok _ _ _ _ _
               (CancelOrder_again ob' orderID _ q (with_Status OrderStatusCancelled o)
                  ltac:(rewrite Hmap; exact Hq) ltac:(apply lookup_insert_eq) eq_refl)).
    unfold put_book. simpl. rewrite insert_insert_eq. reflexivity.
  - cbn [app MatchingEngine_CancelOrder].
    assert (Hs : ∀ o', orderBooks (put_book sym ob' me) !! s = Some o' →
                       ob_orders o' !! orderID = None).
    { intros o' Ho'. unfold put_book in Ho'. simpl in Ho'.
      destruct (decide (s = sym)) as [->|Hne].
      - pose proof (Hpre sym ob ltac:(left) Hob) as Hn. congruence.
      - rewrite lookup_insert_ne in Ho' by congruence.
        exact (Hpre s o' ltac:(left) Ho'). }
    destruct (orderBooks (put_book sym ob' me) !! s) as [o'|] eqn:Eo'.
    + unfold GetOrder. rewrite (Hs o' eq_refl).
      apply IH. intros s' o'' Hin. apply Hpre. right. exact Hin.
    + apply IH. intros s' o'' Hin. apply Hpre. right. exact Hin.
Qed.

(** ** What the calls keep of the order objects *)

Lemma alloc_kept (p : loc) (o : Order) (m m' : Mem) (u : unit) :
  m !! p = None → alloc p o m = Ok (u, m') → store_kept m m'.
Proof.
  intros Hp H. unfold alloc in H. injection H as _ <-. intros r o' Hr.
  exists o'. split; [|split; [repeat split | tauto]].
  rewrite lookup_insert_ne; [exact Hr|]. intros ->. congruence.
Qed.

Lemma CreateOrder_kept (Push : priceLevels → priceLevel → priceLevels)
    (fuel : nat) (me : MatchingEngine) (req : CreateOrderRequest) (id : string)
    (p : loc) (m : Mem) (me' : MatchingEngine) (resp : response) (m' : Mem) :
  m !! p = None → CreateOrder Push fuel me req id p m = Ok (me', resp, m') →
  store_kept m m'.
Proof.
  intros Hp H. unfold CreateOrder in H.
  repeat (step H).
  all: try (injection H as _ _ ->; apply store_kept_refl).
  all: injection H as _ _ ->.
  all: apply (alloc_kept _ _ _ _ _ Hp) in E.
  all: apply ProcessOrder_kept in E0.
  all: exact (store_kept_trans _ _ _ E E0).
Qed.

(** No call changes the terms of an order object, and none but the
    re-initialisation of [AddOrder] changes the sum of its two counters.
    - The matching loop, the cancel of a book and the cancel of the engine
      leave every object of the store in place with its id, user, symbol,
      type, side, price, quantity and stop price, and with the same sum of
      filled and remaining quantity.
    - [ProcessOrder], and [CreateOrder] on a new address, keep the terms of
      every object, and an object whose filled and remaining quantities added
      up to its quantity before the call still has them add up after it.
    The sums are sums of exact numbers, as quantities are in this model; in
    [float64] a fill keeps the sum of the two counters up to rounding only. *)
Theorem orders_keep_terms_and_balance (Push : priceLevels → priceLevel → priceLevels)
    (fuel : nat) :
  (∀ ob p acc m ob' tr e m',
      matchOrder fuel ob p acc m = Ok (ob', tr, e, m') → store_conserved m m')
  ∧ (∀ ob orderID m ob' e m',
      CancelOrder ob orderID m = Ok (ob', e, m') → store_conserved m m')
  ∧ (∀ visit me orderID m me' e m',
      MatchingEngine_CancelOrder visit me orderID m = Ok (me', e, m') →
      store_conserved m m')
  ∧ (∀ me p m me' tr e m',
      ProcessOrder Push fuel me p m = Ok (me', tr, e, m') → store_kept m m')
  ∧ (∀ me req id p m me' resp m',
      m !! p = None → CreateOrder Push fuel me req id p m = Ok (me', resp, m') →
      store_kept m m').
Proof.
  split; [exact (matchOrder_store_conserved fuel)|].
  split; [exact CancelOrder_conserved|].
  split; [intros visit; exact (MatchingEngine_CancelOrder_conserved visit)|].
  split; [exact (ProcessOrder_kept Push fuel)|].
  exact (CreateOrder_kept Push fuel).
Qed.

Lemma orders_keep_terms_and_balance_witness :
  (∃ me' tr e m',
      ProcessOrder priceLevels_Push_ptr 8 S1_engine p2 S1_store = Ok (me', tr, e, m')
      ∧ store_kept S1_store m')
  ∧ (∃ me' e m',
      MatchingEngine_CancelOrder ["X"] S1_engine "b" S1_store = Ok (me', e, m')
      ∧ store_conserved S1_store m').
Proof.
  split.
  - eexists _, _, _, _.
    refine ((λ H, conj H (proj1 (proj2 (proj2 (proj2
               (orders_keep_terms_and_balance priceLevels_Push_ptr 8))))
               S1_engine p2 S1_store _ _ _ _ H)) _).
    vm_compute. reflexivity.
  - eexists _, _, _.
    refine ((λ H, conj H (proj1 (proj2 (proj2
               (orders_keep_terms_and_balance priceLevels_Push_ptr 8)))
               ["X"] S1_engine "b" S1_store _ _ _ H)) _).
    vm_compute. reflexivity.
Defined.

(** ** Trades *)

(** Every trade [ProcessOrder] returns is a trade of the submitted order:
    it is on the symbol of the order; the order is its buyer when its side is
    BUY and its seller otherwise, under its own id and user; and when the
    order is a LIMIT order the trade price is not above its price for a BUY
    and not below it for a SELL. *)
Theorem trades_are_within_the_limit (Push : priceLevels → priceLevel → priceLevels)
    (fuel : nat) (me : MatchingEngine) (p : loc) (m : Mem) (o : Order)
    (me' : MatchingEngine) (tr : list Trade) (e : option error) (m' : Mem) :
  m !! p = Some o → ProcessOrder Push fuel me p m = Ok (me', tr, e, m') →
  Forall (trade_of_taker o) tr.
Proof. apply ProcessOrder_trades_of_taker. Qed.

Lemma trades_are_within_the_limit_witness :
  ∃ me' e m',
    ProcessOrder priceLevels_Push 8 S1_engine p2 S1_store = Ok (me', [S1_trade], e, m')
    ∧ Forall (trade_of_taker (limit "s" SellOrder 60 10)) [S1_trade].
Proof.
  eexists _, _, _.
  refine ((λ H, conj H (trades_are_within_the_limit priceLevels_Push 8 S1_engine p2
                          S1_store (limit "s" SellOrder 60 10) _ _ _ _ eq_refl H)) _).
  vm_compute. reflexivity.
Defined.

(** The counters of the taker account for its trades.  When the order
    under [p] is not itself among the orders resting in the book and the loop
    returns without error, the trades it has added move exactly the quantity
    by which the filled quantity of the order went up and its remaining
    quantity went down.  Quantities are exact numbers, as in this model; in
    [float64] the two equations hold up to rounding only. *)
Theorem taker_counters_account_for_trades (fuel : nat) (ob : OrderBook) (p : loc)
    (acc : list Trade) (m : Mem) (o : Order)
    (ob' : OrderBook) (tr : list Trade) (m' : Mem) :
  m !! p = Some o → p ∉ resting ob →
  matchOrder fuel ob p acc m = Ok (ob', tr, None, m') →
  ∃ new o', tr = acc ++ new ∧ m' !! p = Some o'
            ∧ FilledQty o' = FilledQty o + traded new
            ∧ RemainingQty o' = RemainingQty o - traded new.
Proof. intros Hp Hr H. exact (matchOrder_taker_counters _ _ _ _ _ _ _ _ _ H Hp Hr). Qed.

Lemma taker_counters_account_for_trades_witness :
  ∃ ob' m',
    matchOrder 8 S1_book p2 [] S1_store = Ok (ob', [S1_trade], None, m')
    ∧ ∃ new o', [S1_trade] = [] ++ new ∧ m' !! p2 = Some o'
                ∧ FilledQty o' = FilledQty (limit "s" SellOrder 60 10) + traded new
                ∧ RemainingQty o'
                  = RemainingQty (limit "s" SellOrder 60 10) - traded new.
Proof.
  eexists _, _.
  refine ((λ H, conj H (taker_counters_account_for_trades 8 S1_book p2 [] S1_store
                          (limit "s" SellOrder 60 10) _ _ _ eq_refl _ H)) _).
  - intros Hin. apply list_elem_of_singleton in Hin. discriminate Hin.
  - vm_compute. reflexivity.
Defined.

(** Matching never removes or reprices a level, and never adds an
    order.  After the loop each side of the book has the same levels at the
    same places and prices; what rests afterwards is a part of what rested
    before, in the same order; the id map and the symbol are as they were.
    A level whose last order was filled therefore stays in its slice, empty. *)
Theorem matching_keeps_every_level (fuel : nat) (ob : OrderBook) (p : loc)
    (acc : list Trade) (m : Mem)
    (ob' : OrderBook) (tr : list Trade) (e : option error) (m' : Mem) :
  matchOrder fuel ob p acc m = Ok (ob', tr, e, m') →
  price <$> bids ob' = price <$> bids ob
  ∧ price <$> asks ob' = price <$> asks ob
  ∧ sublist (resting ob') (resting ob)
  ∧ ob_orders ob' = ob_orders ob
  ∧ symbol ob' = symbol ob.
Proof.
  intros H.
  destruct (book_shrunk_facts _ _ (matchOrder_shrunk _ _ _ _ _ _ _ _ _ H))
    as (Hb & Ha & Hs).
  split; [exact Hb|]. split; [exact Ha|]. split; [exact Hs|].
  split; [exact (matchOrder_keeps_id_map _ _ _ _ _ _ _ _ _ H)
         | exact (matchOrder_symbol _ _ _ _ _ _ _ _ _ H)].
Qed.

Lemma matching_keeps_every_level_witness :
  ∃ tr e m',
    matchOrder 8 S4_book_A p3 [] S4_store
    = Ok (mkBook "X" [] [mkLevel 7 [] 10] {[ "A" := p1 ]}, tr, e, m')
    ∧ price <$> bids (mkBook "X" [] [mkLevel 7 [] 10] {[ "A" := p1 ]})
      = price <$> bids S4_book_A
    ∧ price <$> asks (mkBook "X" [] [mkLevel 7 [] 10] {[ "A" := p1 ]})
      = price <$> asks S4_book_A
    ∧ sublist (resting (mkBook "X" [] [mkLevel 7 [] 10] {[ "A" := p1 ]}))
              (resting S4_book_A)
    ∧ ob_orders (mkBook "X" [] [mkLevel 7 [] 10] {[ "A" := p1 ]}) = ob_orders S4_book_A
    ∧ symbol (mkBook "X" [] [mkLevel 7 [] 10] {[ "A" := p1 ]}) = symbol S4_book_A.
Proof.
  eexists _, _, _.
  refine ((λ H, conj H (matching_keeps_every_level 8 S4_book_A p3 [] S4_store
                          _ _ _ _ H)) _).
  vm_compute. reflexivity.
Defined.

(** ** MARKET orders *)

Lemma put_book_other (sym s : string) (ob : OrderBook) (me : MatchingEngine) :
  s ≠ sym → book_of (put_book sym ob me) s = book_of me s.
Proof. intros H. unfold book_of, put_book. simpl. apply lookup_insert_ne. congruence. Qed.

Lemma ensure_book_other (sym s : string) (me : MatchingEngine) :
  s ≠ sym → book_of (ensure_book sym me) s = book_of me s.
Proof.
  intros H. unfold ensure_book. destruct (orderBooks me !! sym); [reflexivity|].
  apply put_book_other. exact H.
Qed.

Lemma matchOrder_never_unfilled (n : nat) :
  ∀ ob p acc m ob' tr' m',
    matchOrder n ob p acc m ≠ Ok (ob', tr', Some ErrMarketNotFilled, m').
Proof.
  induction n as [|n IH]; intros ob p acc m ob' tr' m' H; [discriminate H|].
  apply matchOrder_inv in H as (o & _ & H).
  destruct H as [(_ & _ & _ & [He | (x & err & _ & Hb & He)])
                | (_ & q & mk & m1 & mk1 & _ & _ & _ & _ & _ & H)].
  - discriminate He.
  - apply best_opposite_errors in Hb as [-> _]. discriminate He.
  - destruct H as [(_ & ob1 & ec & m2 & Hcan & [(err & -> & _ & _ & He & _) | (_ & Hrec)])
                  | (_ & Hrec)].
    + apply CancelOrder_errors in Hcan as (_ & _ & [-> | ->]); discriminate He.
    + exact (IH _ _ _ _ _ _ _ Hrec).
    + exact (IH _ _ _ _ _ _ _ Hrec).
Qed.

(** A MARKET order is matched and never admitted to the book.  Whatever
    [Push] is, [ProcessOrder] on a MARKET order leaves the id map of the book
    of its symbol as it was, adds no order to a level, and touches no other
    book.  It ends in one of three ways.
    - The matching loop returns without error and nothing of the order
      remains: the trades of the loop are returned, without error, and the
      store is as the loop left it.
    - The matching loop returns without error and a positive quantity
      remains: the trades of the loop are returned together with the refusal
      "could not be fully filled", and the only further write marks the order
      REJECTED.
    - The matching loop returns an error: that error is returned with no
      trade, whatever the loop had traded, and the store is as the loop left
      it. *)
Theorem market_order_never_rests (Push : priceLevels → priceLevel → priceLevels)
    (fuel : nat) (me : MatchingEngine) (p : loc) (m : Mem) (o : Order)
    (me' : MatchingEngine) (tr : list Trade) (e : option error) (m' : Mem) :
  m !! p = Some o → Type_ o = MarketOrder →
  ProcessOrder Push fuel me p m = Ok (me', tr, e, m') →
  ∃ ob' o',
    book_of me' (Symbol o) = Some ob'
    ∧ ob_orders ob' = ob_orders (book_for (Symbol o) me)
    ∧ sublist (resting ob') (resting (book_for (Symbol o) me))
    ∧ (∀ s, s ≠ Symbol o → book_of me' s = book_of me s)
    ∧ m' !! p = Some o'
    ∧ ((∃ m1 o1,
          matchOrder fuel (book_for (Symbol o) me) p [] m = Ok (ob', tr, None, m1)
          ∧ m1 !! p = Some o1
          ∧ ((e = None ∧ RemainingQty o' ≤ 0 ∧ m' = m1)
             ∨ (e = Some ErrMarketNotFilled ∧ RemainingQty o' > 0
                ∧ Status o' = OrderStatusRejected
                ∧ m' = <[p := with_Status OrderStatusRejected o1]> m1)))
       ∨ (∃ err tr1 m1,
            e = Some err ∧ err ≠ ErrMarketNotFilled ∧ tr = []
            ∧ matchOrder fuel (book_for (Symbol o) me) p [] m
              = Ok (ob', tr1, Some err, m1)
            ∧ m' = m1)).
Proof.
  intros Hp Ht H. apply ProcessOrder_inv in H as (o0 & ob' & Hp0 & -> & H).
  rewrite Hp in Hp0. injection Hp0 as <-.
  destruct H as [[_ H] | [Hn _]]; [|contradiction].
  apply processMarketOrder_inv in H as (tr1 & e1 & m1 & H & Hrest).
  destruct (matchOrder_store_conserved _ _ _ _ _ _ _ _ _ H p o Hp) as (o1 & Hp1 & _).
  assert (Hbook : book_of (put_book (Symbol o) ob' (ensure_book (Symbol o) me)) (Symbol o)
                  = Some ob').
  { unfold book_of, put_book. simpl. apply lookup_insert_eq. }
  assert (Hothers : ∀ s, s ≠ Symbol o →
            book_of (put_book (Symbol o) ob' (ensure_book (Symbol o) me)) s = book_of me s).
  { intros s Hs. rewrite put_book_other by exact Hs. apply ensure_book_other. exact Hs. }
  pose proof (matchOrder_keeps_id_map _ _ _ _ _ _ _ _ _ H) as Hmap.
  destruct (book_shrunk_facts _ _ (matchOrder_shrunk _ _ _ _ _ _ _ _ _ H)) as (_ & _ & Hsub).
  destruct Hrest as [(err & -> & -> & -> & ->)
                    | (-> & -> & o1' & Hp1' & [(Hpos & -> & ->) | (Hz & -> & ->)])].
  - exists ob', o1. repeat (split; [assumption|]). right.
    exists err, tr1, m1. split; [reflexivity|]. split.
    + intros ->. exact (matchOrder_never_unfilled _ _ _ _ _ _ _ _ H).
    + split; [reflexivity|]. split; [exact H | reflexivity].
  - rewrite Hp1 in Hp1'. injection Hp1' as <-.
    exists ob', (with_Status OrderStatusRejected o1).
    split; [assumption|]. split; [assumption|]. split; [assumption|].
    split; [assumption|]. split; [apply lookup_insert_eq|].
    left. exists m1, o1. split; [exact H|]. split; [exact Hp1|].
    right. split; [reflexivity|]. split; [exact Hpos|]. split; reflexivity.
  - rewrite Hp1 in Hp1'. injection Hp1' as <-.
    exists ob', o1. repeat (split; [assumption|]). left.
    exists m1, o1. split; [exact H|]. split; [exact Hp1|].
    left. split; [reflexivity|]. split; [lia | reflexivity].
Qed.

Lemma market_order_never_rests_witness :
  ∃ me' m',
    ProcessOrder priceLevels_Push 8 ask5_engine p2 S3_store
    = Ok (me', [mkTrade "X" "b" "s" 5 10 "u" "u"], Some ErrMarketNotFilled, m')
    ∧ ∃ ob' o',
        book_of me' (Symbol (market "b" BuyOrder 25)) = Some ob'
        ∧ ob_orders ob'
          = ob_orders (book_for (Symbol (market "b" BuyOrder 25)) ask5_engine)
        ∧ sublist (resting ob')
                  (resting (book_for (Symbol (market "b" BuyOrder 25)) ask5_engine))
        ∧ (∀ s, s ≠ Symbol (market "b" BuyOrder 25) → book_of me' s = book_of ask5_engine s)
        ∧ m' !! p2 = Some o'
        ∧ ((∃ m1 o1,
              matchOrder 8 (book_for (Symbol (market "b" BuyOrder 25)) ask5_engine)
                         p2 [] S3_store
              = Ok (ob', [mkTrade "X" "b" "s" 5 10 "u" "u"], None, m1)
              ∧ m1 !! p2 = Some o1
              ∧ ((Some ErrMarketNotFilled = None ∧ RemainingQty o' ≤ 0 ∧ m' = m1)
                 ∨ (Some ErrMarketNotFilled = Some ErrMarketNotFilled
                    ∧ RemainingQty o' > 0
                    ∧ Status o' = OrderStatusRejected
                    ∧ m' = <[p2 := with_Status OrderStatusRejected o1]> m1)))
           ∨ (∃ err tr1 m1,
                Some ErrMarketNotFilled = Some err ∧ err ≠ ErrMarketNotFilled
                ∧ [mkTrade "X" "b" "s" 5 10 "u" "u"] = []
                ∧ matchOrder 8 (book_for (Symbol (market "b" BuyOrder 25)) ask5_engine)
                             p2 [] S3_store
                  = Ok (ob', tr1, Some err, m1)
                ∧ m' = m1)).
Proof.
  eexists _, _.
  refine ((λ H, conj H (market_order_never_rests priceLevels_Push 8 ask5_engine
                          p2 S3_store (market "b" BuyOrder 25) _ _ _ _
                          eq_refl eq_refl H)) _).
  vm_compute. reflexivity.
Defined.

(** ** The answers to a cancel *)

Lemma Handler_CancelOrder_unknown (visit : list string) (me : MatchingEngine)
    (orderID : string) (m : Mem) :
  orderID ≠ "" →
  (∀ sym ob, sym ∈ visit → orderBooks me !! sym = Some ob →
             ob_orders ob !! orderID = None) →
  Handler_CancelOrder visit me orderID m
  = Ok (me, CancelInternalServerError (ErrOrderNotFound orderID), m).
Proof.
  intros Hne Hno. unfold Handler_CancelOrder.
  rewrite (bool_decide_eq_false_2 _ Hne).
  rewrite (bind_ok _ _ _ _ _ (MatchingEngine_CancelOrder_unknown _ _ _ _ Hno)).
  reflexivity.
Qed.

Lemma Handler_CancelOrder_twice (visit : list string) (me : MatchingEngine)
    (orderID : string) (m : Mem) (me' : MatchingEngine) (m' : Mem) :
  Handler_CancelOrder visit me orderID m = Ok (me', CancelOK, m') →
  Handler_CancelOrder visit me' orderID m'
  = Ok (me', CancelInternalServerError (ErrAlreadyCancelled orderID), m').
Proof.
  intros H. unfold Handler_CancelOrder in *.
  destruct (bool_decide (orderID = "")); [apply mret_inv in H; discriminate H|].
  step H. destruct a as [me1 [err|]]; apply mret_inv in H; [discriminate H|].
  injection H as -> ->.
  rewrite (bind_ok _ _ _ _ _ (MatchingEngine_CancelOrder_twice _ _ _ _ _ _ E)).
  reflexivity.
Qed.

(** The answers of DELETE /orders/:id.
    - An empty id is answered 400 and nothing is touched.
    - An id that no visited book has in its id map is answered 500 "not
      found", engine and store unchanged.
    - After a cancel answered 200, the same cancel is answered 500 "already
      cancelled" and changes nothing: the order stays in the id map of its
      book. *)
Theorem cancel_answers (visit : list string) (me : MatchingEngine) (orderID : string)
    (m : Mem) :
  Handler_CancelOrder visit me "" m = Ok (me, CancelBadRequest, m)
  ∧ (orderID ≠ "" →
     (∀ sym ob, sym ∈ visit → orderBooks me !! sym = Some ob →
                ob_orders ob !! orderID = None) →
     Handler_CancelOrder visit me orderID m
     = Ok (me, CancelInternalServerError (ErrOrderNotFound orderID), m))
  ∧ (∀ me' m',
       Handler_CancelOrder visit me orderID m = Ok (me', CancelOK, m') →
       Handler_CancelOrder visit me' orderID m'
       = Ok (me', CancelInternalServerError (ErrAlreadyCancelled orderID), m')).
Proof.
  split; [reflexivity|]. split.
  - apply Handler_CancelOrder_unknown.
  - apply Handler_CancelOrder_twice.
Qed.

Lemma cancel_answers_witness :
  (∃ me' m',
      Handler_CancelOrder ["X"] S1_engine "b" S1_store = Ok (me', CancelOK, m')
      ∧ Handler_CancelOrder ["X"] me' "b" m'
        = Ok (me', CancelInternalServerError (ErrAlreadyCancelled "b"), m'))
  ∧ Handler_CancelOrder ["X"] S1_engine "zz" S1_store
    = Ok (S1_engine, CancelInternalServerError (ErrOrderNotFound "zz"), S1_store).
Proof.
  split.
  - eexists _, _.
    refine ((λ H, conj H (proj2 (proj2 (cancel_answers ["X"] S1_engine "b" S1_store))
                            _ _ H)) _).
    vm_compute. reflexivity.
  - apply (proj1 (proj2 (cancel_answers ["X"] S1_engine "zz" S1_store))).
    + discriminate.
    + intros sym ob Hs Hob. apply list_elem_of_singleton in Hs. subst sym.
      vm_compute in Hob. injection Hob as <-. reflexivity.
Defined.

(** ** The listings of a book *)

Lemma orders_of_user_ok (idmap : gmap string loc) (userID : string) (m : Mem)
    (visit : list string) :
  (∀ id q, idmap !! id = Some q → is_Some (m !! q)) →
  ∃ l, orders_of_user idmap userID visit m = Ok (l, m)
       ∧ ∀ q, q ∈ l ↔ ∃ id o, id ∈ visit ∧ idmap !! id = Some q
                              ∧ m !! q = Some o ∧ UserID o = userID.
Proof.
  intros Hall. induction visit as [|k visit (l & IH & Hl)].
  - exists []. split; [reflexivity|]. intros q. split.
    + intros H. inversion H.
    + intros (id & o & H & _). inversion H.
  - cbn [orders_of_user]. destruct (idmap !! k) as [q|] eqn:Ek.
    + destruct (Hall _ _ Ek) as [o Ho].
      rewrite (bind_ok _ _ _ _ _ (load_ok _ _ _ Ho)).
      rewrite (bind_ok _ _ _ _ _ IH).
      eexists. split; [reflexivity|]. intros r.
      case_bool_decide as Hu.
      * rewrite elem_of_cons, Hl. split.
        -- intros [-> | (id & o' & Hin & Hrest)].
           ++ exists k, o. split; [left|]. tauto.
           ++ exists id, o'. split; [right; exact Hin | exact Hrest].
        -- intros (id & o' & Hin & Hid & Hr & Hu').
           apply elem_of_cons in Hin as [-> | Hin].
           ++ left. congruence.
           ++ right. exists id, o'. tauto.
      * rewrite Hl. split.
        -- intros (id & o' & Hin & Hrest). exists id, o'. split; [right; exact Hin | exact Hrest].
        -- intros (id & o' & Hin & Hid & Hr & Hu').
           apply elem_of_cons in Hin as [-> | Hin].
           ++ exfalso. rewrite Ek in Hid. injection Hid as <-.
              rewrite Ho in Hr. injection Hr as <-. exact (Hu Hu').
           ++ exists id, o'. tauto.
    + exists l. split; [exact IH|]. intros r. rewrite Hl. split.
      * intros (id & o' & Hin & Hrest). exists id, o'. split; [right; exact Hin | exact Hrest].
      * intros (id & o' & Hin & Hid & Hrest).
        apply elem_of_cons in Hin as [-> | Hin]; [congruence|].
        exists id, o'. tauto.
Qed.

Lemma orders_of_user_store (idmap : gmap string loc) (userID : string)
    (visit : list string) :
  ∀ m l m', orders_of_user idmap userID visit m = Ok (l, m') → m' = m.
Proof.
  induction visit as [|k visit IH]; intros m l m' H.
  - apply mret_inv in H. injection H as _ ->. reflexivity.
  - cbn [orders_of_user] in H. destruct (idmap !! k); [|exact (IH _ _ _ H)].
    step H. apply load_inv in E as [_ ->]. step H. apply IH in E. subst.
    apply mret_inv in H. injection H as _ ->. reflexivity.
Qed.

Lemma orders_of_user_conserved (idmap : gmap string loc) (userID : string)
    (m m' : Mem) (visit : list string) :
  store_conserved m m' →
  ∀ l m0, orders_of_user idmap userID visit m = Ok (l, m0) →
          orders_of_user idmap userID visit m' = Ok (l, m').
Proof.
  intros Hc. induction visit as [|k visit IH]; intros l m0 H.
  - apply mret_inv in H. injection H as -> _. reflexivity.
  - cbn [orders_of_user] in *. destruct (idmap !! k) as [q|]; [|exact (IH _ _ H)].
    step H. apply load_inv in E as [Hq ->].
    step H. apply mret_inv in H. injection H as -> _.
    destruct (Hc q a Hq) as (o' & Hq' & (_ & Hu & _)).
    rewrite (bind_ok _ _ _ _ _ (load_ok _ _ _ Hq')).
    rewrite (bind_ok _ _ _ _ _ (IH _ _ E)). rewrite Hu. reflexivity.
Qed.

Lemma omap_lookup_elem_of {A} (mp : gmap string A) (visit : list string) (x : A) :
  x ∈ omap (λ k, mp !! k) visit ↔ ∃ k, k ∈ visit ∧ mp !! k = Some x.
Proof. rewrite list_elem_of_omap. reflexivity. Qed.

Lemma ranges_over_length {A} (visit : list string) (mp : gmap string A) :
  ranges_over visit mp →
  length (omap (λ k, mp !! k) visit) = size mp.
Proof.
  intros [Hnd Hv].
  assert (Hlen : ∀ ks, (∀ k, k ∈ ks → is_Some (mp !! k)) →
                       length (omap (λ k, mp !! k) ks) = length ks).
  { induction ks as [|k ks IH]; intros Hks; [reflexivity|]. simpl.
    destruct (Hks k ltac:(left)) as [x ->]. simpl. f_equal.
    apply IH. intros k' Hk'. apply Hks. right. exact Hk'. }
  rewrite Hlen by (intros k Hk; apply Hv; exact Hk).
  rewrite <- (length_map_to_list mp), <- (length_fmap fst (map_to_list mp)).
  apply Permutation_length. apply NoDup_Permutation.
  - exact Hnd.
  - apply NoDup_fst_map_to_list.
  - intros k. rewrite Hv, list_elem_of_fmap. split.
    + intros [x Hx]. exists (k, x). split; [reflexivity|].
      apply elem_of_map_to_list. exact Hx.
    + intros ([k' x] & -> & Hx). apply elem_of_map_to_list in Hx. simpl. eauto.
Qed.

(** What the two listings of a book return.  Let [visit] be the order
    in which the id map is ranged over, and let every order of the id map be
    allocated.
    - [GetOrdersBySymbol] on the symbol of the book returns exactly the
      orders of the id map, one entry for each id; on any other symbol it
      returns the error "invalid symbol".
    - [GetOrdersByUser] returns, without error and with the store untouched,
      exactly the orders of the id map whose user is the given one; it
      checks no symbol. *)
Theorem listings_are_the_id_map (visit : list string) (ob : OrderBook) (m : Mem) :
  ranges_over visit (ob_orders ob) →
  (∀ id q, ob_orders ob !! id = Some q → is_Some (m !! q)) →
  (∃ l, GetOrdersBySymbol visit ob (symbol ob) = (Some l, None)
        ∧ length l = size (ob_orders ob)
        ∧ ∀ q, q ∈ l ↔ ∃ id, ob_orders ob !! id = Some q)
  ∧ (∀ sym, sym ≠ symbol ob →
            GetOrdersBySymbol visit ob sym = (None, Some (ErrInvalidSymbol sym)))
  ∧ (∀ userID,
       ∃ l, GetOrdersByUser visit ob userID m = Ok (l, None, m)
            ∧ ∀ q, q ∈ l ↔ ∃ id o, ob_orders ob !! id = Some q
                                   ∧ m !! q = Some o ∧ UserID o = userID).
Proof.
  intros Hrange Hall. pose proof Hrange as [_ Hv]. split; [|split].
  - unfold GetOrdersBySymbol.
    rewrite bool_decide_eq_false_2 by (intros Hne; apply Hne; reflexivity).
    eexists. split; [reflexivity|]. split; [exact (ranges_over_length _ _ Hrange)|].
    intros q. rewrite omap_lookup_elem_of. split.
    + intros (k & _ & Hk). exists k. exact Hk.
    + intros (k & Hk). exists k. split; [|exact Hk]. apply Hv. eexists. exact Hk.
  - intros sym Hne. unfold GetOrdersBySymbol.
    rewrite (bool_decide_eq_true_2 _ Hne). reflexivity.
  - intros userID. destruct (orders_of_user_ok (ob_orders ob) userID m visit Hall)
      as (l & Hl & Hin).
    exists l. split.
    + unfold GetOrdersByUser. rewrite (bind_ok _ _ _ _ _ Hl). reflexivity.
    + intros q. rewrite Hin. split.
      * intros (id & o & _ & Hrest). exists id, o. exact Hrest.
      * intros (id & o & Hid & Hrest). exists id, o. split; [|tauto].
        apply Hv. eexists. exact Hid.
Qed.

Lemma listings_are_the_id_map_witness :
  (∃ l, GetOrdersBySymbol ["A"; "B"] emptied_book (symbol emptied_book) = (Some l, None)
        ∧ length l = size (ob_orders emptied_book)
        ∧ ∀ q, q ∈ l ↔ ∃ id, ob_orders emptied_book !! id = Some q)
  ∧ (∀ sym, sym ≠ symbol emptied_book →
            GetOrdersBySymbol ["A"; "B"] emptied_book sym
            = (None, Some (ErrInvalidSymbol sym)))
  ∧ (∀ userID,
       ∃ l, GetOrdersByUser ["A"; "B"] emptied_book userID S2_store = Ok (l, None, S2_store)
            ∧ ∀ q, q ∈ l ↔ ∃ id o, ob_orders emptied_book !! id = Some q
                                   ∧ S2_store !! q = Some o ∧ UserID o = userID).
Proof.
  apply (listings_are_the_id_map ["A"; "B"] emptied_book S2_store).
  - split.
    + apply list.NoDup_cons. split; [|apply list.NoDup_cons; split; [|constructor]].
      * intros H. apply list_elem_of_singleton in H. discriminate H.
      * intros H. inversion H.
    + intros k. unfold emptied_book. simpl. split.
      * intros Hk. apply elem_of_cons in Hk as [-> | Hk]; [vm_compute; eauto|].
        apply list_elem_of_singleton in Hk as ->. vm_compute. eauto.
      * intros [q Hq]. destruct (decide (k = "A")) as [-> | HA]; [left|].
        destruct (decide (k = "B")) as [-> | HB]; [right; left|].
        rewrite lookup_insert_ne in Hq by congruence.
        rewrite lookup_singleton_ne in Hq by congruence. discriminate Hq.
  - intros id q Hq. unfold emptied_book in Hq. simpl in Hq.
    destruct (decide (id = "A")) as [-> | HA].
    + rewrite lookup_insert_eq in Hq. injection Hq as <-. vm_compute. eauto.
    + rewrite lookup_insert_ne in Hq by congruence.
      destruct (decide (id = "B")) as [-> | HB].
      * rewrite lookup_singleton_eq in Hq. injection Hq as <-. vm_compute. eauto.
      * rewrite lookup_singleton_ne in Hq by congruence. discriminate Hq.
Defined.

(** Cancelled and filled orders stay listed.  A cancel of the book and
    a run of the matching loop leave both listings as they were: the id map
    and the users of the orders are not changed by either. *)
Theorem listings_survive_cancel_and_match (visit : list string) (fuel : nat)
    (ob : OrderBook) (orderID : string) (p : loc) (acc : list Trade) (m : Mem)
    (ob' : OrderBook) (tr : list Trade) (e : option error) (m' : Mem) :
  CancelOrder ob orderID m = Ok (ob', e, m')
  ∨ matchOrder fuel ob p acc m = Ok (ob', tr, e, m') →
  (∀ sym, GetOrdersBySymbol visit ob' sym = GetOrdersBySymbol visit ob sym)
  ∧ (∀ userID l, GetOrdersByUser visit ob userID m = Ok (l, None, m) →
                 GetOrdersByUser visit ob' userID m' = Ok (l, None, m')).
Proof.
  intros H.
  assert (Hfacts : ob_orders ob' = ob_orders ob ∧ symbol ob' = symbol ob
                   ∧ store_conserved m m').
  { destruct H as [H | H].
    - split; [exact (CancelOrder_keeps_id_map _ _ _ _ _ _ H)|].
      split; [exact (CancelOrder_symbol _ _ _ _ _ _ H)
             | exact (CancelOrder_conserved _ _ _ _ _ _ H)].
    - split; [exact (matchOrder_keeps_id_map _ _ _ _ _ _ _ _ _ H)|].
      split; [exact (matchOrder_symbol _ _ _ _ _ _ _ _ _ H)
             | exact (matchOrder_store_conserved _ _ _ _ _ _ _ _ _ H)]. }
  destruct Hfacts as (Hmap & Hsym & Hc). split.
  - intros sym. unfold GetOrdersBySymbol. rewrite Hmap, Hsym. reflexivity.
  - intros userID l Hl. unfold GetOrdersByUser in *. rewrite Hmap.
    step Hl. apply mret_inv in Hl. injection Hl as -> ->.
    rewrite (bind_ok _ _ _ _ _ (orders_of_user_conserved _ _ _ _ _ Hc _ _ E)).
    reflexivity.
Qed.

Lemma listings_survive_cancel_and_match_witness :
  ∃ ob' e m',
    CancelOrder S1_book "b" S1_store = Ok (ob', e, m')
    ∧ (∀ sym, GetOrdersBySymbol ["b"] ob' sym = GetOrdersBySymbol ["b"] S1_book sym)
    ∧ (∀ userID l, GetOrdersByUser ["b"] S1_book userID S1_store = Ok (l, None, S1_store) →
                   GetOrdersByUser ["b"] ob' userID m' = Ok (l, None, m')).
Proof.
  eexists _, _, _.
  refine ((λ H, conj H (listings_survive_cancel_and_match ["b"] 0 S1_book "b" p1 []
                          S1_store _ [] _ _ (or_introl H))) _).
  vm_compute. reflexivity.
Defined.

(** ** The volume of a level and the registration of its orders *)

Lemma elem_of_insert_inv {A} (ls : list A) (k : nat) (x l : A) :
  l ∈ <[k := x]> ls → l = x ∨ l ∈ ls.
Proof.
  revert k. induction ls as [|y ls IH]; intros [|k] H; simpl in H.
  - inversion H.
  - inversion H.
  - apply elem_of_cons in H as [-> | H]; [left; reflexivity | right; right; exact H].
  - apply elem_of_cons in H as [-> | H]; [right; left|].
    destruct (IH _ H) as [-> | Hin]; [left; reflexivity | right; right; exact Hin].
Qed.

Lemma elem_of_alter_inv {A} (f : A → A) (ls : list A) (k : nat) (l : A) :
  l ∈ alter f k ls → l ∈ ls ∨ ∃ l0, l0 ∈ ls ∧ l = f l0.
Proof.
  revert k. induction ls as [|y ls IH]; intros [|k] H; simpl in H.
  - inversion H.
  - inversion H.
  - apply elem_of_cons in H as [-> | H].
    + right. exists y. split; [left | reflexivity].
    + left. right. exact H.
  - apply elem_of_cons in H as [-> | H]; [left; left|].
    destruct (IH _ H) as [Hin | (l0 & Hin & ->)].
    + left. right. exact Hin.
    + right. exists l0. split; [right; exact Hin | reflexivity].
Qed.

Lemma up_loop_elem_of (less : priceLevel → priceLevel → bool) (fuel : nat) :
  ∀ pl j l, l ∈ up_loop fuel less pl j → l ∈ pl.
Proof.
  induction fuel as [|n IH]; intros pl j l H; simpl in H; [exact H|].
  case_bool_decide; [exact H|].
  destruct (pl !! Z.to_nat j) as [xj|] eqn:Ej; [|exact H].
  destruct (pl !! Z.to_nat ((j - 1) `quot` 2)) as [xi|] eqn:Ei; [|exact H].
  destruct (less xj xi); [|exact H].
  apply IH in H. apply elem_of_insert_inv in H as [-> | H].
  - exact (list_elem_of_lookup_2 _ _ _ Ej).
  - apply elem_of_insert_inv in H as [-> | H]; [|exact H].
    exact (list_elem_of_lookup_2 _ _ _ Ei).
Qed.

Lemma heap_Push_elem_of (Push : priceLevels → priceLevel → priceLevels)
    (less : priceLevel → priceLevel → bool) (h : priceLevels) (x l : priceLevel) :
  Push_sound Push → l ∈ heap_Push Push less h x → l = x ∨ l ∈ h.
Proof.
  intros HP H. unfold heap_Push, up in H. apply up_loop_elem_of in H.
  exact (HP _ _ _ H).
Qed.

Lemma Push_sound_source : Push_sound priceLevels_Push.
Proof. intros pl x l H. right. exact H. Qed.

Lemma Push_sound_ptr : Push_sound priceLevels_Push_ptr.
Proof.
  intros pl x l H. unfold priceLevels_Push_ptr in H.
  apply elem_of_app in H as [H | H]; [right; exact H|].
  left. apply list_elem_of_singleton in H. exact H.
Qed.

Lemma sum_remaining_ext (m m' : Mem) (os : list loc) :
  (∀ r, r ∈ os → RemainingQty <$> m' !! r = RemainingQty <$> m !! r) →
  sum_remaining m' os = sum_remaining m os.
Proof.
  induction os as [|q os IH]; intros H; [reflexivity|]. simpl.
  rewrite IH by (intros r Hr; apply H; right; exact Hr).
  pose proof (H q ltac:(left)) as Hq.
  destruct (m' !! q) as [o'|], (m !! q) as [o|]; simpl in Hq; try discriminate;
    [|reflexivity].
  injection Hq as ->. reflexivity.
Qed.

Lemma sum_remaining_app (m : Mem) (os os' : list loc) (v v' : Z) :
  sum_remaining m os = Some v → sum_remaining m os' = Some v' →
  sum_remaining m (os ++ os') = Some (v + v').
Proof.
  revert v. induction os as [|q os IH]; intros v H H'; simpl in *.
  - injection H as <-. rewrite H'. f_equal.
  - destruct (m !! q) as [o|]; [|discriminate].
    destruct (sum_remaining m os) as [s|]; [|discriminate].
    injection H as <-. rewrite (IH s eq_refl H'). f_equal. lia.
Qed.

Lemma sum_remaining_delete (m : Mem) (os : list loc) (i : nat) (q : loc) (o : Order)
    (v : Z) :
  os !! i = Some q → m !! q = Some o → sum_remaining m os = Some v →
  sum_remaining m (delete i os) = Some (v - RemainingQty o).
Proof.
  revert i v. induction os as [|r os IH]; intros [|i] v Hi Hq H; simpl in *;
    try discriminate.
  - injection Hi as ->. rewrite Hq in H.
    destruct (sum_remaining m os) as [s|]; [|discriminate].
    injection H as <-. f_equal. lia.
  - destruct (m !! r) as [o'|]; [|discriminate].
    destruct (sum_remaining m os) as [s|] eqn:Es; [|discriminate].
    injection H as <-. rewrite (IH i s Hi Hq eq_refl). f_equal. lia.
Qed.

Lemma find_order_spec (orderID : string) (os : list loc) :
  ∀ m i m', find_order orderID os m = Ok (Some i, m') →
            ∃ q o, os !! i = Some q ∧ m !! q = Some o ∧ ID o = orderID.
Proof.
  induction os as [|r os IH]; intros m i m' H; simpl in H.
  - apply mret_inv in H. discriminate H.
  - step H. apply load_inv in E as [Hr ->]. step H.
    + apply mret_inv in H. injection H as -> _. exists r, a.
      apply bool_decide_eq_true_1 in Heqb. tauto.
    + step H. apply mret_inv in H. injection H as Hi _.
      destruct a0 as [i0|]; [|discriminate]. injection Hi as ->.
      pose proof (find_order_store _ _ _ _ _ E) as ->.
      exact (IH _ _ _ E).
Qed.

Lemma side_levels_elem_of (buy : bool) (ob : OrderBook) (l : priceLevel) :
  l ∈ side_levels buy ob → l ∈ bids ob ++ asks ob.
Proof. destruct buy; simpl; intros H; apply elem_of_app; [left | right]; exact H. Qed.

Lemma set_side_levels_elem_of (buy : bool) (ls : priceLevels) (ob : OrderBook)
    (l : priceLevel) :
  l ∈ bids (set_side_levels buy ls ob) ++ asks (set_side_levels buy ls ob) →
  l ∈ ls ∨ l ∈ bids ob ++ asks ob.
Proof.
  destruct buy; simpl; intros H; apply elem_of_app in H as [H | H].
  - left. exact H.
  - right. apply elem_of_app. right. exact H.
  - right. apply elem_of_app. left. exact H.
  - left. exact H.
Qed.

Lemma registered_not_resting (m : Mem) (ob : OrderBook) (p : loc) (o : Order) :
  registered m ob → m !! p = Some o → ob_orders ob !! ID o = None →
  ∀ l, l ∈ bids ob ++ asks ob → p ∉ orders l.
Proof.
  intros Hreg Hp Hnone l Hl Hin. rewrite (Hreg l p o Hl Hin Hp) in Hnone. discriminate.
Qed.

(** [CancelOrder] keeps the volume of every level equal to what remains of
    its orders, and every resting order registered under its id. *)
Lemma CancelOrder_keeps_invariants (ob : OrderBook) (orderID : string) (m : Mem)
    (ob' : OrderBook) (e : option error) (m' : Mem) :
  book_consistent m ob → registered m ob →
  CancelOrder ob orderID m = Ok (ob', e, m') →
  book_consistent m' ob' ∧ registered m' ob'.
Proof.
  intros Hcons Hreg H.
  destruct e as [err|].
  { apply CancelOrder_errors in H as (-> & -> & _). tauto. }
  pose proof (CancelOrder_keeps_id_map _ _ _ _ _ _ H) as Hmap.
  pose proof (CancelOrder_shrunk _ _ _ _ _ _ H) as Hsh.
  destruct (CancelOrder_done _ _ _ _ _ H) as (q & o & Hq & Ho & _ & ->).
  assert (Hsum : ∀ os, sum_remaining (<[q := with_Status OrderStatusCancelled o]> m) os
                       = sum_remaining m os).
  { intros os. apply sum_remaining_ext. intros r _.
    destruct (decide (r = q)) as [->|Hne].
    - rewrite lookup_insert_eq, Ho. reflexivity.
    - rewrite lookup_insert_ne by congruence. reflexivity. }
  assert (Hid : ∀ r o', <[q := with_Status OrderStatusCancelled o]> m !! r = Some o' →
                        ∃ o0, m !! r = Some o0 ∧ ID o0 = ID o').
  { intros r o' Hr. destruct (decide (r = q)) as [->|Hne].
    - rewrite lookup_insert_eq in Hr. injection Hr as <-. exists o. tauto.
    - rewrite lookup_insert_ne in Hr by congruence. exists o'. tauto. }
  split.
  - (* volumes *)
    unfold CancelOrder in H. rewrite Hq in H.
    rewrite (bind_ok _ _ _ _ _ (load_ok _ _ _ Ho)) in H.
    step H; [apply mret_inv in H; discriminate H|].
    rewrite (bind_ok _ _ _ _ _ (update_ok _ _ _ _ Ho)) in H.
    assert (Hsame : book_consistent (<[q := with_Status OrderStatusCancelled o]> m) ob).
    { intros l Hl. unfold level_consistent. rewrite Hsum. exact (Hcons l Hl). }
    destruct (find_level (Price o) (side_levels (is_buy o) ob)) as [k|] eqn:Ek;
      [|apply mret_inv in H; injection H as ->; exact Hsame].
    destruct (side_levels (is_buy o) ob !! k) as [level|] eqn:El;
      [|apply mret_inv in H; injection H as ->; exact Hsame].
    step H. destruct a as [i|];
      [|apply mret_inv in H; injection H as ->; exact Hsame].
    apply mret_inv in H. injection H as ->.
    destruct (find_order_spec _ _ _ _ _ E) as (q' & o' & Hi & Hq' & Hid').
    destruct (Hid _ _ Hq') as (o0 & Hq0 & Hid0).
    pose proof (list_elem_of_lookup_2 _ _ _ El) as Hlevel.
    apply side_levels_elem_of in Hlevel.
    assert (q' = q) as ->.
    { pose proof (Hreg level q' o0 Hlevel (list_elem_of_lookup_2 _ _ _ Hi) Hq0) as Hr.
      rewrite Hid0, Hid' in Hr. congruence. }
    intros l Hl. apply set_side_levels_elem_of in Hl as [Hl | Hl]; [|exact (Hsame l Hl)].
    apply elem_of_insert_inv in Hl as [-> | Hl].
    + unfold level_consistent. simpl. rewrite Hsum.
      exact (sum_remaining_delete _ _ _ _ _ _ Hi Ho (Hcons level Hlevel)).
    + apply Hsame. apply side_levels_elem_of in Hl. exact Hl.
  - (* registration *)
    intros l' r o' Hl' Hr Hm'. rewrite Hmap.
    destruct (Hid _ _ Hm') as (o0 & Hr0 & <-).
    destruct Hsh as [Hb Ha].
    assert (Hfind : ∀ ls ls', levels_shrunk ls ls' → l' ∈ ls' →
                      ∃ l, l ∈ ls ∧ sublist (orders l') (orders l)).
    { clear. induction 1 as [|a b ls ls' [_ Hs] _ IH]; intros Hin; [inversion Hin|].
      apply elem_of_cons in Hin as [-> | Hin].
      - exists a. split; [left | exact Hs].
      - destruct (IH Hin) as (l & Hl & Hsub). exists l. split; [right; exact Hl | exact Hsub]. }
    apply elem_of_app in Hl' as [Hl' | Hl'].
    + destruct (Hfind _ _ Hb Hl') as (l & Hl & Hsub).
      apply (Hreg l r o0); [apply elem_of_app; left; exact Hl | | exact Hr0].
      exact (elem_of_sublist _ _ _ Hr Hsub).
    + destruct (Hfind _ _ Ha Hl') as (l & Hl & Hsub).
      apply (Hreg l r o0); [apply elem_of_app; right; exact Hl | | exact Hr0].
      exact (elem_of_sublist _ _ _ Hr Hsub).
Qed.

(** [AddOrder] keeps them too, whatever level it writes to. *)
Lemma AddOrder_keeps_invariants (Push : priceLevels → priceLevel → priceLevels)
    (ob : OrderBook) (p : loc) (m : Mem) (ob' : OrderBook) (e : option error) (m' : Mem) :
  Push_sound Push → book_consistent m ob → registered m ob →
  AddOrder Push ob p m = Ok (ob', e, m') →
  book_consistent m' ob' ∧ registered m' ob'.
Proof.
  intros HP Hcons Hreg H.
  destruct e as [err|].
  { apply AddOrder_errors in H as (o & _ & _ & -> & ->). tauto. }
  unfold AddOrder in H.
  step H. apply load_inv in E as [Hp ->].
  destruct (ob_orders ob !! ID a) as [x|] eqn:Hnone; [apply mret_inv in H; discriminate H|].
  rewrite (bind_ok _ _ _ _ _ (update_ok _ _ _ _ Hp)) in H.
  rewrite (bind_ok _ _ _ _ _ (load_ok p _ (reinitialised a) ltac:(apply lookup_insert_eq)))
    in H.
  apply mret_inv in H. injection H as -> ->.
  change (is_buy (reinitialised a)) with (is_buy a).
  change (Price (reinitialised a)) with (Price a).
  change (ID (reinitialised a)) with (ID a).
  change (RemainingQty (reinitialised a)) with (Quantity a).
  set (m' := <[p := reinitialised a]> m).
  set (ob1 := mkBook (symbol ob) (bids ob) (asks ob) (<[ID a := p]> (ob_orders ob))).
  set (f := λ l : priceLevel, mkLevel (price l) (orders l ++ [p]) (volume l + Quantity a)).
  set (x := mkLevel (Price a) [p] (0 + Quantity a)).
  pose proof (registered_not_resting _ _ _ _ Hreg Hp Hnone) as Hfresh.
  assert (Hsum : ∀ l, l ∈ bids ob ++ asks ob →
                      sum_remaining m' (orders l) = sum_remaining m (orders l)).
  { intros l Hl. apply sum_remaining_ext. intros r Hr. unfold m'.
    rewrite lookup_insert_ne; [reflexivity|]. intros <-. exact (Hfresh l Hl Hr). }
  assert (Hp' : sum_remaining m' [p] = Some (Quantity a + 0)).
  { simpl. unfold m'. rewrite lookup_insert_eq. reflexivity. }
  assert (Hold : ∀ l, l ∈ bids ob ++ asks ob → level_consistent m' l).
  { intros l Hl. unfold level_consistent. rewrite (Hsum l Hl). exact (Hcons l Hl). }
  assert (Hf : ∀ l, l ∈ bids ob ++ asks ob → level_consistent m' (f l)).
  { intros l Hl. unfold level_consistent, f. simpl.
    rewrite (sum_remaining_app m' (orders l) [p] (volume l) (Quantity a + 0));
      [f_equal; lia | exact (Hold l Hl) | exact Hp']. }
  assert (Hx : level_consistent m' x).
  { unfold level_consistent, x. simpl orders. rewrite Hp'. simpl. f_equal. lia. }
  assert (Hnew : ∀ l,
            l ∈ match find_level (Price a) (side_levels (is_buy a) ob1) with
                | Some i => alter f i (side_levels (is_buy a) ob1)
                | None => heap_Push Push (if is_buy a then buy_Less else sell_Less)
                            (side_levels (is_buy a) ob1) x
                end →
            l = x ∨ l ∈ bids ob ++ asks ob ∨ ∃ l0, l0 ∈ bids ob ++ asks ob ∧ l = f l0).
  { intros l Hl.
    assert (Hside : ∀ l0, l0 ∈ side_levels (is_buy a) ob1 → l0 ∈ bids ob ++ asks ob).
    { intros l0 Hl0. apply (side_levels_elem_of (is_buy a) ob1). exact Hl0. }
    destruct (find_level (Price a) (side_levels (is_buy a) ob1)) as [i|].
    - apply elem_of_alter_inv in Hl as [Hl | (l0 & Hl0 & ->)].
      + right. left. exact (Hside _ Hl).
      + right. right. exists l0. split; [exact (Hside _ Hl0) | reflexivity].
    - apply (heap_Push_elem_of _ _ _ _ _ HP) in Hl as [-> | Hl].
      + left. reflexivity.
      + right. left. exact (Hside _ Hl). }
  split.
  - intros l Hl. apply set_side_levels_elem_of in Hl as [Hl | Hl]; [|exact (Hold l Hl)].
    destruct (Hnew l Hl) as [-> | [Hin | (l0 & Hin & ->)]];
      [exact Hx | exact (Hold l Hin) | exact (Hf l0 Hin)].
  - intros l r o Hl Hr Hm.
    assert (Hmap : ob_orders (set_side_levels (is_buy a)
                     (match find_level (Price a) (side_levels (is_buy a) ob1) with
                      | Some i => alter f i (side_levels (is_buy a) ob1)
                      | None => heap_Push Push (if is_buy a then buy_Less else sell_Less)
                                  (side_levels (is_buy a) ob1) x
                      end) ob1) = <[ID a := p]> (ob_orders ob)).
    { destruct (is_buy a); reflexivity. }
    rewrite Hmap.
    destruct (decide (r = p)) as [->|Hne].
    + unfold m' in Hm. rewrite lookup_insert_eq in Hm. injection Hm as <-.
      apply lookup_insert_eq.
    + unfold m' in Hm. rewrite lookup_insert_ne in Hm by congruence.
      assert (Hr0 : ∃ l0, l0 ∈ bids ob ++ asks ob ∧ r ∈ orders l0).
      { apply set_side_levels_elem_of in Hl as [Hl | Hl]; [|exists l; tauto].
        destruct (Hnew l Hl) as [-> | [Hin | (l0 & Hin & ->)]].
        - simpl in Hr. apply list_elem_of_singleton in Hr. contradiction.
        - exists l. tauto.
        - exists l0. split; [exact Hin|]. simpl in Hr.
          apply elem_of_app in Hr as [Hr | Hr]; [exact Hr|].
          apply list_elem_of_singleton in Hr. contradiction. }
      destruct Hr0 as (l0 & Hl0 & Hr0).
      pose proof (Hreg l0 r o Hl0 Hr0 Hm) as Hro.
      rewrite lookup_insert_ne; [exact Hro|]. intros Heq. rewrite <- Heq in Hro.
      rewrite Hnone in Hro. discriminate Hro.
Qed.

(** Admission and cancel keep invariant I2.  Let the volume of every
    level be the sum of what remains of its orders, and let every resting
    order be the order the id map holds under its id.  Then after [AddOrder]
    and after [CancelOrder] both still hold, for every [Push] that only adds
    the pushed level to the slice (the one of the source and the
    pointer-receiver one both do).  The matching loop is not among them: a
    fill changes what remains of a maker and leaves the volume of its level.
    Volumes and quantities are exact numbers, as in this model; in [float64]
    the volume of a level is the sum of its orders up to rounding only. *)
Theorem admission_and_cancel_keep_level_volumes
    (Push : priceLevels → priceLevel → priceLevels)
    (ob : OrderBook) (p : loc) (orderID : string) (m : Mem)
    (ob' : OrderBook) (e : option error) (m' : Mem) :
  Push_sound Push → book_consistent m ob → registered m ob →
  AddOrder Push ob p m = Ok (ob', e, m') ∨ CancelOrder ob orderID m = Ok (ob', e, m') →
  book_consistent m' ob' ∧ registered m' ob'.
Proof.
  intros HP Hcons Hreg [H | H].
  - exact (AddOrder_keeps_invariants _ _ _ _ _ _ _ HP Hcons Hreg H).
  - exact (CancelOrder_keeps_invariants _ _ _ _ _ _ Hcons Hreg H).
Qed.

Lemma S4_book_A_invariants : book_consistent S4_store S4_book_A ∧ registered S4_store S4_book_A.
Proof.
  split.
  - intros l Hl. apply list_elem_of_singleton in Hl as ->. reflexivity.
  - intros l r o Hl Hr Hm. apply list_elem_of_singleton in Hl as ->.
    apply list_elem_of_singleton in Hr as ->.
    vm_compute in Hm. injection Hm as <-. reflexivity.
Defined.

Lemma admission_and_cancel_keep_level_volumes_witness :
  (∃ ob' e m',
      AddOrder priceLevels_Push_ptr S4_book_A p2 S4_store = Ok (ob', e, m')
      ∧ book_consistent m' ob' ∧ registered m' ob')
  ∧ (∃ ob' e m',
      CancelOrder S4_book_A "A" S4_store = Ok (ob', e, m')
      ∧ book_consistent m' ob' ∧ registered m' ob').
Proof.
  split.
  - eexists _, _, _.
    refine ((λ H, conj H (admission_and_cancel_keep_level_volumes priceLevels_Push_ptr
                            S4_book_A p2 "A" S4_store _ _ _ Push_sound_ptr
                            (proj1 S4_book_A_invariants) (proj2 S4_book_A_invariants)
                            (or_introl H))) _).
    vm_compute. reflexivity.
  - eexists _, _, _.
    refine ((λ H, conj H (admission_and_cancel_keep_level_volumes priceLevels_Push
                            S4_book_A p2 "A" S4_store _ _ _ Push_sound_source
                            (proj1 S4_book_A_invariants) (proj2 S4_book_A_invariants)
                            (or_intror H))) _).
    vm_compute. reflexivity.
Defined.

(** ** The snapshot and the two book endpoints *)

Lemma snapshot_levels_positive (ls : priceLevels) :
  Forall (λ l, (0 < LOrders l)%nat) (snapshot_levels ls).
Proof.
  induction ls as [|l ls IH]; simpl; [constructor|].
  case_bool_decide; [constructor; [exact H | exact IH] | exact IH].
Qed.

Lemma snapshot_levels_count (ls : priceLevels) :
  reported_orders (snapshot_levels ls) = length (flat_map orders ls).
Proof.
  induction ls as [|l ls IH]; simpl; [reflexivity|].
  rewrite length_app. case_bool_decide as Hl; simpl.
  - rewrite IH. reflexivity.
  - rewrite IH. destruct (orders l); simpl in *; [reflexivity | lia].
Qed.

Lemma snapshot_levels_prices (ls : priceLevels) :
  sublist (LPrice <$> snapshot_levels ls) (price <$> ls).
Proof.
  induction ls as [|l ls IH]; simpl; [constructor|].
  case_bool_decide; [apply sublist_skip | apply sublist_cons]; exact IH.
Qed.

Lemma top_levels_take (ls : list OrderBookLevel) : top_levels ls = take depthLevels ls.
Proof.
  unfold top_levels. case_bool_decide as H; [reflexivity|].
  symmetry. apply take_ge. lia.
Qed.

(** The two book endpoints on an engine whose books are stored under
    their symbols.
    - An empty symbol is answered 400 by both.
    - A symbol without a book is answered 500 "order book not found" by
      both.
    - For a symbol with a book, GET /orderbook/:symbol answers 200 with the
      levels of each side that hold at least one order, in the order of the
      slice, each with a positive count, the counts adding up to the number
      of resting orders; GET /orderbook/:symbol/depth answers 200 with the
      first ten of these levels on each side.
    So the body of the first is never the nil snapshot, and the second never
    dereferences one. *)
Theorem book_endpoints (me : MatchingEngine) (sym : string) :
  well_keyed me →
  Handler_GetOrderBook me "" = BookBadRequest
  ∧ Handler_GetOrderBookDepth me "" = BookBadRequest
  ∧ (sym ≠ "" → book_of me sym = None →
     Handler_GetOrderBook me sym = BookInternalServerError (ErrBookNotFound sym)
     ∧ Handler_GetOrderBookDepth me sym = BookInternalServerError (ErrBookNotFound sym))
  ∧ Handler_GetOrderBook me sym ≠ BookOK None
  ∧ Handler_GetOrderBookDepth me sym ≠ BookCrash
  ∧ (∀ ob, sym ≠ "" → book_of me sym = Some ob →
       Handler_GetOrderBook me sym
       = BookOK (Some (mkSnapshot sym (snapshot_levels (bids ob))
                                  (snapshot_levels (asks ob))))
       ∧ Handler_GetOrderBookDepth me sym
         = BookDepth sym (take 10 (snapshot_levels (bids ob)))
                     (take 10 (snapshot_levels (asks ob)))
       ∧ Forall (λ l, (0 < LOrders l)%nat)
                (snapshot_levels (bids ob) ++ snapshot_levels (asks ob))
       ∧ sublist (LPrice <$> snapshot_levels (bids ob)) (price <$> bids ob)
       ∧ sublist (LPrice <$> snapshot_levels (asks ob)) (price <$> asks ob)
       ∧ (reported_orders (snapshot_levels (bids ob))
          + reported_orders (snapshot_levels (asks ob)))%nat
         = length (resting ob)).
Proof.
  intros Hme. split; [reflexivity|]. split; [reflexivity|]. split; [|split; [|split]].
  - intros Hne Hnone. unfold Handler_GetOrderBook, Handler_GetOrderBookDepth.
    rewrite (bool_decide_eq_false_2 _ Hne).
    destruct (GetOrderBook_well_keyed me sym Hme) as [[_ ->] | (ob & Hob & _)].
    + split; reflexivity.
    + unfold book_of in Hnone. congruence.
  - unfold Handler_GetOrderBook. case_bool_decide; [discriminate|].
    destruct (GetOrderBook_well_keyed me sym Hme) as [[_ ->] | (ob & _ & ->)]; discriminate.
  - unfold Handler_GetOrderBookDepth. case_bool_decide; [discriminate|].
    destruct (GetOrderBook_well_keyed me sym Hme) as [[_ ->] | (ob & _ & ->)]; discriminate.
  - intros ob Hne Hob. unfold Handler_GetOrderBook, Handler_GetOrderBookDepth.
    rewrite (bool_decide_eq_false_2 _ Hne).
    destruct (GetOrderBook_well_keyed me sym Hme) as [[Hnone _] | (ob0 & Hob0 & ->)].
    { unfold book_of in Hob. congruence. }
    unfold book_of in Hob. rewrite Hob in Hob0. injection Hob0 as <-. simpl.
    rewrite !top_levels_take.
    split; [reflexivity|]. split; [reflexivity|].
    split; [apply Forall_app; split; apply snapshot_levels_positive|].
    split; [apply snapshot_levels_prices|]. split; [apply snapshot_levels_prices|].
    rewrite !snapshot_levels_count. unfold resting.
    rewrite flat_map_app, length_app. reflexivity.
Qed.

Lemma book_endpoints_witness :
  Handler_GetOrderBook S1_engine "X"
  = BookOK (Some (mkSnapshot "X" (snapshot_levels (bids S1_book))
                             (snapshot_levels (asks S1_book))))
  ∧ Handler_GetOrderBookDepth S1_engine "X"
    = BookDepth "X" (take 10 (snapshot_levels (bids S1_book)))
                (take 10 (snapshot_levels (asks S1_book)))
  ∧ Forall (λ l, (0 < LOrders l)%nat)
           (snapshot_levels (bids S1_book) ++ snapshot_levels (asks S1_book))
  ∧ sublist (LPrice <$> snapshot_levels (bids S1_book)) (price <$> bids S1_book)
  ∧ sublist (LPrice <$> snapshot_levels (asks S1_book)) (price <$> asks S1_book)
  ∧ (reported_orders (snapshot_levels (bids S1_book))
     + reported_orders (snapshot_levels (asks S1_book)))%nat
    = length (resting S1_book).
Proof.
  apply (proj2 (proj2 (proj2 (proj2 (proj2 (book_endpoints S1_engine "X"
           ltac:(intros s ob H; unfold S1_engine in H; simpl in H;
                 destruct (decide (s = "X")) as [->|Hne];
                 [rewrite lookup_singleton_eq in H; injection H as <-; reflexivity
                 |rewrite lookup_singleton_ne in H by congruence; discriminate H]))))))).
  - discriminate.
  - reflexivity.
Defined.

(** ** Roles *)

Lemma HasAnyRole_elem_of (c : Claims) (roles : list string) :
  HasAnyRole c roles = true ↔ cRole c ∈ roles.
Proof.
  induction roles as [|r roles IH]; simpl.
  - split; [discriminate | intros H; inversion H].
  - case_bool_decide as Hr.
    + split; [intros _; rewrite Hr; left | reflexivity].
    + rewrite IH, elem_of_cons. split; [tauto | intros [H | H]; [contradiction | exact H]].
Qed.

(** The role checks of the claims.  [HasAnyRole] holds exactly when
    the role of the claims is one of the roles given, so never for an empty
    list; [HasRole] is the case of one role; a role is compared as a whole
    string, so claims are at most one of admin, trader and analyst, and an
    admin has neither the trader nor the analyst role. *)
Theorem role_checks (c : Claims) (role : string) (roles : list string) :
  (HasAnyRole c roles = true ↔ cRole c ∈ roles)
  ∧ HasAnyRole c [] = false
  ∧ HasRole c role = HasAnyRole c [role]
  ∧ (HasRole c role = true ↔ cRole c = role)
  ∧ IsAdmin c = HasRole c RoleAdmin
  ∧ IsTrader c = HasRole c RoleTrader
  ∧ IsAnalyst c = HasRole c RoleAnalyst
  ∧ (IsAdmin c = true → IsTrader c = false ∧ IsAnalyst c = false)
  ∧ (IsTrader c = true → IsAdmin c = false ∧ IsAnalyst c = false)
  ∧ (IsAnalyst c = true → IsAdmin c = false ∧ IsTrader c = false).
Proof.
  split; [apply HasAnyRole_elem_of|]. split; [reflexivity|].
  split; [unfold HasRole; simpl; case_bool_decide; reflexivity|].
  split; [unfold HasRole; apply bool_decide_eq_true|].
  split; [reflexivity|]. split; [reflexivity|]. split; [reflexivity|].
  unfold IsAdmin, IsTrader, IsAnalyst, RoleAdmin, RoleTrader, RoleAnalyst.
  repeat split; apply bool_decide_eq_false_2; apply bool_decide_eq_true_1 in H;
    rewrite H; discriminate.
Qed.

(** ** The role middleware *)

Lemma RequireAnyRole_next (roles : list string) (c c' : Context) :
  RequireAnyRole roles c = Next c'
  ↔ c' = c ∧ ∃ cl, Keys c !! "claims" = Some (VClaims (Some cl)) ∧ cRole cl ∈ roles.
Proof.
  unfold RequireAnyRole. destruct (Keys c !! "claims") as [[[cl|]|s]|] eqn:E.
  - destruct (HasAnyRole cl roles) eqn:Hr; simpl.
    + apply HasAnyRole_elem_of in Hr. split.
      * intros [= <-]. split; [reflexivity|]. exists cl. tauto.
      * intros [-> _]. reflexivity.
    + split; [discriminate|]. intros [_ (cl' & [= <-] & Hin)].
      apply HasAnyRole_elem_of in Hin. congruence.
  - split; [destruct roles; discriminate|]. intros [_ (cl' & [=] & _)].
  - split; [discriminate|]. intros [_ (cl' & [=] & _)].
  - split; [discriminate|]. intros [_ (cl' & [=] & _)].
Qed.

Lemma RequireRole_any (role : string) (c : Context) :
  RequireRole role c = RequireAnyRole [role] c.
Proof.
  unfold RequireRole, RequireAnyRole. destruct (Keys c !! "claims") as [[[cl|]|s]|];
    try reflexivity.
  unfold HasRole. simpl. case_bool_decide; reflexivity.
Qed.

(** The role middleware.  [RequireAnyRole] lets a request through exactly
    when the context holds claims under the key "claims" whose role is one of
    the roles given, and hands the context on unchanged.  Otherwise it
    answers 401 exactly when the key is missing, 500 exactly when the key
    holds something that is not a claims pointer, and 403 when the role is
    not among the roles; a nil claims pointer makes it crash as soon as there
    is a role to compare.  [RequireRole] is the case of one role.  There is
    no hierarchy of roles: an admin is refused by [RequireTrader] and by
    [RequireAnalyst]. *)
Theorem role_middleware (roles : list string) (role : string) (c : Context) :
  (∀ c', RequireAnyRole roles c = Next c'
         ↔ c' = c ∧ ∃ cl, Keys c !! "claims" = Some (VClaims (Some cl))
                          ∧ cRole cl ∈ roles)
  ∧ (RequireAnyRole roles c = Abort StatusUnauthorized ↔ Keys c !! "claims" = None)
  ∧ (RequireAnyRole roles c = Abort StatusInternalError
     ↔ ∃ s, Keys c !! "claims" = Some (VOther s))
  ∧ (RequireAnyRole roles c = Abort StatusForbidden
     ↔ (∃ cl, Keys c !! "claims" = Some (VClaims (Some cl)) ∧ cRole cl ∉ roles)
       ∨ (Keys c !! "claims" = Some (VClaims None) ∧ roles = []))
  ∧ (RequireAnyRole roles c = Crash
     ↔ Keys c !! "claims" = Some (VClaims None) ∧ roles ≠ [])
  ∧ RequireRole role c = RequireAnyRole [role] c
  ∧ (∀ cl, Keys c !! "claims" = Some (VClaims (Some cl)) → cRole cl = RoleAdmin →
           RequireAdmin c = Next c ∧ RequireTraderOrAdmin c = Next c
           ∧ RequireAnalystOrAdmin c = Next c
           ∧ RequireTrader c = Abort StatusForbidden
           ∧ RequireAnalyst c = Abort StatusForbidden).
Proof.
  split; [intros c'; apply RequireAnyRole_next|].
  split; [|split; [|split; [|split; [|split; [apply RequireRole_any|]]]]].
  - unfold RequireAnyRole. destruct (Keys c !! "claims") as [[[cl|]|s]|].
    + destruct (HasAnyRole cl roles); simpl; split; discriminate.
    + destruct roles; split; discriminate.
    + split; discriminate.
    + split; reflexivity.
  - unfold RequireAnyRole. destruct (Keys c !! "claims") as [[[cl|]|s]|].
    + destruct (HasAnyRole cl roles); simpl; (split; [discriminate | intros [s [=]]]).
    + destruct roles; (split; [discriminate | intros [s' [=]]]).
    + split; [intros _; exists s; reflexivity | reflexivity].
    + split; [discriminate | intros [s [=]]].
  - unfold RequireAnyRole. destruct (Keys c !! "claims") as [[[cl|]|s]|].
    + destruct (HasAnyRole cl roles) eqn:Hr; simpl.
      * apply HasAnyRole_elem_of in Hr. split; [discriminate|].
        intros [(cl' & [= <-] & Hn) | [[=] _]]. contradiction.
      * split; [|reflexivity]. intros _. left. exists cl. split; [reflexivity|].
        intros Hin. apply HasAnyRole_elem_of in Hin. congruence.
    + destruct roles as [|r roles].
      * split; [intros _; right; split; reflexivity | reflexivity].
      * split; [discriminate|]. intros [(cl' & [=] & _) | [_ [=]]].
    + split; [discriminate|]. intros [(cl' & [=] & _) | [[=] _]].
    + split; [discriminate|]. intros [(cl' & [=] & _) | [[=] _]].
  - unfold RequireAnyRole. destruct (Keys c !! "claims") as [[[cl|]|s]|].
    + destruct (HasAnyRole cl roles); simpl; (split; [discriminate | intros [[=] _]]).
    + destruct roles as [|r roles].
      * split; [discriminate | intros [_ Hn]; contradiction].
      * split; [intros _; split; [reflexivity | discriminate] | reflexivity].
    + split; [discriminate | intros [[=] _]].
    + split; [discriminate | intros [[=] _]].
  - intros cl Hcl Hrole.
    unfold RequireAdmin, RequireTraderOrAdmin, RequireAnalystOrAdmin, RequireTrader,
      RequireAnalyst, RequireRole, RequireAnyRole, HasRole.
    rewrite Hcl. simpl. rewrite Hrole. repeat split; reflexivity.
Qed.

Lemma role_middleware_witness :
  RequireAdmin (mkContext "t" {[ "claims" := VClaims (Some (mkClaims "u" "admin")) ]})
  = Next (mkContext "t" {[ "claims" := VClaims (Some (mkClaims "u" "admin")) ]})
  ∧ RequireTraderOrAdmin
      (mkContext "t" {[ "claims" := VClaims (Some (mkClaims "u" "admin")) ]})
    = Next (mkContext "t" {[ "claims" := VClaims (Some (mkClaims "u" "admin")) ]})
  ∧ RequireAnalystOrAdmin
      (mkContext "t" {[ "claims" := VClaims (Some (mkClaims "u" "admin")) ]})
    = Next (mkContext "t" {[ "claims" := VClaims (Some (mkClaims "u" "admin")) ]})
  ∧ RequireTrader (mkContext "t" {[ "claims" := VClaims (Some (mkClaims "u" "admin")) ]})
    = Abort StatusForbidden
  ∧ RequireAnalyst (mkContext "t" {[ "claims" := VClaims (Some (mkClaims "u" "admin")) ]})
    = Abort StatusForbidden.
Proof.
  exact (proj2 (proj2 (proj2 (proj2 (proj2 (proj2
           (role_middleware [] ""
              (mkContext "t" {[ "claims" := VClaims (Some (mkClaims "u" "admin")) ]})))))))
           (mkClaims "u" "admin") eq_refl eq_refl).
Defined.

(** Behind [AuthMiddleware] no role check is ever passed.
    [AuthMiddleware] answers 401 to a request without Authorization header
    and otherwise sets the key "user_id" and nothing else; so on a context
    that does not hold the key "claims" when the chain starts, the chain of
    [AuthMiddleware], a role check and any further handlers answers 401,
    whatever the header and the roles asked for, and the handlers behind the
    role check are not run. *)
Theorem role_check_behind_auth_is_never_passed (roles : list string)
    (hs : list (Context → outcome)) (c : Context) :
  Keys c !! "claims" = None →
  chain (AuthMiddleware :: RequireAnyRole roles :: hs) c = Abort StatusUnauthorized
  ∧ ∀ role, chain (AuthMiddleware :: RequireRole role :: hs) c = Abort StatusUnauthorized.
Proof.
  intros Hc.
  assert (Hany : ∀ rs, chain (AuthMiddleware :: RequireAnyRole rs :: hs) c
                       = Abort StatusUnauthorized).
  { intros rs. cbn [chain]. unfold AuthMiddleware, isValidToken.
    case_bool_decide as Ht; [reflexivity|].
    rewrite (bool_decide_eq_true_2 _ Ht). simpl.
    unfold RequireAnyRole. simpl.
    rewrite lookup_insert_ne by discriminate. rewrite Hc. reflexivity. }
  split; [apply Hany|]. intros role.
  specialize (Hany [role]). cbn [chain] in *.
  destruct (AuthMiddleware c) as [s|c1|]; [exact Hany| |exact Hany].
  rewrite RequireRole_any. exact Hany.
Qed.

Lemma role_check_behind_auth_is_never_passed_witness :
  chain [AuthMiddleware; RequireAnyRole [RoleTrader; RoleAdmin]] (mkContext "token" ∅)
  = Abort StatusUnauthorized
  ∧ ∀ role, chain [AuthMiddleware; RequireRole role] (mkContext "token" ∅)
            = Abort StatusUnauthorized.
Proof.
  apply (role_check_behind_auth_is_never_passed [RoleTrader; RoleAdmin] []
           (mkContext "token" ∅)).
  reflexivity.
Defined.

(** ** The candle *)

Lemma ohlcv_fold (ts : list Trade) :
  ∀ o,
    let o' := foldl ohlcv_step o ts in
    OSymbol o' = OSymbol o ∧ OOpen o' = OOpen o ∧ OClose o' = OClose o
    ∧ OVolume o' = OVolume o + traded ts
    ∧ OHigh o ≤ OHigh o' ∧ OLow o' ≤ OLow o
    ∧ (∀ t, t ∈ ts → OLow o' ≤ TPrice t ≤ OHigh o')
    ∧ (OHigh o' = OHigh o ∨ ∃ t, t ∈ ts ∧ OHigh o' = TPrice t)
    ∧ (OLow o' = OLow o ∨ ∃ t, t ∈ ts ∧ OLow o' = TPrice t).
Proof.
  induction ts as [|t ts IH]; intros o; cbn zeta.
  - simpl. unfold traded. simpl.
    split; [reflexivity|]. split; [reflexivity|]. split; [reflexivity|].
    split; [lia|]. split; [lia|]. split; [lia|].
    split; [intros t Ht; inversion Ht|]. split; left; reflexivity.
  - simpl foldl. specialize (IH (ohlcv_step o t)). cbn zeta in IH.
    destruct IH as (Hs & Ho & Hc & Hv & Hh & Hl & Hall & Hhi & Hlo).
    set (o' := foldl ohlcv_step (ohlcv_step o t) ts) in *.
    simpl in Hs, Ho, Hc, Hv, Hh, Hl, Hhi, Hlo.
    split; [exact Hs|]. split; [exact Ho|]. split; [exact Hc|].
    split; [rewrite Hv; change (traded (t :: ts)) with (TQuantity t + traded ts); lia|].
    split; [lia|]. split; [lia|]. split; [|split].
    + intros t' Ht'. apply elem_of_cons in Ht' as [-> | Ht']; [lia | exact (Hall _ Ht')].
    + destruct Hhi as [Hhi | (t' & Ht' & Hhi)].
      * destruct (Z.max_spec (OHigh o) (TPrice t)) as [[_ Hm] | [_ Hm]].
        -- right. exists t. split; [left | lia].
        -- left. lia.
      * right. exists t'. split; [right; exact Ht' | exact Hhi].
    + destruct Hlo as [Hlo | (t' & Ht' & Hlo)].
      * destruct (Z.min_spec (OLow o) (TPrice t)) as [[_ Hm] | [_ Hm]].
        -- left. lia.
        -- right. exists t. split; [left | lia].
      * right. exists t'. split; [right; exact Ht' | exact Hlo].
Qed.

(** The candle of a list of trades.  [CalculateOHLCV] returns nil
    exactly for the empty list.  Otherwise the candle carries the symbol of
    the first trade; its open is the price of the first trade and its close
    the price of the last; its high is the highest and its low the lowest
    trade price, each the price of a trade of the list; and its volume is the
    sum of the trade quantities. *)
Theorem candle_of_trades (trades : list Trade) :
  (CalculateOHLCV trades = None ↔ trades = [])
  ∧ ∀ first rest, trades = first :: rest →
      ∃ o, CalculateOHLCV trades = Some o
           ∧ OSymbol o = TSymbol first
           ∧ OOpen o = TPrice first
           ∧ OClose o = TPrice (List.last trades first)
           ∧ OVolume o = traded trades
           ∧ (∀ t, t ∈ trades → OLow o ≤ TPrice t ≤ OHigh o)
           ∧ (∃ t, t ∈ trades ∧ OHigh o = TPrice t)
           ∧ (∃ t, t ∈ trades ∧ OLow o = TPrice t)
           ∧ OLow o ≤ OOpen o ≤ OHigh o
           ∧ OLow o ≤ OClose o ≤ OHigh o.
Proof.
  split.
  - destruct trades; simpl; split; intros H; try discriminate; reflexivity.
  - intros first rest ->. unfold CalculateOHLCV.
    set (o0 := mkOHLCV (TSymbol first) (TPrice first) (TPrice first) (TPrice first)
                       (TPrice (List.last (first :: rest) first)) 0).
    destruct (ohlcv_fold (first :: rest) o0)
      as (Hs & Ho & Hc & Hv & Hh & Hl & Hall & Hhi & Hlo).
    cbn zeta in *. set (o := foldl ohlcv_step o0 (first :: rest)) in *.
    simpl in Hs, Ho, Hc, Hv, Hh, Hl, Hhi, Hlo.
    exists o. split; [reflexivity|]. split; [exact Hs|]. split; [exact Ho|].
    split; [exact Hc|]. split; [unfold traded in *; simpl in *; lia|]. split; [exact Hall|].
    assert (Hlast : List.last (first :: rest) first ∈ first :: rest).
    { clear. generalize first at 1 3. induction rest as [|t rest IH]; intros d.
      - left.
      - right. apply (IH t). }
    split; [|split; [|split]].
    + destruct Hhi as [Hhi | Hhi]; [|exact Hhi]. exists first. split; [left | exact Hhi].
    + destruct Hlo as [Hlo | Hlo]; [|exact Hlo]. exists first. split; [left | exact Hlo].
    + rewrite Ho. apply Hall. left.
    + rewrite Hc. apply Hall. exact Hlast.
Qed.

Lemma candle_of_trades_witness :
  ∃ o, CalculateOHLCV [S1_trade; mkTrade "X" "b" "t" 12 5 "u" "u"] = Some o
       ∧ OSymbol o = TSymbol S1_trade
       ∧ OOpen o = TPrice S1_trade
       ∧ OClose o = TPrice (List.last [S1_trade; mkTrade "X" "b" "t" 12 5 "u" "u"] S1_trade)
       ∧ OVolume o = traded [S1_trade; mkTrade "X" "b" "t" 12 5 "u" "u"]
       ∧ (∀ t, t ∈ [S1_trade; mkTrade "X" "b" "t" 12 5 "u" "u"] →
               OLow o ≤ TPrice t ≤ OHigh o)
       ∧ (∃ t, t ∈ [S1_trade; mkTrade "X" "b" "t" 12 5 "u" "u"] ∧ OHigh o = TPrice t)
       ∧ (∃ t, t ∈ [S1_trade; mkTrade "X" "b" "t" 12 5 "u" "u"] ∧ OLow o = TPrice t)
       ∧ OLow o ≤ OOpen o ≤ OHigh o
       ∧ OLow o ≤ OClose o ≤ OHigh o.
Proof.
  exact (proj2 (candle_of_trades [S1_trade; mkTrade "X" "b" "t" 12 5 "u" "u"])
           S1_trade [mkTrade "X" "b" "t" 12 5 "u" "u"] eq_refl).
Defined.

(** ** The loop returns *)

Lemma updateOrderStatus_ok (p : loc) (m : Mem) (o : Order) :
  m !! p = Some o → updateOrderStatus p m = Ok (tt, <[p := settled o]> m).
Proof.
  intros Hp. unfold updateOrderStatus, settled.
  rewrite (bind_ok _ _ _ _ _ (load_ok _ _ _ Hp)).
  case_bool_decide; [apply update_ok; exact Hp|].
  case_bool_decide; [apply update_ok; exact Hp|].
  rewrite (insert_id _ _ _ Hp). reflexivity.
Qed.

Lemma settle_ok (p q : loc) (tradeQty : Z) (m : Mem) (o mk : Order) :
  m !! p = Some o → m !! q = Some mk → p ≠ q →
  settle p q tradeQty m
  = Ok (tt, <[q := settled (fill tradeQty mk)]>
              (<[p := settled (fill tradeQty o)]>
                 (<[q := fill tradeQty mk]> (<[p := fill tradeQty o]> m)))).
Proof.
  intros Hp Hq Hne. unfold settle.
  rewrite (bind_ok _ _ _ _ _ (update_ok p (fill tradeQty) m o Hp)).
  rewrite (bind_ok _ _ _ _ _ (update_ok q (fill tradeQty) _ mk
             ltac:(rewrite lookup_insert_ne by exact Hne; exact Hq))).
  rewrite (bind_ok _ _ _ _ _ (updateOrderStatus_ok p _ (fill tradeQty o)
             ltac:(rewrite lookup_insert_ne by (intros E; exact (Hne (eq_sym E)));
                   apply lookup_insert_eq))).
  apply updateOrderStatus_ok.
  rewrite lookup_insert_ne by exact Hne. apply lookup_insert_eq.
Qed.

Lemma matchOrder_done (f : nat) (ob : OrderBook) (p : loc) (acc : list Trade)
    (m : Mem) (o : Order) :
  m !! p = Some o → ¬ RemainingQty o > 0 →
  matchOrder (S f) ob p acc m = Ok (ob, acc, None, m).
Proof.
  intros Hp Hr. cbn [matchOrder].
  rewrite (bind_ok _ _ _ _ _ (load_ok _ _ _ Hp)).
  rewrite (bool_decide_eq_false_2 _ Hr). reflexivity.
Qed.

(** One turn of the loop that trades, run forward. *)
Lemma matchOrder_trade (f : nat) (ob : OrderBook) (p q : loc) (acc : list Trade)
    (m m1 : Mem) (o mk mk1 : Order) :
  m !! p = Some o → RemainingQty o > 0 →
  best_opposite o ob = (Some q, None) → m !! q = Some mk → ¬ price_stops o mk →
  settle p q (min (RemainingQty o) (RemainingQty mk)) m = Ok (tt, m1) →
  m1 !! q = Some mk1 →
  matchOrder (S f) ob p acc m
  = (if bool_decide (Status mk1 = OrderStatusFilled) then
       r ← CancelOrder ob (ID mk1);
       match r with
       | (ob', Some err) => mret (ob', acc, Some err)
       | (ob', None) =>
           matchOrder f ob' p
             (acc ++ [make_trade o mk (Price mk) (min (RemainingQty o) (RemainingQty mk))])
       end
     else matchOrder f ob p
            (acc ++ [make_trade o mk (Price mk) (min (RemainingQty o) (RemainingQty mk))]))
      m1.
Proof.
  intros Hp Hr Hb Hq Hns Hset Hq1.
  assert (E1 : bool_decide (Type_ o = LimitOrder) && bool_decide (Side o = BuyOrder)
               && bool_decide (Price o < Price mk) = false).
  { apply not_true_is_false. intros E. apply Hns. apply price_stops_dec. left. exact E. }
  assert (E2 : bool_decide (Type_ o = LimitOrder) && bool_decide (Side o = SellOrder)
               && bool_decide (Price o > Price mk) = false).
  { apply not_true_is_false. intros E. apply Hns. apply price_stops_dec. right. exact E. }
  cbn [matchOrder].
  rewrite (bind_ok _ _ _ _ _ (load_ok _ _ _ Hp)).
  rewrite (bool_decide_eq_true_2 _ Hr). rewrite Hb.
  rewrite (bind_ok _ _ _ _ _ (load_ok _ _ _ Hq)).
  rewrite E1, E2.
  unfold settle in Hset.
  apply bind_inv in Hset as ([] & ma & Ea & Hset). rewrite (bind_ok _ _ _ _ _ Ea).
  apply bind_inv in Hset as ([] & mb & Eb & Hset). rewrite (bind_ok _ _ _ _ _ Eb).
  apply bind_inv in Hset as ([] & mc & Ec & Hset). rewrite (bind_ok _ _ _ _ _ Ec).
  rewrite (bind_ok _ _ _ _ _ Hset).
  rewrite (bind_ok _ _ _ _ _ (load_ok _ _ _ Hq1)).
  reflexivity.
Qed.

Lemma find_level_placed (ls : priceLevels) (k : nat) (l : priceLevel) :
  NoDup (price <$> ls) → ls !! k = Some l → find_level (price l) ls = Some k.
Proof.
  revert k. induction ls as [|x ls IH]; intros k Hnd Hk; [discriminate|].
  rewrite fmap_cons in Hnd. apply list.NoDup_cons in Hnd as [Hx Hnd].
  destruct k as [|k]; simpl in *.
  - injection Hk as ->. rewrite bool_decide_eq_true_2 by reflexivity. reflexivity.
  - rewrite bool_decide_eq_false_2.
    + rewrite (IH k Hnd Hk). reflexivity.
    + intros Heq. apply Hx. rewrite Heq. apply list_elem_of_fmap.
      exists l. split; [reflexivity | exact (list_elem_of_lookup_2 _ _ _ Hk)].
Qed.

Lemma flat_map_insert_length (ls : priceLevels) (k : nat) (l l' : priceLevel) :
  ls !! k = Some l →
  (length (flat_map orders (<[k := l']> ls)) + length (orders l)
   = length (flat_map orders ls) + length (orders l'))%nat.
Proof.
  revert k. induction ls as [|x ls IH]; intros [|k] Hk; simpl in *; try discriminate.
  - injection Hk as ->. rewrite !length_app. lia.
  - rewrite !length_app. specialize (IH k Hk). lia.
Qed.

Lemma resting_elem_of (ob : OrderBook) (q : loc) :
  q ∈ resting ob ↔ ∃ l, l ∈ bids ob ++ asks ob ∧ q ∈ orders l.
Proof.
  unfold resting. rewrite list_elem_of_In, in_flat_map. split.
  - intros (l & Hl & Hq). exists l. rewrite !list_elem_of_In. tauto.
  - intros (l & Hl & Hq). exists l. rewrite <- !list_elem_of_In. tauto.
Qed.

Lemma levels_shrunk_elem_of (ls ls' : priceLevels) (l' : priceLevel) :
  levels_shrunk ls ls' → l' ∈ ls' →
  ∃ l, l ∈ ls ∧ price l' = price l ∧ sublist (orders l') (orders l).
Proof.
  induction 1 as [|a b ls ls' [Hp Hs] _ IH]; intros Hin; [inversion Hin|].
  apply elem_of_cons in Hin as [-> | Hin].
  - exists a. split; [left | tauto].
  - destruct (IH Hin) as (l & Hl & Hrest). exists l. split; [right; exact Hl | exact Hrest].
Qed.

Lemma placed_shrunk (m m' : Mem) (buy : bool) (ls ls' : priceLevels) :
  placed m buy ls → levels_shrunk ls ls' → store_conserved m m' → placed m' buy ls'.
Proof.
  intros [Hnd Hpl] Hsh Hc. split.
  - destruct (levels_shrunk_facts _ _ Hsh) as [-> _]. exact Hnd.
  - intros l' r Hl' Hr.
    destruct (levels_shrunk_elem_of _ _ _ Hsh Hl') as (l & Hl & Hp & Hsub).
    destruct (Hpl l r Hl (elem_of_sublist _ _ _ Hr Hsub)) as (o & Ho & Hb & Hpr).
    destruct (Hc r o Ho) as (o' & Ho' & (_ & _ & _ & _ & Hsd & Hprice & _)).
    exists o'. split; [exact Ho'|]. unfold is_buy in *. rewrite Hsd, Hprice, Hp. tauto.
Qed.

Lemma book_wf_shrunk (m m' : Mem) (ob ob' : OrderBook) :
  book_wf m ob → book_shrunk ob ob' → ob_orders ob' = ob_orders ob →
  store_conserved m m' → book_wf m' ob'.
Proof.
  intros (Hreg & Hb & Ha) [Hsb Hsa] Hmap Hc. split; [|split].
  - intros l' r o' Hl' Hr Hm'. rewrite Hmap.
    assert (Hl : ∃ l, l ∈ bids ob ++ asks ob ∧ r ∈ orders l).
    { apply elem_of_app in Hl' as [Hl' | Hl'].
      - destruct (levels_shrunk_elem_of _ _ _ Hsb Hl') as (l & Hl & _ & Hsub).
        exists l. split; [apply elem_of_app; left; exact Hl|].
        exact (elem_of_sublist _ _ _ Hr Hsub).
      - destruct (levels_shrunk_elem_of _ _ _ Hsa Hl') as (l & Hl & _ & Hsub).
        exists l. split; [apply elem_of_app; right; exact Hl|].
        exact (elem_of_sublist _ _ _ Hr Hsub). }
    destruct Hl as (l & Hl & Hrl).
    assert (Ho : ∃ o, m !! r = Some o).
    { apply elem_of_app in Hl as [Hl | Hl].
      - destruct (proj2 Hb l r Hl Hrl) as (o & Ho & _). exists o. exact Ho.
      - destruct (proj2 Ha l r Hl Hrl) as (o & Ho & _). exists o. exact Ho. }
    destruct Ho as (o & Ho). destruct (Hc r o Ho) as (o'' & Ho'' & (Hid & _)).
    rewrite Hm' in Ho''. injection Ho'' as <-. rewrite Hid.
    apply (Hreg l r o); [apply elem_of_app; apply elem_of_app in Hl; exact Hl | exact Hrl | exact Ho].
  - exact (placed_shrunk _ _ _ _ _ Hb Hsb Hc).
  - exact (placed_shrunk _ _ _ _ _ Ha Hsa Hc).
Qed.

(** The cancel of a resting order of a well-formed book succeeds and takes
    one order out of the levels. *)
Lemma CancelOrder_wf_ok (ob : OrderBook) (m : Mem) (q : loc) (o : Order) :
  book_wf m ob → q ∈ resting ob → m !! q = Some o →
  Status o ≠ OrderStatusCancelled →
  ∃ ob1, CancelOrder ob (ID o) m
         = Ok (ob1, None, <[q := with_Status OrderStatusCancelled o]> m)
         ∧ (length (resting ob1) < length (resting ob))%nat.
Proof.
  intros (Hreg & Hb & Ha) Hq Ho Hst.
  apply resting_elem_of in Hq as (l & Hl & Hql).
  pose proof (Hreg l q o Hl Hql Ho) as Hid.
  assert (Hside : l ∈ side_levels (is_buy o) ob
                  ∧ placed m (is_buy o) (side_levels (is_buy o) ob) ∧ Price o = price l).
  { apply elem_of_app in Hl as [Hl | Hl].
    - destruct (proj2 Hb l q Hl Hql) as (o' & Ho' & Hbuy & Hp).
      rewrite Ho in Ho'. injection Ho' as <-. rewrite Hbuy. simpl. tauto.
    - destruct (proj2 Ha l q Hl Hql) as (o' & Ho' & Hbuy & Hp).
      rewrite Ho in Ho'. injection Ho' as <-. rewrite Hbuy. simpl. tauto. }
  destruct Hside as (Hls & [Hnd Hpl] & Hprice).
  apply list_elem_of_lookup_1 in Hls as [k Hk].
  pose proof (find_level_placed _ _ _ Hnd Hk) as Hfind. rewrite <- Hprice in Hfind.
  destruct (list_elem_of_split_l _ _ Hql) as (pre & post & Hsplit & Hpre).
  assert (Hpre' : ∀ r, r ∈ pre → ∃ o', m !! r = Some o' ∧ ID o' ≠ ID o).
  { intros r Hr.
    destruct (Hpl l r (list_elem_of_lookup_2 _ _ _ Hk)
                ltac:(rewrite Hsplit; apply elem_of_app; left; exact Hr))
      as (o' & Ho' & _).
    exists o'. split; [exact Ho'|]. intros Heq.
    pose proof (Hreg l r o' Hl ltac:(rewrite Hsplit; apply elem_of_app; left; exact Hr) Ho')
      as Hr'.
    rewrite Heq, Hid in Hr'. injection Hr' as <-. exact (Hpre Hr). }
  eexists. split.
  - exact (CancelOrder_removes ob (ID o) m q o k l pre post Hid Ho eq_refl Hst Hfind Hk
             Hsplit Hpre').
  - unfold resting. rewrite !flat_map_app, !length_app.
    pose proof (flat_map_insert_length (side_levels (is_buy o) ob) k l
                  (mkLevel (price l) (pre ++ post) (volume l - RemainingQty o)) Hk) as Hlen.
    simpl in Hlen. rewrite Hsplit in Hlen. rewrite !length_app in Hlen. simpl in Hlen.
    destruct (is_buy o); simpl in *; lia.
Qed.

Lemma settled_facts (o : Order) :
  conserved o (settled o) ∧ RemainingQty (settled o) = RemainingQty o
  ∧ (RemainingQty o = 0 → Status (settled o) = OrderStatusFilled).
Proof.
  unfold settled. repeat case_bool_decide; simpl.
  all: split; [repeat split|]; split; [reflexivity|]; intros Hz;
    first [reflexivity | contradiction].
Qed.

Lemma book_wf_allocated (m : Mem) (ob : OrderBook) (q : loc) :
  book_wf m ob → q ∈ resting ob → ∃ o, m !! q = Some o.
Proof.
  intros (_ & Hb & Ha) Hq. apply resting_elem_of in Hq as (l & Hl & Hql).
  apply elem_of_app in Hl as [Hl | Hl].
  - destruct (proj2 Hb l q Hl Hql) as (o & Ho & _). exists o. exact Ho.
  - destruct (proj2 Ha l q Hl Hql) as (o & Ho & _). exists o. exact Ho.
Qed.

Lemma matchOrder_returns (n : nat) :
  ∀ fuel ob p acc m o,
    (length (resting ob) ≤ n)%nat → (n + 2 ≤ fuel)%nat →
    book_wf m ob → m !! p = Some o → p ∉ resting ob → Symbol o = symbol ob →
    ∃ ob' tr m', matchOrder fuel ob p acc m = Ok (ob', tr, None, m') ∧ book_wf m' ob'.
Proof.
  induction n as [|n IH]; intros fuel ob p acc m o Hlen Hfuel Hwf Hp Hrest Hsym.
  all: destruct fuel as [|f]; [lia|].
  all: destruct (decide (RemainingQty o > 0)) as [Hpos | Hdone];
    [|exists ob, acc, m; split; [exact (matchOrder_done _ _ _ _ _ _ Hp Hdone) | exact Hwf]].
  all: destruct (best_opposite o ob) as [[q|] [err|]] eqn:Hb.
  all: try (apply best_opposite_errors in Hb as [_ Hb]; contradiction).
  all: try (exists ob, acc, m; split; [|exact Hwf]; cbn [matchOrder];
            rewrite (bind_ok _ _ _ _ _ (load_ok _ _ _ Hp));
            rewrite (bool_decide_eq_true_2 _ Hpos); rewrite Hb; reflexivity).
  all: pose proof (best_opposite_resting _ _ _ _ Hb) as Hq.
  - (* no resting order at all *)
    destruct (resting ob); [inversion Hq | simpl in Hlen; lia].
  - destruct (book_wf_allocated _ _ _ Hwf Hq) as (mk & Hmk).
    assert (Hne : p ≠ q) by (intros ->; exact (Hrest Hq)).
    destruct (bool_decide (Type_ o = LimitOrder) && bool_decide (Side o = BuyOrder)
              && bool_decide (Price o < Price mk)) eqn:E1.
    { exists ob, acc, m. split; [|exact Hwf]. cbn [matchOrder].
      rewrite (bind_ok _ _ _ _ _ (load_ok _ _ _ Hp)).
      rewrite (bool_decide_eq_true_2 _ Hpos). rewrite Hb.
      rewrite (bind_ok _ _ _ _ _ (load_ok _ _ _ Hmk)). rewrite E1. reflexivity. }
    destruct (bool_decide (Type_ o = LimitOrder) && bool_decide (Side o = SellOrder)
              && bool_decide (Price o > Price mk)) eqn:E2.
    { exists ob, acc, m. split; [|exact Hwf]. cbn [matchOrder].
      rewrite (bind_ok _ _ _ _ _ (load_ok _ _ _ Hp)).
      rewrite (bool_decide_eq_true_2 _ Hpos). rewrite Hb.
      rewrite (bind_ok _ _ _ _ _ (load_ok _ _ _ Hmk)). rewrite E1, E2. reflexivity. }
    assert (Hns : ¬ price_stops o mk).
    { rewrite price_stops_dec. intros [Hs | Hs]; congruence. }
    set (tq := min (RemainingQty o) (RemainingQty mk)) in *.
    pose proof (settle_ok p q tq m o mk Hp Hmk Hne) as Hset.
    set (m1 := <[q := settled (fill tq mk)]>
                 (<[p := settled (fill tq o)]>
                    (<[q := fill tq mk]> (<[p := fill tq o]> m)))) in *.
    assert (Hq1 : m1 !! q = Some (settled (fill tq mk))) by apply lookup_insert_eq.
    assert (Hp1 : m1 !! p = Some (settled (fill tq o))).
    { unfold m1. rewrite lookup_insert_ne by (intros E; exact (Hne (eq_sym E))).
      apply lookup_insert_eq. }
    pose proof (settle_conserved _ _ _ _ _ _ Hset) as Hc1.
    pose proof (book_wf_shrunk _ _ _ _ Hwf (book_shrunk_refl ob) eq_refl Hc1) as Hwf1.
    rewrite (matchOrder_trade f ob p q acc m m1 o mk _ Hp Hpos Hb Hmk Hns Hset Hq1).
    destruct (settled_facts (fill tq mk)) as (_ & Hrq & Hfq).
    destruct (settled_facts (fill tq o)) as (Hco & Hrp & _).
    destruct (decide (Status (settled (fill tq mk)) = OrderStatusFilled))
      as [Hfilled | Hfilled];
      [rewrite (bool_decide_eq_true_2 _ Hfilled) | rewrite (bool_decide_eq_false_2 _ Hfilled)].
    + (* the maker is filled and leaves its level *)
      destruct (CancelOrder_wf_ok ob m1 q _ Hwf1 Hq Hq1
                  ltac:(rewrite Hfilled; discriminate)) as (ob1 & Hcan & Hless).
      rewrite (bind_ok _ _ _ _ _ Hcan).
      pose proof (CancelOrder_conserved _ _ _ _ _ _ Hcan) as Hc2.
      pose proof (CancelOrder_shrunk _ _ _ _ _ _ Hcan) as Hsh.
      destruct (Hc2 p _ Hp1) as (o2 & Hp2 & Hco2).
      apply (IH f ob1 p _ _ o2).
      * lia.
      * lia.
      * exact (book_wf_shrunk _ _ _ _ Hwf1 Hsh
                 (CancelOrder_keeps_id_map _ _ _ _ _ _ Hcan) Hc2).
      * exact Hp2.
      * intros Hin. apply Hrest. apply book_shrunk_facts in Hsh as (_ & _ & Hsub).
        exact (elem_of_sublist _ _ _ Hin Hsub).
      * rewrite (CancelOrder_symbol _ _ _ _ _ _ Hcan).
        destruct Hco2 as (_ & _ & -> & _). destruct Hco as (_ & _ & -> & _).
        simpl. exact Hsym.
    + (* the maker keeps a remainder: the taker is done *)
      assert (Hz : ¬ RemainingQty (settled (fill tq o)) > 0).
      { rewrite Hrp. simpl.
        assert (Hnz : RemainingQty (fill tq mk) ≠ 0) by (intros Hz; exact (Hfilled (Hfq Hz))).
        simpl in Hnz. unfold tq, min in *.
        destruct (bool_decide (RemainingQty o < RemainingQty mk)); lia. }
      destruct f as [|f]; [lia|].
      exists ob, (acc ++ [make_trade o mk (Price mk) tq]), m1.
      split; [exact (matchOrder_done _ _ _ _ _ _ Hp1 Hz) | exact Hwf1].
Qed.

Lemma AddOrder_returns (Push : priceLevels → priceLevel → priceLevels)
    (ob : OrderBook) (p : loc) (m : Mem) (o : Order) :
  m !! p = Some o →
  ∃ ob' e m', AddOrder Push ob p m = Ok (ob', e, m')
              ∧ (e = None ∨ e = Some (ErrOrderExists (ID o))).
Proof.
  intros Hp. unfold AddOrder.
  rewrite (bind_ok _ _ _ _ _ (load_ok _ _ _ Hp)).
  destruct (ob_orders ob !! ID o).
  - eexists _, _, _. split; [reflexivity | right; reflexivity].
  - rewrite (bind_ok _ _ _ _ _ (update_ok _ _ _ _ Hp)).
    rewrite (bind_ok _ _ _ _ _ (load_ok p _ _ ltac:(apply lookup_insert_eq))).
    eexists _, _, _. split; [reflexivity | left; reflexivity].
Qed.

Lemma ProcessOrder_returns (Push : priceLevels → priceLevel → priceLevels)
    (fuel : nat) (me : MatchingEngine) (p : loc) (m : Mem) (o : Order) :
  m !! p = Some o → well_keyed me →
  book_wf m (book_for (Symbol o) me) → p ∉ resting (book_for (Symbol o) me) →
  (length (resting (book_for (Symbol o) me)) + 2 ≤ fuel)%nat →
  ∃ me' tr e m',
    ProcessOrder Push fuel me p m = Ok (me', tr, e, m')
    ∧ (e = None ∨ e = Some ErrMarketNotFilled ∨ e = Some (ErrOrderExists (ID o))).
Proof.
  intros Hp Hme Hwf Hrest Hfuel.
  pose proof (book_for_symbol (Symbol o) me Hme) as Hsym.
  destruct (matchOrder_returns _ fuel _ p [] m o (le_n _) Hfuel Hwf Hp Hrest (eq_sym Hsym))
    as (ob1 & tr1 & m1 & Hmatch & _).
  destruct (matchOrder_store_conserved _ _ _ _ _ _ _ _ _ Hmatch p o Hp)
    as (o1 & Hp1 & (Hid & _)).
  unfold ProcessOrder.
  rewrite (bind_ok _ _ _ _ _ (load_ok _ _ _ Hp)).
  assert (Hx : (match orderBooks me !! Symbol o with
                | Some ob => (ob, me)
                | None => (NewOrderBook (Symbol o),
                           put_book (Symbol o) (NewOrderBook (Symbol o)) me)
                end) = (book_for (Symbol o) me, ensure_book (Symbol o) me)).
  { unfold book_for, ensure_book. destruct (orderBooks me !! Symbol o); reflexivity. }
  cbv zeta. rewrite Hx. clear Hx.
  destruct (bool_decide (Type_ o = MarketOrder)).
  - assert (Hpm : ∃ tr e m2,
              processMarketOrder fuel (book_for (Symbol o) me) p m = Ok (ob1, tr, e, m2)
              ∧ (e = None ∨ e = Some ErrMarketNotFilled)).
    { unfold processMarketOrder. rewrite (bind_ok _ _ _ _ _ Hmatch).
      rewrite (bind_ok _ _ _ _ _ (load_ok _ _ _ Hp1)).
      destruct (bool_decide (RemainingQty o1 > 0)).
      - rewrite (bind_ok _ _ _ _ _ (update_ok _ _ _ _ Hp1)).
        eexists _, _, _. split; [reflexivity | right; reflexivity].
      - eexists _, _, _. split; [reflexivity | left; reflexivity]. }
    destruct Hpm as (tr & e & m2 & Hpm & He). rewrite (bind_ok _ _ _ _ _ Hpm).
    eexists _, _, _, _. split; [reflexivity|]. destruct He as [-> | ->]; tauto.
  - rewrite (bind_ok _ _ _ _ _ Hmatch).
    rewrite (bind_ok _ _ _ _ _ (load_ok _ _ _ Hp1)).
    destruct (bool_decide (RemainingQty o1 > 0)).
    + destruct (AddOrder_returns Push ob1 p m1 o1 Hp1) as (ob2 & e & m2 & Hadd & He).
      rewrite (bind_ok _ _ _ _ _ Hadd).
      eexists _, _, _, _. split; [reflexivity|]. rewrite Hid in He.
      destruct He as [-> | ->]; [left | right; right]; reflexivity.
    + eexists _, _, _, _. split; [reflexivity | left; reflexivity].
Qed.





(** ** The makers of the trades *)

Lemma update_back (p : loc) (f : Order → Order) (m m' : Mem) (u : unit) :
  update p f m = Ok (u, m') → ∀ r, is_Some (m' !! r) → is_Some (m !! r).
Proof.
  intros H r Hr. apply update_inv in H as (o & Ho & ->).
  destruct (decide (r = p)) as [->|Hne]; [eauto|].
  rewrite lookup_insert_ne in Hr by congruence. exact Hr.
Qed.

Lemma updateOrderStatus_back (p : loc) (m m' : Mem) (u : unit) :
  updateOrderStatus p m = Ok (u, m') → ∀ r, is_Some (m' !! r) → is_Some (m !! r).
Proof.
  intros H. unfold updateOrderStatus in H. step H. apply load_inv in E as [_ ->].
  step H; [|step H].
  - exact (update_back _ _ _ _ _ H).
  - exact (update_back _ _ _ _ _ H).
  - step H. injection H as _ ->. tauto.
Qed.

Lemma settle_back (p q : loc) (tradeQty : Z) (m m' : Mem) (u : unit) :
  settle p q tradeQty m = Ok (u, m') → ∀ r, is_Some (m' !! r) → is_Some (m !! r).
Proof.
  intros H r Hr. unfold settle in H. repeat (step H).
  apply (updateOrderStatus_back _ _ _ _ H) in Hr.
  apply (updateOrderStatus_back _ _ _ _ E1) in Hr.
  apply (update_back _ _ _ _ _ E0) in Hr.
  exact (update_back _ _ _ _ _ E _ Hr).
Qed.

Lemma CancelOrder_back (ob : OrderBook) (orderID : string) (m : Mem)
    (ob' : OrderBook) (e : option error) (m' : Mem) :
  CancelOrder ob orderID m = Ok (ob', e, m') → ∀ r, is_Some (m' !! r) → is_Some (m !! r).
Proof.
  intros H r Hr. destruct e as [err|].
  - apply CancelOrder_errors in H as (_ & -> & _). exact Hr.
  - destruct (CancelOrder_done _ _ _ _ _ H) as (q & o & _ & Ho & _ & ->).
    destruct (decide (r = q)) as [->|Hne]; [eauto|].
    rewrite lookup_insert_ne in Hr by congruence. exact Hr.
Qed.

Lemma best_opposite_first (o : Order) (ob : OrderBook) (q : loc) (e : option error) :
  best_opposite o ob = (Some q, e) → q ∈ first_level_orders (opposite_levels o ob).
Proof.
  unfold best_opposite, opposite_levels, GetBestAsk, GetBestBid.
  destruct (bool_decide (Side o = BuyOrder)); case_bool_decide; intros [= Hq];
    try discriminate.
  all: unfold best_of in Hq.
  - destruct (asks ob) as [|l ls]; [discriminate|]. simpl.
    destruct (orders l); [discriminate|]. injection Hq as ->. left.
  - destruct (bids ob) as [|l ls]; [discriminate|]. simpl.
    destruct (orders l); [discriminate|]. injection Hq as ->. left.
Qed.

Lemma book_shrunk_first (o o' : Order) (ob ob' : OrderBook) :
  book_shrunk ob ob' → Side o' = Side o →
  sublist (first_level_orders (opposite_levels o' ob'))
          (first_level_orders (opposite_levels o ob)).
Proof.
  intros [Hb Ha] Hs. unfold opposite_levels. rewrite Hs.
  destruct (bool_decide (Side o = BuyOrder)).
  - destruct Ha as [|l l' ls ls' [_ Hsub] _]; [reflexivity | exact Hsub].
  - destruct Hb as [|l l' ls ls' [_ Hsub] _]; [reflexivity | exact Hsub].
Qed.

Lemma trade_with_maker_conserved (side : OrderSide) (mk mk' : Order) (t : Trade) :
  conserved mk mk' → trade_with_maker side mk' t → trade_with_maker side mk t.
Proof.
  unfold conserved, trade_with_maker. intros (Hid & Hu & _ & _ & _ & Hp & _) H.
  rewrite Hid, Hu, Hp in H. exact H.
Qed.

Lemma make_trade_with_maker (o mk : Order) (q : Z) :
  trade_with_maker (Side o) mk (make_trade o mk (Price mk) q).
Proof.
  unfold trade_with_maker, make_trade. case_bool_decide as Hs; simpl.
  - split; [reflexivity|]. split; [tauto | intros Hn; contradiction].
  - split; [reflexivity|]. split; [intros Hn; contradiction | tauto].
Qed.

Lemma matchOrder_makers (fuel : nat) :
  ∀ ob p acc m ob' tr e m' o,
    matchOrder fuel ob p acc m = Ok (ob', tr, e, m') → m !! p = Some o →
    ∃ new, tr = acc ++ new
      ∧ Forall (λ t, ∃ q mk, q ∈ first_level_orders (opposite_levels o ob)
                             ∧ m !! q = Some mk ∧ trade_with_maker (Side o) mk t) new.
Proof.
  induction fuel as [|n IH]; intros ob p acc m ob' tr e m' o H Hp; [discriminate H|].
  apply matchOrder_inv in H as (o0 & Hp0 & H).
  rewrite Hp in Hp0. injection Hp0 as <-.
  destruct H as [(-> & -> & -> & _) | (_ & q & mk & m1 & mk1 & Hb & Hq & _ & Hset & _ & H)].
  { exists []. split; [symmetry; apply app_nil_r | constructor]. }
  pose proof (settle_conserved _ _ _ _ _ _ Hset) as Hc1.
  assert (Hgo : ∀ ob1 m2, store_conserved m m2 →
            (∀ r, is_Some (m2 !! r) → is_Some (m !! r)) → book_shrunk ob ob1 →
            matchOrder n ob1 p
              (acc ++ [make_trade o mk (Price mk) (min (RemainingQty o) (RemainingQty mk))])
              m2 = Ok (ob', tr, e, m') →
            ∃ new, tr = acc ++ new
              ∧ Forall (λ t, ∃ q mk, q ∈ first_level_orders (opposite_levels o ob)
                                     ∧ m !! q = Some mk
                                     ∧ trade_with_maker (Side o) mk t) new).
  { intros ob1 m2 Hc Hback Hsh Hrec.
    destruct (Hc p o Hp) as (o2 & Hp2 & Hco).
    assert (Hside : Side o2 = Side o) by (destruct Hco as (_ & _ & _ & _ & Hs & _); exact Hs).
    destruct (IH _ _ _ _ _ _ _ _ _ Hrec Hp2) as (new & Htr & Hall).
    exists (make_trade o mk (Price mk) (min (RemainingQty o) (RemainingQty mk)) :: new).
    split; [rewrite Htr, <- app_assoc; reflexivity|].
    constructor.
    - exists q, mk. split; [exact (best_opposite_first _ _ _ _ Hb)|].
      split; [exact Hq | apply make_trade_with_maker].
    - eapply Forall_impl; [|exact Hall]. intros t (q' & mk' & Hin & Hm2 & Ht).
      destruct (Hback q' ltac:(eauto)) as [mk0 Hm0].
      destruct (Hc q' mk0 Hm0) as (mk'' & Hm2' & Hcm).
      rewrite Hm2 in Hm2'. injection Hm2' as <-.
      exists q', mk0.
      split; [exact (elem_of_sublist _ _ _ Hin (book_shrunk_first _ _ _ _ Hsh Hside))|].
      split; [exact Hm0|]. rewrite Hside in Ht.
      exact (trade_with_maker_conserved _ _ _ _ Hcm Ht). }
  destruct H as [(_ & ob1 & ec & m2 & Hcan & [(err & _ & _ & -> & _) | (_ & Hrec)]) | (_ & Hrec)].
  - exists []. split; [symmetry; apply app_nil_r | constructor].
  - apply (Hgo ob1 m2).
    + exact (store_conserved_trans _ _ _ Hc1 (CancelOrder_conserved _ _ _ _ _ _ Hcan)).
    + intros r Hr. apply (settle_back _ _ _ _ _ _ Hset).
      exact (CancelOrder_back _ _ _ _ _ _ Hcan r Hr).
    + exact (CancelOrder_shrunk _ _ _ _ _ _ Hcan).
    + exact Hrec.
  - apply (Hgo ob m1).
    + exact Hc1.
    + exact (settle_back _ _ _ _ _ _ Hset).
    + apply book_shrunk_refl.
    + exact Hrec.
Qed.

(** Matching trades with the first level of the opposite side only.  Every
    trade [ProcessOrder] returns was made with an order that was, when the
    call began, in the first level of the slice opposite to the submitted
    order (the asks for a BUY, the bids otherwise), at the price of that
    order and with it as the other party.  A level is never removed, so once
    the orders of the first level are used up the loop finds no counterparty,
    whatever the levels behind it hold. *)
Theorem trades_come_from_the_first_level (Push : priceLevels → priceLevel → priceLevels)
    (fuel : nat) (me : MatchingEngine) (p : loc) (m : Mem) (o : Order)
    (me' : MatchingEngine) (tr : list Trade) (e : option error) (m' : Mem) :
  m !! p = Some o → ProcessOrder Push fuel me p m = Ok (me', tr, e, m') →
  Forall (λ t, ∃ q mk,
            q ∈ first_level_orders (opposite_levels o (book_for (Symbol o) me))
            ∧ m !! q = Some mk ∧ trade_with_maker (Side o) mk t) tr.
Proof.
  intros Hp H. apply ProcessOrder_inv in H as (o0 & ob' & Hp0 & _ & H).
  rewrite Hp in Hp0. injection Hp0 as <-.
  destruct H as [[_ H] | [_ H]].
  - apply processMarketOrder_inv in H as (tr1 & e1 & m1 & H & Hrest).
    destruct (matchOrder_makers _ _ _ _ _ _ _ _ _ _ H Hp) as (new & -> & Hall).
    destruct Hrest as [(err & _ & _ & -> & _) | (_ & -> & _)]; [constructor | exact Hall].
  - destruct H as (ob1 & tr1 & e1 & m1 & H & Hrest).
    destruct (matchOrder_makers _ _ _ _ _ _ _ _ _ _ H Hp) as (new & -> & Hall).
    destruct Hrest as [(err & _ & _ & -> & _) | (_ & -> & _)]; [constructor | exact Hall].
Qed.

Lemma trades_come_from_the_first_level_witness :
  ∃ me' tr e m',
    ProcessOrder priceLevels_Push 8 ask5_engine p2 S3_store = Ok (me', tr, e, m')
    ∧ Forall (λ t, ∃ q mk,
                q ∈ first_level_orders
                      (opposite_levels (market "b" BuyOrder 25)
                         (book_for (Symbol (market "b" BuyOrder 25)) ask5_engine))
                ∧ S3_store !! q = Some mk
                ∧ trade_with_maker (Side (market "b" BuyOrder 25)) mk t) tr.
Proof.
  eexists _, _, _, _.
  refine ((λ H, conj H (trades_come_from_the_first_level priceLevels_Push 8 ask5_engine
                          p2 S3_store (market "b" BuyOrder 25) _ _ _ _ eq_refl H)) _).
  vm_compute. reflexivity.
Defined.

(** ** The code as written serves every request *)

Lemma no_levels_wf (m : Mem) (ob : OrderBook) :
  no_levels ob → book_wf m ob ∧ resting ob = [].
Proof.
  intros [Hb Ha]. unfold book_wf, registered, placed, resting. rewrite Hb, Ha. simpl.
  split; [|reflexivity]. split; [intros l r o Hl; inversion Hl|].
  split; (split; [constructor | intros l r Hl; inversion Hl]).
Qed.

Lemma store_kept_grows (m m' : Mem) : store_kept m m' → store_grows m m'.
Proof. intros H r [o Ho]. destruct (H r o Ho) as (o' & Ho' & _). eauto. Qed.

Lemma store_conserved_grows (m m' : Mem) : store_conserved m m' → store_grows m m'.
Proof. intros H. apply store_kept_grows, store_conserved_kept. exact H. Qed.

Lemma book_for_lookup (sym : string) (me : MatchingEngine) (id : string) (q : loc) :
  ob_orders (book_for sym me) !! id = Some q →
  ∃ ob, orderBooks me !! sym = Some ob ∧ ob_orders ob !! id = Some q.
Proof.
  unfold book_for. destruct (orderBooks me !! sym) as [ob|]; simpl.
  - intros H. exists ob. tauto.
  - rewrite lookup_empty. discriminate.
Qed.

Lemma book_for_no_levels (sym : string) (me : MatchingEngine) :
  level_free me → no_levels (book_for sym me).
Proof.
  intros Hme. unfold book_for. destruct (orderBooks me !! sym) as [ob|] eqn:E; simpl.
  - exact (Hme _ _ E).
  - apply NewOrderBook_no_levels.
Qed.

(** [ProcessOrder] enters at most the submitted order in an id map. *)
Lemma ProcessOrder_id_maps (Push : priceLevels → priceLevel → priceLevels)
    (fuel : nat) (me : MatchingEngine) (p : loc) (m : Mem)
    (me' : MatchingEngine) (tr : list Trade) (e : option error) (m' : Mem) :
  ProcessOrder Push fuel me p m = Ok (me', tr, e, m') →
  ∀ sym ob' id q, orderBooks me' !! sym = Some ob' → ob_orders ob' !! id = Some q →
    q = p ∨ ∃ ob, orderBooks me !! sym = Some ob ∧ ob_orders ob !! id = Some q.
Proof.
  intros H sym ob' id q Hob' Hq.
  apply ProcessOrder_inv in H as (o & ob1 & Hp & -> & H).
  unfold put_book in Hob'. simpl in Hob'.
  destruct (decide (sym = Symbol o)) as [->|Hne].
  - rewrite lookup_insert_eq in Hob'. injection Hob' as <-.
    assert (Hmap : ob_orders ob1 = ob_orders (book_for (Symbol o) me)
                   ∨ ∃ id0, ob_orders ob1
                            = <[id0 := p]> (ob_orders (book_for (Symbol o) me))).
    { destruct H as [[_ H] | [_ H]].
      - apply processMarketOrder_inv in H as (tr1 & e1 & m1 & H & _).
        left. exact (matchOrder_keeps_id_map _ _ _ _ _ _ _ _ _ H).
      - destruct H as (ob2 & tr1 & e1 & m1 & H & Hrest).
        pose proof (matchOrder_keeps_id_map _ _ _ _ _ _ _ _ _ H) as Hm.
        destruct Hrest as [(err & _ & _ & _ & -> & _)
                          | (_ & _ & o1 & _ & [[_ Ha] | (_ & -> & _)])].
        + left. exact Hm.
        + destruct e as [err|].
          * apply AddOrder_errors in Ha as (_ & _ & _ & -> & _). left. exact Hm.
          * apply AddOrder_inv in Ha as (o2 & _ & _ & _ & Hins).
            right. exists (ID o2). rewrite Hins, Hm. reflexivity.
        + left. exact Hm. }
    destruct Hmap as [Hmap | [id0 Hmap]]; rewrite Hmap in Hq.
    + right. exact (book_for_lookup _ _ _ _ Hq).
    + destruct (decide (id = id0)) as [->|Hid].
      * rewrite lookup_insert_eq in Hq. left. congruence.
      * rewrite lookup_insert_ne in Hq by congruence.
        right. exact (book_for_lookup _ _ _ _ Hq).
  - rewrite lookup_insert_ne in Hob' by congruence.
    right. exists ob'. split; [|exact Hq].
    unfold ensure_book in Hob'. destruct (orderBooks me !! Symbol o); [exact Hob'|].
    unfold put_book in Hob'. simpl in Hob'.
    rewrite lookup_insert_ne in Hob' by congruence. exact Hob'.
Qed.

Lemma ProcessOrder_serves (fuel : nat) (me : MatchingEngine) (p : loc) (m : Mem) :
  level_free me → well_keyed me → ids_allocated me m →
  is_Some (m !! p) → (2 ≤ fuel)%nat →
  ∃ me' tr e m',
    ProcessOrder priceLevels_Push fuel me p m = Ok (me', tr, e, m')
    ∧ level_free me' ∧ well_keyed me' ∧ ids_allocated me' m' ∧ store_grows m m'.
Proof.
  intros Hlf Hwk Hids [o Hp] Hfuel.
  destruct (no_levels_wf m _ (book_for_no_levels (Symbol o) me Hlf)) as [Hwf Hrest].
  destruct (ProcessOrder_returns priceLevels_Push fuel me p m o Hp Hwk Hwf
              ltac:(rewrite Hrest; intros Hin; inversion Hin)
              ltac:(rewrite Hrest; simpl; lia))
    as (me' & tr & e & m' & H & _).
  exists me', tr, e, m'. split; [exact H|].
  pose proof (store_kept_grows _ _ (ProcessOrder_kept _ _ _ _ _ _ _ _ _ H)) as Hgrow.
  split; [exact (proj1 (ProcessOrder_level_free _ _ _ _ _ _ _ _ Hlf H))|].
  split; [exact (proj1 (ProcessOrder_well_keyed _ _ _ _ _ _ _ _ _ _ Hwk Hp H))|].
  split; [|exact Hgrow].
  intros sym ob' id q Hob' Hq.
  destruct (ProcessOrder_id_maps _ _ _ _ _ _ _ _ _ H sym ob' id q Hob' Hq)
    as [-> | (ob & Hob & Hq0)].
  - apply Hgrow. eauto.
  - apply Hgrow. exact (Hids _ _ _ _ Hob Hq0).
Qed.

Lemma CancelOrder_serves (ob : OrderBook) (orderID : string) (m : Mem) (q : loc) :
  no_levels ob → ob_orders ob !! orderID = Some q → is_Some (m !! q) →
  ∃ e m', CancelOrder ob orderID m = Ok (ob, e, m') ∧ store_grows m m'.
Proof.
  intros [Hb Ha] Hq [o Ho]. unfold CancelOrder. rewrite Hq.
  rewrite (bind_ok _ _ _ _ _ (load_ok _ _ _ Ho)).
  destruct (bool_decide (Status o = OrderStatusCancelled)).
  - eexists _, _. split; [reflexivity | intros r Hr; exact Hr].
  - rewrite (bind_ok _ _ _ _ _ (update_ok _ _ _ _ Ho)).
    assert (Hl : side_levels (is_buy o) ob = []) by (destruct (is_buy o); assumption).
    rewrite Hl. simpl. eexists _, _. split; [reflexivity|].
    intros r Hr. destruct (decide (r = q)) as [->|Hne].
    + rewrite lookup_insert_eq. eauto.
    + rewrite lookup_insert_ne by congruence. exact Hr.
Qed.

Lemma ids_allocated_grows (me : MatchingEngine) (m m' : Mem) :
  ids_allocated me m → store_grows m m' → ids_allocated me m'.
Proof. intros H Hg sym ob id q Hob Hq. apply Hg. exact (H _ _ _ _ Hob Hq). Qed.

Lemma put_book_same_book (sym : string) (ob : OrderBook) (me : MatchingEngine) :
  orderBooks me !! sym = Some ob → put_book sym ob me = me.
Proof.
  intros H. unfold put_book. destruct me as [bs]. simpl in *. f_equal.
  apply insert_id. exact H.
Qed.

Lemma MatchingEngine_CancelOrder_serves (visit : list string) (me : MatchingEngine)
    (orderID : string) (m : Mem) :
  level_free me → ids_allocated me m →
  ∃ e m', MatchingEngine_CancelOrder visit me orderID m = Ok (me, e, m')
          ∧ store_grows m m'.
Proof.
  intros Hlf Hids. induction visit as [|sym visit IH].
  - eexists _, _. split; [reflexivity | intros r Hr; exact Hr].
  - cbn [MatchingEngine_CancelOrder].
    destruct (orderBooks me !! sym) as [ob|] eqn:Eob; [|exact IH].
    unfold GetOrder. destruct (ob_orders ob !! orderID) as [q|] eqn:Eq; [|exact IH].
    destruct (CancelOrder_serves ob orderID m q (Hlf _ _ Eob) Eq (Hids _ _ _ _ Eob Eq))
      as (e & m' & Hcan & Hgrow).
    rewrite (bind_ok _ _ _ _ _ Hcan). rewrite (put_book_same_book _ _ _ Eob).
    eexists _, _. split; [reflexivity | exact Hgrow].
Qed.

Lemma CreateOrder_serves (fuel : nat) (me : MatchingEngine) (req : CreateOrderRequest)
    (id : string) (p : loc) (m : Mem) :
  level_free me → well_keyed me → ids_allocated me m → (2 ≤ fuel)%nat →
  ∃ me' resp m',
    CreateOrder priceLevels_Push fuel me req id p m = Ok (me', resp, m')
    ∧ level_free me' ∧ well_keyed me' ∧ ids_allocated me' m' ∧ store_grows m m'.
Proof.
  intros Hlf Hwk Hids Hfuel. unfold CreateOrder.
  assert (Hsame : ∃ me' resp m',
            @mret M _ _ (me, StatusBadRequest) m = Ok (me', resp, m')
            ∧ level_free me' ∧ well_keyed me' ∧ ids_allocated me' m' ∧ store_grows m m').
  { eexists _, _, _. split; [reflexivity|].
    split; [exact Hlf|]. split; [exact Hwk|]. split; [exact Hids|].
    intros r Hr. exact Hr. }
  destruct (negb (binding_ok req)); [exact Hsame|].
  destruct (bool_decide (rType req = LimitOrder) && bool_decide (rPrice req ≤ 0));
    [exact Hsame|].
  destruct (bool_decide (rType req = StopOrder) && bool_decide (rStopPrice req ≤ 0));
    [exact Hsame|].
  assert (Hgrow1 : store_grows m (<[p := request_order id req]> m)).
  { intros r Hr. destruct (decide (r = p)) as [->|Hne].
    - rewrite lookup_insert_eq. eauto.
    - rewrite lookup_insert_ne by congruence. exact Hr. }
  destruct (ProcessOrder_serves fuel me p (<[p := request_order id req]> m) Hlf Hwk
              (ids_allocated_grows _ _ _ Hids Hgrow1)
              ltac:(rewrite lookup_insert_eq; eauto) Hfuel)
    as (me' & tr & e & m' & H & Hlf' & Hwk' & Hids' & Hgrow).
  assert (Halloc : alloc p (request_order id req) m
                   = Ok (tt, <[p := request_order id req]> m)) by reflexivity.
  rewrite (bind_ok _ _ _ _ _ Halloc). rewrite (bind_ok _ _ _ _ _ H).
  destruct e as [err|]; eexists _, _, _; (split; [reflexivity|]);
    (split; [exact Hlf'|]); (split; [exact Hwk'|]); (split; [exact Hids'|]);
    intros r Hr; apply Hgrow, Hgrow1; exact Hr.
Qed.

Lemma run_serves (fuel : nat) (rs : list request) :
  ∀ me m,
    level_free me → well_keyed me → ids_allocated me m → (2 ≤ fuel)%nat →
    Forall (λ p, is_Some (m !! p)) (submitted rs) →
    ∃ me' replies m',
      run priceLevels_Push fuel rs me m = Ok (me', replies, m')
      ∧ length replies = length rs.
Proof.
  induction rs as [|r rs IH]; intros me m Hlf Hwk Hids Hfuel Hsub.
  - eexists _, _, _. split; reflexivity.
  - cbn [run].
    assert (Hstep : ∃ me1 a m1,
              (match r with
               | Submit p =>
                   y ← ProcessOrder priceLevels_Push fuel me p;
                   let '(me', trades, err) := y in mret (me', Trades trades err)
               | Post req id p =>
                   y ← CreateOrder priceLevels_Push fuel me req id p;
                   let '(me', resp) := y in mret (me', Http resp)
               | Cancel visit orderID =>
                   y ← MatchingEngine_CancelOrder visit me orderID;
                   let '(me', err) := y in mret (me', Cancelled err)
               end) m = Ok (me1, a, m1)
              ∧ level_free me1 ∧ well_keyed me1 ∧ ids_allocated me1 m1
              ∧ store_grows m m1).
    { destruct r as [p | req id p | visit orderID].
      - assert (Hp : is_Some (m !! p)).
        { unfold submitted in Hsub. simpl in Hsub. inversion Hsub. assumption. }
        destruct (ProcessOrder_serves fuel me p m Hlf Hwk Hids Hp Hfuel)
          as (me' & tr & e & m' & H & Hrest).
        rewrite (bind_ok _ _ _ _ _ H). eexists _, _, _. split; [reflexivity | exact Hrest].
      - destruct (CreateOrder_serves fuel me req id p m Hlf Hwk Hids Hfuel)
          as (me' & resp & m' & H & Hrest).
        rewrite (bind_ok _ _ _ _ _ H). eexists _, _, _. split; [reflexivity | exact Hrest].
      - destruct (MatchingEngine_CancelOrder_serves visit me orderID m Hlf Hids)
          as (e & m' & H & Hgrow).
        rewrite (bind_ok _ _ _ _ _ H). eexists _, _, _. split; [reflexivity|].
        split; [exact Hlf|]. split; [exact Hwk|].
        split; [exact (ids_allocated_grows _ _ _ Hids Hgrow) | exact Hgrow]. }
    destruct Hstep as (me1 & a & m1 & Hstep & Hlf1 & Hwk1 & Hids1 & Hgrow).
    rewrite (bind_ok _ _ _ _ _ Hstep).
    destruct (IH me1 m1 Hlf1 Hwk1 Hids1 Hfuel) as (me2 & out & m2 & Hrun & Hlen).
    { assert (Htail : Forall (λ p, is_Some (m !! p)) (submitted rs)).
      { unfold submitted in *. simpl in Hsub. apply Forall_app in Hsub. tauto. }
      eapply Forall_impl; [|exact Htail]. intros p Hp. apply Hgrow. exact Hp. }
    rewrite (bind_ok _ _ _ _ _ Hrun).
    eexists _, _, _. split; [reflexivity|]. simpl. rewrite Hlen. reflexivity.
Qed.

(** As written, every request is served.  With the [Push] of the source, any
    sequence of submissions, posts and cancels on the empty engine returns a
    reply for each request, provided the orders submitted by pointer are
    allocated and the loop is given two units of fuel: no dereference fails
    and the matching loop never runs on. *)
Theorem as_written_every_request_is_served (fuel : nat) (rs : list request) (m : Mem) :
  (2 ≤ fuel)%nat → Forall (λ p, is_Some (m !! p)) (submitted rs) →
  ∃ me replies m',
    run priceLevels_Push fuel rs NewMatchingEngine m = Ok (me, replies, m')
    ∧ length replies = length rs.
Proof.
  intros Hfuel Hsub. apply run_serves; try assumption.
  - intros sym ob H. unfold NewMatchingEngine in H. simpl in H.
    rewrite lookup_empty in H. discriminate.
  - exact well_keyed_empty.
  - intros sym ob id q H. unfold NewMatchingEngine in H. simpl in H.
    rewrite lookup_empty in H. discriminate.
Qed.

Lemma as_written_every_request_is_served_witness :
  ∃ me replies m',
    run priceLevels_Push 2
        [Submit p1; Post (limit_req SellOrder 5 10) "n" 7%nat; Submit p2;
         Cancel ["X"] "A"; Submit p3]
        NewMatchingEngine S2_store = Ok (me, replies, m')
    ∧ length replies
      = length [Submit p1; Post (limit_req SellOrder 5 10) "n" 7%nat; Submit p2;
                Cancel ["X"] "A"; Submit p3].
Proof.
  apply (as_written_every_request_is_served 2
           [Submit p1; Post (limit_req SellOrder 5 10) "n" 7%nat; Submit p2;
            Cancel ["X"] "A"; Submit p3] S2_store).
  - lia.
  - repeat constructor; vm_compute; eauto.
Defined.

(** * Residuals, validation, STOP orders and the id map *)

(** ** The residual of a partly filled order *)




(** The same block runs on the residual of a taker that has just traded.  On
    a book that holds a level (built here by a [Push] that stores it), SELL
    LIMIT 60 @ 10 rests and BUY LIMIT 100 @ 10 arrives: [matchOrder] trades 60
    and leaves the buy at (60, 40, PARTIAL); [ProcessOrder] then calls
    [AddOrder], which sets it back to (0, 100, NEW) and enters it with volume
    100, although a trade of 60 was returned.  As the source is written no
    level is stored and this run makes no trade. *)
Lemma residual_with_stored_levels :
  ∃ me1 m1 ob1,
    run priceLevels_Push_ptr 8 [Submit p1] NewMatchingEngine S1r_store
      = Ok (me1, [Trades [] None], m1)
    ∧ book_of me1 "X" = Some ob1
    ∧ (∃ ob2 m2,
         matchOrder 8 ob1 p2 [] m1 = Ok (ob2, [S1_trade], None, m2)
         ∧ order_state m2 p2 = Some (60, 40, OrderStatusPartial))
    ∧ (∃ me3 m3 ob3,
         ProcessOrder priceLevels_Push_ptr 8 me1 p2 m1
           = Ok (me3, [S1_trade], None, m3)
         ∧ order_state m3 p2 = Some (0, 100, OrderStatusNew)
         ∧ book_of me3 "X" = Some ob3
         ∧ bids ob3 = [mkLevel 10 [p2] 100]).
Proof. evaluate. Qed.

(** ** Where an order is validated *)

Lemma ProcessOrder_duplicate_refused (Push : priceLevels → priceLevel → priceLevels)
    (fuel : nat) (me : MatchingEngine) (p : loc) (m : Mem) (order : Order)
    (ob : OrderBook) :
  m !! p = Some order → Type_ order ≠ MarketOrder → RemainingQty order > 0 →
  orderBooks me !! Symbol order = Some ob →
  best_opposite order ob = (None, None) → is_Some (ob_orders ob !! ID order) →
  ProcessOrder Push (S fuel) me p m
  = Ok (me, [], Some (ErrOrderExists (ID order)), m).
Proof.
  intros Hp Ht Hr Hob Hn Hd. unfold ProcessOrder.
  rewrite (bind_ok _ _ _ _ _ (load_ok _ _ _ Hp)). rewrite Hob.
  rewrite (bool_decide_eq_false_2 _ Ht).
  rewrite (bind_ok _ _ _ _ _ (matchOrder_no_counterparty fuel ob p [] m order Hp Hn)).
  rewrite (bind_ok _ _ _ _ _ (load_ok _ _ _ Hp)).
  rewrite (bool_decide_eq_true_2 _ Hr).
  rewrite (bind_ok _ _ _ _ _ (AddOrder_duplicate Push ob p m order Hp Hd)).
  unfold mret, M_ret. rewrite (put_book_same _ _ _ Hob). reflexivity.
Qed.

Lemma ProcessOrder_market_unfilled (Push : priceLevels → priceLevel → priceLevels)
    (fuel : nat) (me : MatchingEngine) (p : loc) (m : Mem) (order : Order)
    (ob : OrderBook) :
  m !! p = Some order → Type_ order = MarketOrder → RemainingQty order > 0 →
  orderBooks me !! Symbol order = Some ob →
  best_opposite order ob = (None, None) →
  ProcessOrder Push (S fuel) me p m
  = Ok (me, [], Some ErrMarketNotFilled,
        <[p := with_Status OrderStatusRejected order]> m).
Proof.
  intros Hp Ht Hr Hob Hn. unfold ProcessOrder.
  rewrite (bind_ok _ _ _ _ _ (load_ok _ _ _ Hp)). rewrite Hob.
  rewrite (bool_decide_eq_true_2 _ Ht).
  assert (Hm : processMarketOrder (S fuel) ob p m
               = Ok (ob, [], Some ErrMarketNotFilled,
                     <[p := with_Status OrderStatusRejected order]> m)).
  { unfold processMarketOrder.
    rewrite (bind_ok _ _ _ _ _ (matchOrder_no_counterparty fuel ob p [] m order Hp Hn)).
    rewrite (bind_ok _ _ _ _ _ (load_ok _ _ _ Hp)).
    rewrite (bool_decide_eq_true_2 _ Hr).
    rewrite (bind_ok _ _ _ _ _ (update_ok _ _ _ _ Hp)). reflexivity. }
  rewrite (bind_ok _ _ _ _ _ Hm).
  unfold mret, M_ret. rewrite (put_book_same _ _ _ Hob). reflexivity.
Qed.

Lemma ProcessOrder_spent (Push : priceLevels → priceLevel → priceLevels)
    (fuel : nat) (me : MatchingEngine) (p : loc) (m : Mem) (order : Order)
    (ob : OrderBook) :
  m !! p = Some order → ¬ RemainingQty order > 0 →
  orderBooks me !! Symbol order = Some ob →
  ProcessOrder Push (S fuel) me p m = Ok (me, [], None, m).
Proof.
  intros Hp Hr Hob. unfold ProcessOrder.
  rewrite (bind_ok _ _ _ _ _ (load_ok _ _ _ Hp)). rewrite Hob.
  pose proof (matchOrder_done fuel ob p [] m order Hp Hr) as Hdone.
  destruct (bool_decide (Type_ order = MarketOrder)).
  - assert (Hm : processMarketOrder (S fuel) ob p m = Ok (ob, [], None, m)).
    { unfold processMarketOrder.
      rewrite (bind_ok _ _ _ _ _ Hdone).
      rewrite (bind_ok _ _ _ _ _ (load_ok _ _ _ Hp)).
      rewrite (bool_decide_eq_false_2 _ Hr). reflexivity. }
    rewrite (bind_ok _ _ _ _ _ Hm).
    unfold mret, M_ret. rewrite (put_book_same _ _ _ Hob). reflexivity.
  - rewrite (bind_ok _ _ _ _ _ Hdone).
    rewrite (bind_ok _ _ _ _ _ (load_ok _ _ _ Hp)).
    rewrite (bool_decide_eq_false_2 _ Hr).
    unfold mret, M_ret. rewrite (put_book_same _ _ _ Hob). reflexivity.
Qed.

(** The refusal "already exists" comes from [AddOrder] alone: when
    [ProcessOrder] returns it, the order is not a MARKET order, its id is in
    the id map of the book of its symbol, no trade is returned with it, and
    matching had left it a positive remaining quantity. *)
Lemma ProcessOrder_exists_inv (Push : priceLevels → priceLevel → priceLevels)
    (fuel : nat) (me : MatchingEngine) (p : loc) (m : Mem) (o : Order) (id : string)
    (me' : MatchingEngine) (tr : list Trade) (m' : Mem) :
  m !! p = Some o → well_keyed me →
  ProcessOrder Push fuel me p m = Ok (me', tr, Some (ErrOrderExists id), m') →
  Type_ o ≠ MarketOrder ∧ id = ID o
  ∧ is_Some (ob_orders (book_for (Symbol o) me) !! ID o)
  ∧ ∃ o', m' !! p = Some o' ∧ RemainingQty o' > 0.
Proof.
  intros Hp Hme H.
  pose proof (book_for_symbol (Symbol o) me Hme) as Hsym.
  apply ProcessOrder_inv in H as (o0 & ob' & Hp0 & -> & H).
  rewrite Hp in Hp0. injection Hp0 as <-.
  destruct H as [[Ht H] | [Ht (ob1 & tr1 & e1 & m1 & H & Hrest)]].
  - exfalso.
    apply processMarketOrder_inv in H as (tr1 & e1 & m1 & H & Hrest).
    destruct Hrest as [(err & -> & He & _)
                      | (_ & _ & o1 & _ & [(_ & He & _) | (_ & He & _)])];
      try discriminate He.
    injection He as <-.
    destruct (matchOrder_errors _ _ _ _ _ _ _ _ _ _ H Hp (eq_sym Hsym)) as (x & [Hx | Hx]);
      discriminate Hx.
  - destruct Hrest as [(err & -> & He & _)
                      | (-> & -> & o1 & Hp1 & [(Hpos & Hadd) | (_ & _ & He & _)])];
      [exfalso | | discriminate He].
    + injection He as <-.
      destruct (matchOrder_errors _ _ _ _ _ _ _ _ _ _ H Hp (eq_sym Hsym)) as (x & [Hx | Hx]);
        discriminate Hx.
    + destruct (matchOrder_store_conserved _ _ _ _ _ _ _ _ _ H p o Hp)
        as (o1' & Hp1' & (Hid & _)).
      rewrite Hp1 in Hp1'. injection Hp1' as <-.
      unfold AddOrder in Hadd.
      rewrite (bind_ok _ _ _ _ _ (load_ok _ _ _ Hp1)) in Hadd.
      destruct (ob_orders ob1 !! ID o1) as [q|] eqn:Hq.
      * apply mret_inv in Hadd. injection Hadd as -> -> ->.
        split; [exact Ht|]. split; [exact Hid|].
        split.
        -- rewrite <- Hid, <- (matchOrder_keeps_id_map _ _ _ _ _ _ _ _ _ H).
           exists q. exact Hq.
        -- exists o1. split; assumption.
      * repeat (step Hadd). discriminate Hadd.
Qed.

(** C6, amended.  The quantity and the LIMIT price are validated by the HTTP
    handler, not by the engine: [CreateOrder] answers 400 for a quantity that
    is not positive and for a LIMIT order whose price is not positive, before
    an order object exists and before the engine is called, so engine and
    store are unchanged.  An id already in the id map is refused by
    [AddOrder] with "already exists", the book and the store unchanged.
    [ProcessOrder] returns that refusal for an order that is not a MARKET
    order, has a positive remaining quantity and is offered no counterparty:
    no trade, nothing changed.  The refusal comes from [AddOrder] alone: when
    [ProcessOrder] returns it, the order is not a MARKET order, its id is in
    the id map of its book, and a positive quantity remains of it.  The id of
    the other orders is not checked, present or not: offered no counterparty,
    a MARKET order with a positive remaining quantity is answered "could not
    be fully filled" and marked REJECTED, and an order with no positive
    remaining quantity, of whatever type, is answered without error and
    nothing is changed. *)
Theorem validation_layers :
  (∀ Push fuel me req id p m,
      rQuantity req ≤ 0 ∨ (rType req = LimitOrder ∧ rPrice req ≤ 0) →
      CreateOrder Push fuel me req id p m = Ok (me, StatusBadRequest, m))
  ∧ (∀ Push ob p m order,
      m !! p = Some order → is_Some (ob_orders ob !! ID order) →
      AddOrder Push ob p m = Ok (ob, Some (ErrOrderExists (ID order)), m))
  ∧ (∀ Push fuel me p m order ob,
      m !! p = Some order → Type_ order ≠ MarketOrder → RemainingQty order > 0 →
      orderBooks me !! Symbol order = Some ob →
      best_opposite order ob = (None, None) → is_Some (ob_orders ob !! ID order) →
      ProcessOrder Push (S fuel) me p m
      = Ok (me, [], Some (ErrOrderExists (ID order)), m))
  ∧ (∀ Push fuel me p m order ob,
      m !! p = Some order → Type_ order = MarketOrder → RemainingQty order > 0 →
      orderBooks me !! Symbol order = Some ob →
      best_opposite order ob = (None, None) →
      ProcessOrder Push (S fuel) me p m
      = Ok (me, [], Some ErrMarketNotFilled,
            <[p := with_Status OrderStatusRejected order]> m))
  ∧ (∀ Push fuel me p m order ob,
      m !! p = Some order → ¬ RemainingQty order > 0 →
      orderBooks me !! Symbol order = Some ob →
      ProcessOrder Push (S fuel) me p m = Ok (me, [], None, m))
  ∧ (∀ Push fuel me p m o id me' tr m',
      m !! p = Some o → well_keyed me →
      ProcessOrder Push fuel me p m = Ok (me', tr, Some (ErrOrderExists id), m') →
      Type_ o ≠ MarketOrder ∧ id = ID o
      ∧ is_Some (ob_orders (book_for (Symbol o) me) !! ID o)
      ∧ ∃ o', m' !! p = Some o' ∧ RemainingQty o' > 0).
Proof.
  split; [|split; [|split; [|split; [|split]]]].
  - apply CreateOrder_rejects.
  - apply AddOrder_duplicate.
  - apply ProcessOrder_duplicate_refused.
  - apply ProcessOrder_market_unfilled.
  - apply ProcessOrder_spent.
  - apply ProcessOrder_exists_inv.
Qed.

Lemma registered_engine_well_keyed : well_keyed registered_engine.
Proof.
  intros sym ob H. unfold registered_engine in H. simpl in H.
  destruct (decide (sym = "X")) as [-> | Hne].
  - rewrite lookup_singleton_eq in H. injection H as <-. reflexivity.
  - rewrite lookup_singleton_ne in H by congruence. discriminate.
Qed.

Lemma validation_layers_witness :
  run priceLevels_Push 8 [Submit p1] NewMatchingEngine duplicate_store
    = Ok (registered_engine, [Trades [] None], duplicate_store)
  ∧ CreateOrder priceLevels_Push 8 registered_engine (limit_req BuyOrder 0 10) "n" p3
                duplicate_store
    = Ok (registered_engine, StatusBadRequest, duplicate_store)
  ∧ CreateOrder priceLevels_Push 8 registered_engine (limit_req BuyOrder 10 (-1)) "n" p3
                duplicate_store
    = Ok (registered_engine, StatusBadRequest, duplicate_store)
  ∧ AddOrder priceLevels_Push registered_book p2 duplicate_store
    = Ok (registered_book, Some (ErrOrderExists "b"), duplicate_store)
  ∧ ProcessOrder priceLevels_Push 1 registered_engine p2 duplicate_store
    = Ok (registered_engine, [], Some (ErrOrderExists "b"), duplicate_store)
  ∧ ProcessOrder priceLevels_Push 1 registered_engine p2 duplicate_market_store
    = Ok (registered_engine, [], Some ErrMarketNotFilled,
          <[p2 := with_Status OrderStatusRejected (market "b" BuyOrder 5)]>
            duplicate_market_store)
  ∧ ProcessOrder priceLevels_Push 1 registered_engine p2 duplicate_spent_store
    = Ok (registered_engine, [], None, duplicate_spent_store)
  ∧ (Type_ (limit "b" BuyOrder 5 9) ≠ MarketOrder
     ∧ "b" = ID (limit "b" BuyOrder 5 9)
     ∧ is_Some (ob_orders (book_for (Symbol (limit "b" BuyOrder 5 9)) registered_engine)
                  !! ID (limit "b" BuyOrder 5 9))
     ∧ ∃ o', duplicate_store !! p2 = Some o' ∧ RemainingQty o' > 0).
Proof.
  destruct validation_layers as (Hreq & Hadd & Hproc & Hmarket & Hspent & Hinv).
  assert (Hrun : ProcessOrder priceLevels_Push 1 registered_engine p2 duplicate_store
                 = Ok (registered_engine, [], Some (ErrOrderExists "b"), duplicate_store)).
  { apply (Hproc priceLevels_Push 0%nat registered_engine p2 duplicate_store
             (limit "b" BuyOrder 5 9) registered_book).
    - reflexivity.
    - discriminate.
    - simpl. lia.
    - reflexivity.
    - reflexivity.
    - exists p1. reflexivity. }
  split; [vm_compute; reflexivity|].
  split; [apply Hreq; left; simpl; lia|].
  split; [apply Hreq; right; split; [reflexivity | simpl; lia]|].
  split.
  { apply (Hadd priceLevels_Push registered_book p2 duplicate_store (limit "b" BuyOrder 5 9)).
    - reflexivity.
    - exists p1. reflexivity. }
  split; [exact Hrun|].
  split.
  { apply (Hmarket priceLevels_Push 0%nat registered_engine p2 duplicate_market_store
             (market "b" BuyOrder 5) registered_book).
    - reflexivity.
    - reflexivity.
    - simpl. lia.
    - reflexivity.
    - reflexivity. }
  split.
  { apply (Hspent priceLevels_Push 0%nat registered_engine p2 duplicate_spent_store
             (with_RemainingQty 0 (limit "b" BuyOrder 5 9)) registered_book).
    - reflexivity.
    - simpl. lia.
    - reflexivity. }
  exact (Hinv priceLevels_Push 1%nat registered_engine p2 duplicate_store
           (limit "b" BuyOrder 5 9) "b" registered_engine [] duplicate_store
           eq_refl registered_engine_well_keyed Hrun).
Defined.

(** ** STOP orders and the price condition *)









(** ** The id map as a register *)

(** An order that its side holds in no level at its price: the status is
    written and the book is left as it is. *)
Lemma CancelOrder_unplaced (ob : OrderBook) (orderID : string) (m : Mem)
    (q : loc) (o : Order) :
  ob_orders ob !! orderID = Some q → m !! q = Some o →
  Status o ≠ OrderStatusCancelled →
  find_level (Price o) (side_levels (is_buy o) ob) = None →
  CancelOrder ob orderID m
  = Ok (ob, None, <[q := with_Status OrderStatusCancelled o]> m).
Proof.
  intros Hq Ho Hs Hk. unfold CancelOrder. rewrite Hq.
  rewrite (bind_ok _ _ _ _ _ (load_ok _ _ _ Ho)).
  rewrite (bool_decide_eq_false_2 _ Hs).
  rewrite (bind_ok _ _ _ _ _ (update_ok _ _ _ _ Ho)).
  rewrite Hk. reflexivity.
Qed.

(** C9 does not hold as stated: [CancelOrder] never deletes from
    [ob.orders].  With [Push] as the source has it:
    - BUY LIMIT 100 @ 10 submitted, then cancelled: the order is CANCELLED and
      in no level, and the id map still holds it;
    - already after the submission the id map holds an order that no level
      holds. *)
Lemma cancelled_order_stays_in_id_map :
  (∃ me m ob,
      run priceLevels_Push 8 [Submit p1; Cancel ["X"] "b"]
          NewMatchingEngine cancel_store
        = Ok (me, [Trades [] None; Cancelled None], m)
      ∧ order_state m p1 = Some (0, 100, OrderStatusCancelled)
      ∧ book_of me "X" = Some ob
      ∧ resting ob = []
      ∧ ob_orders ob !! "b" = Some p1)
  ∧ (∃ me m ob,
      run priceLevels_Push 8 [Submit p1] NewMatchingEngine cancel_store
        = Ok (me, [Trades [] None], m)
      ∧ order_state m p1 = Some (0, 100, OrderStatusNew)
      ∧ book_of me "X" = Some ob
      ∧ resting ob = []
      ∧ ob_orders ob !! "b" = Some p1).
Proof. evaluate. Qed.

(** C9, amended.  The id map is a register of every order [AddOrder] has
    admitted, whatever became of it:
    - [CancelOrder] and [matchOrder] (which removes a filled maker through
      [CancelOrder]) leave the id map as it is; [AddOrder] adds the id;
    - a cancel that succeeds has found the order in the id map, not yet
      CANCELLED, and has set its status to CANCELLED, changing no other
      object and nothing else of this one;
    - an order, not yet CANCELLED, whose side holds no level at its price is
      cancelled with the book left as it is; one that rests in the first
      level of its side that has its price is taken out of it, the volume of
      the level reduced by its remaining quantity;
    - the order stays in the id map, where a second cancel finds it and
      answers "already cancelled", changing nothing. *)
Theorem id_map_is_a_register :
  (∀ ob orderID m ob' e m',
      CancelOrder ob orderID m = Ok (ob', e, m') → ob_orders ob' = ob_orders ob)
  ∧ (∀ fuel ob p acc m ob' tr e m',
      matchOrder fuel ob p acc m = Ok (ob', tr, e, m') → ob_orders ob' = ob_orders ob)
  ∧ (∀ Push ob p m ob' m',
      AddOrder Push ob p m = Ok (ob', None, m') →
      ∃ o, m !! p = Some o ∧ ob_orders ob' = <[ID o := p]> (ob_orders ob))
  ∧ (∀ ob orderID m ob' m',
      CancelOrder ob orderID m = Ok (ob', None, m') →
      ∃ q o, ob_orders ob !! orderID = Some q ∧ m !! q = Some o
             ∧ Status o ≠ OrderStatusCancelled
             ∧ m' = <[q := with_Status OrderStatusCancelled o]> m)
  ∧ (∀ ob orderID m q o,
      ob_orders ob !! orderID = Some q → m !! q = Some o →
      Status o ≠ OrderStatusCancelled →
      find_level (Price o) (side_levels (is_buy o) ob) = None →
      CancelOrder ob orderID m
      = Ok (ob, None, <[q := with_Status OrderStatusCancelled o]> m))
  ∧ (∀ ob orderID m q o k level pre post,
      ob_orders ob !! orderID = Some q → m !! q = Some o → ID o = orderID →
      Status o ≠ OrderStatusCancelled →
      find_level (Price o) (side_levels (is_buy o) ob) = Some k →
      side_levels (is_buy o) ob !! k = Some level →
      orders level = pre ++ q :: post →
      (∀ r, r ∈ pre → ∃ o', m !! r = Some o' ∧ ID o' ≠ orderID) →
      CancelOrder ob orderID m
      = Ok (set_side_levels (is_buy o)
              (<[k := mkLevel (price level) (pre ++ post)
                              (volume level - RemainingQty o)]>
                 (side_levels (is_buy o) ob)) ob,
            None, <[q := with_Status OrderStatusCancelled o]> m))
  ∧ (∀ ob orderID m q o,
      ob_orders ob !! orderID = Some q → m !! q = Some o →
      Status o = OrderStatusCancelled →
      CancelOrder ob orderID m = Ok (ob, Some (ErrAlreadyCancelled orderID), m)).
Proof.
  split; [|split; [|split; [|split; [|split; [|split]]]]].
  - apply CancelOrder_keeps_id_map.
  - intros fuel. apply matchOrder_keeps_id_map.
  - intros Push ob p m ob' m' H.
    destruct (AddOrder_inv Push ob p m ob' m' H) as (o & Hp & _ & _ & Hmap).
    exists o. split; assumption.
  - apply CancelOrder_done.
  - apply CancelOrder_unplaced.
  - apply CancelOrder_removes.
  - apply CancelOrder_again.
Qed.

Lemma id_map_is_a_register_witness :
  (run priceLevels_Push 8 [Submit p1] NewMatchingEngine cancel_store
     = Ok (registered_engine, [Trades [] None], cancel_store)
   ∧ ∃ m',
       CancelOrder registered_book "b" cancel_store = Ok (registered_book, None, m')
       ∧ m' = <[p1 := with_Status OrderStatusCancelled (limit "b" BuyOrder 100 10)]>
                cancel_store
       ∧ order_state m' p1 = Some (0, 100, OrderStatusCancelled)
       ∧ (∃ q o, ob_orders registered_book !! "b" = Some q ∧ cancel_store !! q = Some o
                 ∧ Status o ≠ OrderStatusCancelled
                 ∧ m' = <[q := with_Status OrderStatusCancelled o]> cancel_store)
       ∧ CancelOrder registered_book "b" m'
         = Ok (registered_book, Some (ErrAlreadyCancelled "b"), m'))
  ∧ (∃ ob' m',
      CancelOrder S1_book "b" S1_store = Ok (ob', None, m')
      ∧ ob_orders ob' = ob_orders S1_book
      ∧ ob' = mkBook "X" [mkLevel 10 [] 0] [] {[ "b" := p1 ]}
      ∧ order_state m' p1 = Some (0, 100, OrderStatusCancelled)
      ∧ CancelOrder ob' "b" m' = Ok (ob', Some (ErrAlreadyCancelled "b"), m'))
  ∧ (∃ ob' m',
      matchOrder 8 S1_book p2 [] S1_store = Ok (ob', [S1_trade], None, m')
      ∧ ob_orders ob' = ob_orders S1_book)
  ∧ (∃ ob' m' o,
      AddOrder priceLevels_Push (NewOrderBook "X") p1 cancel_store = Ok (ob', None, m')
      ∧ cancel_store !! p1 = Some o
      ∧ ob_orders ob' = <[ID o := p1]> (ob_orders (NewOrderBook "X"))).
Proof.
  destruct id_map_is_a_register
    as (Hcancel & Hmatch & Hadd & Hdone & Hfree & Hremove & Hagain).
  split; [|split; [|split]].
  - split; [vm_compute; reflexivity|].
    eexists.
    assert (Hrun := Hfree registered_book "b" cancel_store p1 (limit "b" BuyOrder 100 10)
                      eq_refl eq_refl ltac:(discriminate) eq_refl).
    split; [exact Hrun|]. split; [reflexivity|]. split; [reflexivity|].
    split; [exact (Hdone _ _ _ _ _ Hrun)|].
    apply (Hagain _ "b" _ p1 (with_Status OrderStatusCancelled (limit "b" BuyOrder 100 10)));
      reflexivity.
  - eexists _, _.
    assert (Hrun := Hremove S1_book "b" S1_store p1 (limit "b" BuyOrder 100 10)
                      0%nat (mkLevel 10 [p1] 100) [] []
                      eq_refl eq_refl eq_refl
                      ltac:(discriminate) eq_refl eq_refl eq_refl
                      ltac:(intros r Hr; inversion Hr)).
    split; [exact Hrun|]. split; [exact (Hcancel _ _ _ _ _ _ Hrun)|].
    split; [reflexivity|]. split; [reflexivity|].
    apply (Hagain _ "b" _ p1 (with_Status OrderStatusCancelled (limit "b" BuyOrder 100 10)));
      reflexivity.
  - eexists _, _.
    assert (Hrun : matchOrder 8 S1_book p2 [] S1_store
                   = Ok (S1_book, [S1_trade], None,
                         <[p1 := with_Status OrderStatusPartial
                                   (fill 60 (limit "b" BuyOrder 100 10))]>
                           (<[p2 := with_Status OrderStatusFilled
                                      (fill 60 (limit "s" SellOrder 60 10))]> S1_store)))
      by (vm_compute; reflexivity).
    split; [exact Hrun|]. exact (Hmatch _ _ _ _ _ _ _ _ _ Hrun).
  - assert (Hrun : AddOrder priceLevels_Push (NewOrderBook "X") p1 cancel_store
                   = Ok (mkBook "X" [] [] {[ "b" := p1 ]}, None, cancel_store))
      by (vm_compute; reflexivity).
    destruct (Hadd _ _ _ _ _ _ Hrun) as (o & Ho & Hmap).
    exists (mkBook "X" [] [] {[ "b" := p1 ]}), cancel_store, o.
    split; [exact Hrun|]. split; [exact Ho | exact Hmap].
Defined.
